(** * kubecfg [metadata] package: the environment store

    A shallow embedding of [CreateEnvironment], [DeleteEnvironment] and
    [GetEnvironments] (metadata/environment.go) over a tree model of the
    [afero.Fs] the manager holds, together with the Go library functions
    these three call: [strings.Split], [strings.HasPrefix],
    [strings.TrimPrefix], [strings.TrimSuffix], [path.Clean], [path.Join],
    [afero.Walk] and the [encoding/json] round trip of [EnvironmentSpec].

    Go strings are byte strings; they are modelled by [string], whose
    characters are the 256 values of [ascii]. *)

From Stdlib Require Import Ascii String NArith.
From stdpp Require Import base option list gmap strings.

Local Open Scope string_scope.

(** ** Go's [strings] package *)
Module strings.

(** [strings.Split(s, sep)] for a one-byte separator: the fields between
    the occurrences of [sep]; never the empty list. *)
Fixpoint Split (s : string) (sep : ascii) : list string :=
  match s with
  | EmptyString => [EmptyString]
  | String c s' =>
      if Ascii.eqb c sep then EmptyString :: Split s' sep
      else match Split s' sep with
           | h :: t => String c h :: t
           | [] => [String c EmptyString]
           end
  end.

(** [strings.Join(elems, sep)]. *)
Fixpoint Join (elems : list string) (sep : string) : string :=
  match elems with
  | [] => ""
  | [e] => e
  | e :: es => e ++ sep ++ Join es sep
  end.

Fixpoint HasPrefix (s prefix : string) {struct prefix} : bool :=
  match prefix, s with
  | EmptyString, _ => true
  | String a prefix', String b s' => Ascii.eqb a b && HasPrefix s' prefix'
  | String _ _, EmptyString => false
  end.

Fixpoint drop (n : nat) (s : string) : string :=
  match n, s with
  | O, _ => s
  | S n', String _ s' => drop n' s'
  | S _, EmptyString => EmptyString
  end.

Fixpoint take (n : nat) (s : string) : string :=
  match n, s with
  | S n', String c s' => String c (take n' s')
  | _, _ => EmptyString
  end.

Definition HasSuffix (s suffix : string) : bool :=
  String.eqb (drop (String.length s - String.length suffix) s) suffix.

Definition TrimPrefix (s prefix : string) : string :=
  if HasPrefix s prefix then drop (String.length prefix) s else s.

Definition TrimSuffix (s suffix : string) : string :=
  if HasSuffix s suffix
  then take (String.length s - String.length suffix) s else s.

End strings.

(** ** Go's [path] package (and [path/filepath] on a Unix system) *)
Module path.

(** One step of [Clean] over the elements of a path, the kept elements
    in reverse: empty and [.] elements are dropped, [..] removes the
    element before it, is dropped at the start of a rooted path and is
    kept at the start of a relative one. *)
Definition clean_step (rooted : bool) (stack : list string) (e : string)
  : list string :=
  if String.eqb e "" then stack
  else if String.eqb e "." then stack
  else if String.eqb e ".." then
    match stack with
    | top :: rest =>
        if String.eqb top ".." then e :: stack else rest
    | [] => if rooted then [] else [e]
    end
  else e :: stack.

Definition rooted (p : string) : bool := strings.HasPrefix p "/".

(** [path.Clean]: the shortest path equivalent to [p] by lexical
    processing; the empty result is [.]. *)
Definition Clean (p : string) : string :=
  let kept := fold_left (clean_step (rooted p)) (strings.Split p "/") [] in
  let out := (if rooted p then "/" else "") ++ strings.Join (rev kept) "/" in
  if String.eqb out "" then "." else out.

(** [path.Join]: empty elements are ignored, the rest is joined with
    slashes and cleaned; no non-empty element gives the empty string. *)
Definition Join (elems : list string) : string :=
  match filter (fun e => e ≠ "") elems with
  | [] => ""
  | es => Clean (strings.Join es "/")
  end.

End path.

(** ** Errors and outcomes *)

(** The operations of [afero.Fs] that the package calls. *)
Inductive op : Set :=
| OpStat | OpLstat | OpReadDir | OpReadFile | OpWriteFile | OpMkdirAll
| OpRemoveAll.

(** Go's [error] values that can reach the package: the errors of the
    filesystem (by resolved path), an injected failure of one operation,
    the two errors of [json.Unmarshal], [errors.New] and the error of the
    cluster specification's [data()]. *)
Inductive error : Set :=
| ENOENT (p : list string)
| ENOTDIR (p : list string)
| EISDIR (p : list string)
| EIO (o : op) (p : list string)
| SyntaxError
| UnmarshalTypeError
| errorString (msg : string)
| SpecError (msg : string).

(** A Go result pair [(a, err)]: the value when [err] is nil, the error
    otherwise. *)
Inductive result (A : Type) : Type :=
| Ok (a : A)
| Err (e : error).
Arguments Ok {A} a.
Arguments Err {A} e.

Definition rbind {A B} (x : result A) (k : A -> result B) : result B :=
  match x with
  | Ok a => k a
  | Err e => Err e
  end.

(** What a call of a function of type [error] does: return its error
    (nil or not), or panic with a run-time error. *)
Inductive outcome : Set :=
| Returned (err : option error)
| Panicked (msg : string).

#[global] Instance op_eq_dec : EqDecision op.
Proof. solve_decision. Defined.

#[global] Instance error_eq_dec : EqDecision error.
Proof. solve_decision. Defined.

(** ** Go's [unicode/utf8] package *)
Module utf8.

Local Open Scope N_scope.

Definition RuneError : N := 0xFFFD.
Definition MaxRune : N := 0x10FFFF.

Definition byte (c : ascii) : N := N_of_ascii c.
Definition chr (n : N) : ascii := ascii_of_N n.

Definition between (lo hi b : N) : bool := (lo <=? b) && (b <=? hi).

(** For a leading byte, the length of its sequence and the range its
    second byte must lie in ([first] and [acceptRanges] of the
    package); [None] for a byte that starts no sequence. *)
Definition lead (b0 : N) : option (nat * N * N) :=
  if between 0xC2 0xDF b0 then Some (2%nat, 0x80, 0xBF)
  else if b0 =? 0xE0 then Some (3%nat, 0xA0, 0xBF)
  else if between 0xE1 0xEC b0 then Some (3%nat, 0x80, 0xBF)
  else if b0 =? 0xED then Some (3%nat, 0x80, 0x9F)
  else if between 0xEE 0xEF b0 then Some (3%nat, 0x80, 0xBF)
  else if b0 =? 0xF0 then Some (4%nat, 0x90, 0xBF)
  else if between 0xF1 0xF3 b0 then Some (4%nat, 0x80, 0xBF)
  else if b0 =? 0xF4 then Some (4%nat, 0x80, 0x8F)
  else None.

(** [utf8.DecodeRuneInString]: the first rune of [s] and its width in
    bytes; [(RuneError, 1)] when the encoding is invalid, [(RuneError,
    0)] for the empty string. The masks and shifts of the package are
    written as the arithmetic they compute: [x & 0x3F] is [x mod 64],
    [x << 6] is [x * 64], and [|] joins disjoint bit fields, so adds. *)
Definition DecodeRune (s : string) : N * nat :=
  match s with
  | EmptyString => (RuneError, 0%nat)
  | String c0 s1 =>
      let b0 := byte c0 in
      if b0 <? 0x80 then (b0, 1%nat)
      else match lead b0 with
           | None => (RuneError, 1%nat)
           | Some (sz, lo, hi) =>
               match s1 with
               | EmptyString => (RuneError, 1%nat)
               | String c1 s2 =>
                   let b1 := byte c1 in
                   if negb (between lo hi b1) then (RuneError, 1%nat)
                   else if (sz <=? 2)%nat
                   then ((b0 mod 32) * 64 + b1 mod 64, 2%nat)
                   else match s2 with
                   | EmptyString => (RuneError, 1%nat)
                   | String c2 s3 =>
                       let b2 := byte c2 in
                       if negb (between 0x80 0xBF b2) then (RuneError, 1%nat)
                       else if (sz <=? 3)%nat
                       then ((b0 mod 16) * 4096 + (b1 mod 64) * 64
                             + b2 mod 64, 3%nat)
                       else match s3 with
                       | EmptyString => (RuneError, 1%nat)
                       | String c3 _ =>
                           let b3 := byte c3 in
                           if negb (between 0x80 0xBF b3)
                           then (RuneError, 1%nat)
                           else ((b0 mod 8) * 262144 + (b1 mod 64) * 4096
                                 + (b2 mod 64) * 64 + b3 mod 64, 4%nat)
                       end
                   end
               end
           end
  end.

(** A continuation byte, [0x80 | (r >> shift) & 0x3F], for [pow] the
    power of two of the shift. *)
Definition cont (r : N) (pow : N) : ascii :=
  chr (0x80 + (r / pow) mod 64).

(** [utf8.EncodeRune]: the bytes of the rune; a surrogate or a value
    above [MaxRune] is encoded as [RuneError]. *)
Definition EncodeRune (r : N) : string :=
  if r <=? 0x7F then String (chr r) ""
  else if r <=? 0x7FF then
    String (chr (0xC0 + r / 64)) (String (cont r 1) "")
  else
    let r := if (MaxRune <? r) || between 0xD800 0xDFFF r
             then RuneError else r in
    if r <=? 0xFFFF then
      String (chr (0xE0 + r / 4096))
        (String (cont r 64) (String (cont r 1) ""))
    else
      String (chr (0xF0 + r / 262144))
        (String (cont r 4096) (String (cont r 64) (String (cont r 1) ""))).

(** [utf8.ValidString]. *)
Fixpoint valid_loop (fuel : nat) (s : string) : bool :=
  match s with
  | EmptyString => true
  | String _ _ =>
      match fuel with
      | O => false
      | S fuel' =>
          let '(r, size) := DecodeRune s in
          if (r =? RuneError) && (size =? 1)%nat then false
          else valid_loop fuel' (strings.drop size s)
      end
  end.

Definition ValidString (s : string) : bool := valid_loop (String.length s) s.

End utf8.

(** ** Go's [encoding/json] package, as far as [EnvironmentSpec] uses it *)
Module json.

Local Open Scope N_scope.
Import utf8.

Definition dquote : ascii := "034"%char.
Definition backslash : ascii := "\"%char.
Definition LF : ascii := "010"%char.

Definition hex (n : N) : ascii :=
  if n <? 10 then chr (48 + n) else chr (87 + n).

(** [htmlSafeSet]: the ASCII bytes written as they are. *)
Definition htmlSafe (b : N) : bool :=
  (0x20 <=? b) && negb (b =? 34) && negb (b =? 92)
  && negb (b =? 60) && negb (b =? 62) && negb (b =? 38).

(** The escape written for an ASCII byte outside [htmlSafeSet]. *)
Definition escape (b : N) : string :=
  if (b =? 92) || (b =? 34) then String backslash (String (chr b) "")
  else if b =? 10 then String backslash "n"
  else if b =? 13 then String backslash "r"
  else if b =? 9 then String backslash "t"
  else String backslash ("u00" ++ String (hex (b / 16))
                                    (String (hex (b mod 16)) "")).

(** The loop of [encodeState.string] with [escapeHTML] set: the text
    between the quotes of the JSON string for [s]. Invalid UTF-8 is
    written as the escape of U+FFFD. *)
Fixpoint quote_loop (fuel : nat) (s : string) : string :=
  match fuel, s with
  | S fuel', String c s1 =>
      let b := byte c in
      if b <? 0x80 then
        (if htmlSafe b then String c "" else escape b)
          ++ quote_loop fuel' s1
      else
        let '(r, size) := DecodeRune s in
        if (r =? RuneError) && (size =? 1)%nat then
          String backslash "ufffd" ++ quote_loop fuel' s1
        else if (r =? 0x2028) || (r =? 0x2029) then
          String backslash ("u202" ++ String (hex (r mod 16)) "")
            ++ quote_loop fuel' (strings.drop size s)
        else
          strings.take size s ++ quote_loop fuel' (strings.drop size s)
  | _, _ => ""
  end.

Definition quote (s : string) : string :=
  String dquote (quote_loop (String.length s) s ++ String dquote "").

(** [json.MarshalIndent(v, "", indent)] for a struct [v] whose one
    field is a string with the JSON name [name]. *)
Definition MarshalIndent (name value indent : string) : result string :=
  Ok ("{" ++ String LF (indent ++ quote name ++ ": " ++ quote value
                          ++ String LF "}")).

(** *** Decoding *)

#[warnings="-register-all"]
Inductive value : Type :=
| JNull
| JBool (b : bool)
| JNumber (lit : string)
| JString (s : string)
| JArray (elems : list value)
| JObject (members : list (string * value)).

Definition isSpace (c : ascii) : bool :=
  let b := byte c in (b =? 32) || (b =? 9) || (b =? 13) || (b =? 10).

Fixpoint skip_ws (s : string) : string :=
  match s with
  | String c s' => if isSpace c then skip_ws s' else s
  | EmptyString => s
  end.

Definition isDigit (c : ascii) : bool := between 48 57 (byte c).

Definition hexval (c : ascii) : option N :=
  let b := byte c in
  if between 48 57 b then Some (b - 48)
  else if between 97 102 b then Some (b - 87)
  else if between 65 70 b then Some (b - 55)
  else None.

(** [getu4]: the value of a [\uXXXX] escape at the start of [s]. *)
Definition getu4 (s : string) : option N :=
  match s with
  | String bs (String u (String h1 (String h2 (String h3 (String h4 _))))) =>
      if Ascii.eqb bs backslash && Ascii.eqb u "u" then
        match hexval h1, hexval h2, hexval h3, hexval h4 with
        | Some a, Some b, Some c, Some d =>
            Some (((a * 16 + b) * 16 + c) * 16 + d)
        | _, _, _, _ => None
        end
      else None
  | _ => None
  end.

(** The scanner's states inside a string literal: [stateInString],
    [stateInStringEsc], and [stateInStringEscU] to [stateInStringEscU123]
    by the number of hexadecimal digits still to come. *)
Inductive string_state : Set :=
| InString
| InStringEsc
| InStringEscU (digits : nat).

(** The scanner on a string literal, one byte at a time: the text of
    the literal up to its closing quote, and what follows it. Control
    characters and unknown escapes are syntax errors. *)
Fixpoint scan_string (st : string_state) (s : string)
  : option (string * string) :=
  match s with
  | EmptyString => None
  | String c s1 =>
      let keep st' := option_map (fun '(lit, rest) => (String c lit, rest))
                                 (scan_string st' s1) in
      match st with
      | InString =>
          if Ascii.eqb c dquote then Some ("", s1)
          else if Ascii.eqb c backslash then keep InStringEsc
          else if byte c <? 0x20 then None
          else keep InString
      | InStringEsc =>
          if existsb (Ascii.eqb c)
               [dquote; backslash; "/"; "b"; "f"; "n"; "r"; "t"]%char
          then keep InString
          else if Ascii.eqb c "u" then keep (InStringEscU 4)
          else None
      | InStringEscU n =>
          match hexval c with
          | Some _ =>
              match n with
              | S (S n') => keep (InStringEscU (S n'))
              | _ => keep InString
              end
          | None => None
          end
      end
  end.

Definition isSurrogate (r : N) : bool := between 0xD800 0xDFFF r.

(** [utf16.DecodeRune]. *)
Definition utf16_DecodeRune (r1 r2 : N) : N :=
  if between 0xD800 0xDBFF r1 && between 0xDC00 0xDFFF r2
  then (r1 - 0xD800) * 0x400 + (r2 - 0xDC00) + 0x10000
  else RuneError.

Definition unescape (e : ascii) : option ascii :=
  if existsb (Ascii.eqb e) [dquote; backslash; "/"; "'"]%char then Some e
  else if Ascii.eqb e "b" then Some "008"%char
  else if Ascii.eqb e "f" then Some "012"%char
  else if Ascii.eqb e "n" then Some "010"%char
  else if Ascii.eqb e "r" then Some "013"%char
  else if Ascii.eqb e "t" then Some "009"%char
  else None.

(** The copying loop of [unquoteBytes] on the text of a literal:
    escapes are replaced, and bytes that are not UTF-8 become U+FFFD. *)
Fixpoint unquote_loop (fuel : nat) (s : string) : option string :=
  match s with
  | EmptyString => Some ""
  | String c s1 =>
      match fuel with
      | O => None
      | S fuel' =>
          if Ascii.eqb c backslash then
            match s1 with
            | EmptyString => None
            | String e s2 =>
                if Ascii.eqb e "u" then
                  match getu4 s with
                  | None => None
                  | Some rr =>
                      let s6 := strings.drop 6 s in
                      if isSurrogate rr then
                        let dec := match getu4 s6 with
                                   | Some rr1 => utf16_DecodeRune rr rr1
                                   | None => RuneError
                                   end in
                        if negb (dec =? RuneError) then
                          option_map (append (EncodeRune dec))
                            (unquote_loop fuel' (strings.drop 6 s6))
                        else
                          option_map (append (EncodeRune RuneError))
                            (unquote_loop fuel' s6)
                      else
                        option_map (append (EncodeRune rr))
                          (unquote_loop fuel' s6)
                  end
                else match unescape e with
                     | Some x => option_map (String x) (unquote_loop fuel' s2)
                     | None => None
                     end
            end
          else if Ascii.eqb c dquote || (byte c <? 0x20) then None
          else if byte c <? 0x80 then
            option_map (String c) (unquote_loop fuel' s1)
          else
            let '(rr, size) := DecodeRune s in
            option_map (append (EncodeRune rr))
              (unquote_loop fuel' (strings.drop size s))
      end
  end.

(** The first loop of [unquoteBytes]: whether the text has nothing to
    replace, so that it is returned as it is. *)
Fixpoint plain (fuel : nat) (s : string) : bool :=
  match s with
  | EmptyString => true
  | String c s1 =>
      match fuel with
      | O => false
      | S fuel' =>
          if Ascii.eqb c backslash || Ascii.eqb c dquote || (byte c <? 0x20)
          then false
          else if byte c <? 0x80 then plain fuel' s1
          else let '(rr, size) := DecodeRune s in
               if (rr =? RuneError) && (size =? 1)%nat then false
               else plain fuel' (strings.drop size s)
      end
  end.

(** [unquoteBytes], on the text between the quotes. *)
Definition unquote (lit : string) : option string :=
  if plain (String.length lit) lit then Some lit
  else unquote_loop (String.length lit) lit.

Fixpoint digits (s : string) : string * string :=
  match s with
  | String c s' =>
      if isDigit c then let '(d, rest) := digits s' in (String c d, rest)
      else ("", s)
  | EmptyString => ("", s)
  end.

(** One or more digits. *)
Definition digits1 (s : string) : option (string * string) :=
  match digits s with
  | (EmptyString, _) => None
  | (d, rest) => Some (d, rest)
  end.

(** The scanner's number states: sign, integer part without leading
    zeros, fraction, exponent. *)
Definition scan_number (s : string) : option (string * string) :=
  let '(sign, s0) := match s with
                     | String "-" s' => ("-", s')
                     | _ => ("", s)
                     end in
  let int := match s0 with
             | String "0" s' => Some ("0", s')
             | _ => digits1 s0
             end in
  match int with
  | None => None
  | Some (i, s1) =>
      let frac := match s1 with
                  | String "." s' =>
                      option_map (fun '(d, r) => ("." ++ d, r)) (digits1 s')
                  | _ => Some ("", s1)
                  end in
      match frac with
      | None => None
      | Some (f, s2) =>
          let exp :=
            match s2 with
            | String e s' =>
                if Ascii.eqb e "e" || Ascii.eqb e "E" then
                  let '(sg, s'') :=
                    match s' with
                    | String g t =>
                        if Ascii.eqb g "+" || Ascii.eqb g "-"
                        then (String g "", t) else ("", s')
                    | EmptyString => ("", s')
                    end in
                  option_map (fun '(d, r) => (String e (sg ++ d), r))
                             (digits1 s'')
                else Some ("", s2)
            | EmptyString => Some ("", s2)
            end in
          option_map (fun '(x, r) => (sign ++ i ++ f ++ x, r)) exp
      end
  end.

Definition literal (word : string) (v : value) (s : string)
  : option (value * string) :=
  if strings.HasPrefix s word
  then Some (v, strings.drop (String.length word) s) else None.

Definition string_literal (s : string) : option (string * string) :=
  match scan_string InString s with
  | Some (lit, rest) => option_map (fun x => (x, rest)) (unquote lit)
  | None => None
  end.

(** The members of an object after its opening brace, up to the closing
    one, by the parser [pv] of values; [n] bounds their number. *)
Fixpoint parse_members (pv : string -> option (value * string))
    (n : nat) (s : string) : option (list (string * value) * string) :=
  match n, s with
  | S n', String q s1 =>
      if Ascii.eqb q dquote then
        match string_literal s1 with
        | Some (key, s2) =>
            match skip_ws s2 with
            | String ":" s3 =>
                match pv (skip_ws s3) with
                | Some (v, s4) =>
                    match skip_ws s4 with
                    | String "," s5 =>
                        option_map (fun '(ms, r) => ((key, v) :: ms, r))
                                   (parse_members pv n' (skip_ws s5))
                    | String "}" s5 => Some ([(key, v)], s5)
                    | _ => None
                    end
                | None => None
                end
            | _ => None
            end
        | None => None
        end
      else None
  | _, _ => None
  end.

(** The elements of an array after its opening bracket. *)
Fixpoint parse_elems (pv : string -> option (value * string))
    (n : nat) (s : string) : option (list value * string) :=
  match n with
  | O => None
  | S n' =>
      match pv s with
      | Some (v, s1) =>
          match skip_ws s1 with
          | String "," s2 =>
              option_map (fun '(vs, r) => (v :: vs, r))
                         (parse_elems pv n' (skip_ws s2))
          | String "]" s2 => Some ([v], s2)
          | _ => None
          end
      | None => None
      end
  end.

(** One JSON value at the start of [s] (after white space), and what
    follows it. [fuel] bounds the nesting. *)
Fixpoint parse_value (fuel : nat) (s : string) : option (value * string) :=
  match fuel with
  | O => None
  | S fuel' =>
      match s with
      | EmptyString => None
      | String c s1 =>
          if Ascii.eqb c "{" then
            match skip_ws s1 with
            | String "}" s2 => Some (JObject [], s2)
            | s2 => option_map (fun '(ms, r) => (JObject ms, r))
                      (parse_members (parse_value fuel') (String.length s2) s2)
            end
          else if Ascii.eqb c "[" then
            match skip_ws s1 with
            | String "]" s2 => Some (JArray [], s2)
            | s2 => option_map (fun '(vs, r) => (JArray vs, r))
                      (parse_elems (parse_value fuel') (String.length s2) s2)
            end
          else if Ascii.eqb c dquote then
            option_map (fun '(x, r) => (JString x, r)) (string_literal s1)
          else if Ascii.eqb c "-" || isDigit c then
            option_map (fun '(x, r) => (JNumber x, r)) (scan_number s)
          else match literal "true" (JBool true) s with
               | Some r => Some r
               | None =>
                   match literal "false" (JBool false) s with
                   | Some r => Some r
                   | None => literal "null" JNull s
                   end
               end
      end
  end.

(** [checkValid] and the decoding into a tree: one value, with only
    white space around it. *)
Definition parse (data : string) : option value :=
  match parse_value (String.length data) (skip_ws data) with
  | Some (v, rest) =>
      match skip_ws rest with
      | EmptyString => Some v
      | _ => None
      end
  | None => None
  end.

(** [asciiEqualFold]: equality up to the case bit of each byte. *)
Fixpoint asciiEqualFold (s t : string) : bool :=
  match s, t with
  | EmptyString, EmptyString => true
  | String a s', String b t' =>
      (N.land (byte a) 0xDF =? N.land (byte b) 0xDF) && asciiEqualFold s' t'
  | _, _ => false
  end.

(** Whether the object key [key] selects the field of JSON name
    [name] (a name of letters other than k and s), the only field of
    the struct. *)
Definition selects (name key : string) : bool :=
  String.eqb name key || asciiEqualFold name key.

(** The members of an object stored in turn into the string field
    [name] of a struct, from its current value [cur]: a string is
    stored, [null] leaves the field as it is, any other value is the
    (first) error reported at the end; other keys are skipped. *)
Fixpoint object (name : string) (ms : list (string * value))
    (cur : string) (err : option error) : string * option error :=
  match ms with
  | [] => (cur, err)
  | (key, v) :: ms' =>
      if selects name key then
        match v with
        | JString x => object name ms' x err
        | JNull => object name ms' cur err
        | _ => object name ms' cur
                 (match err with
                  | Some e => Some e
                  | None => Some UnmarshalTypeError
                  end)
        end
      else object name ms' cur err
  end.

(** [json.Unmarshal(data, &v)] for a struct [v] whose one field is a
    string with the JSON name [name] and the current value [cur]. *)
Definition Unmarshal (data : string) (name cur : string) : result string :=
  match parse data with
  | None => Err SyntaxError
  | Some (JObject ms) =>
      match object name ms cur None with
      | (x, None) => Ok x
      | (_, Some e) => Err e
      end
  | Some JNull => Ok cur
  | Some _ => Err UnmarshalTypeError
  end.

End json.

(** ** The filesystem: a tree, with injectable failures *)
Module afero.

(** A file holds its bytes, a directory its entries in the order they
    were created (afero sorts the names it lists; nothing below depends
    on the order). *)
#[warnings="-register-all"]
Inductive node : Type :=
| File (data : string)
| Dir (entries : list (string * node)).

(** [appFS]: the root directory, the (operation, resolved path) pairs
    that fail with an I/O error, and the log of the mutating calls made
    so far, oldest first. *)
Record Fs : Type := mkFs {
  root : list (string * node);
  faults : list (op * list string);
  calls : list (op * list string)
}.

(** A path names the node reached from the root directory by its
    elements, as the kernel resolves it (no symbolic links; relative
    paths start at the root). *)
Definition resolve (p : string) : list string :=
  rev (fold_left (path.clean_step true) (strings.Split p "/") []).

Fixpoint lookup_entry (name : string) (es : list (string * node))
  : option node :=
  match es with
  | [] => None
  | (n, x) :: es' => if String.eqb n name then Some x else lookup_entry name es'
  end.

Fixpoint put_entry (name : string) (x : node) (es : list (string * node))
  : list (string * node) :=
  match es with
  | [] => [(name, x)]
  | (n, y) :: es' =>
      if String.eqb n name then (n, x) :: es' else (n, y) :: put_entry name x es'
  end.

Fixpoint del_entry (name : string) (es : list (string * node))
  : list (string * node) :=
  match es with
  | [] => []
  | (n, y) :: es' =>
      if String.eqb n name then del_entry name es' else (n, y) :: del_entry name es'
  end.

(** The node at [segs] below [n]. *)
Fixpoint find (pre segs : list string) (n : node) : result node :=
  match segs with
  | [] => Ok n
  | s :: rest =>
      match n with
      | File _ => Err (ENOTDIR (rev pre))
      | Dir es =>
          match lookup_entry s es with
          | Some c => find (s :: pre) rest c
          | None => Err (ENOENT (rev (s :: pre) ++ rest))
          end
      end
  end.

(** [mkdir -p]: every missing directory on the way is created; a file
    on the way is an error. *)
Fixpoint mkdir_all (pre segs : list string) (n : node) : result node :=
  match n with
  | File _ => Err (ENOTDIR (rev pre))
  | Dir es =>
      match segs with
      | [] => Ok n
      | s :: rest =>
          let c := match lookup_entry s es with
                   | Some c => c
                   | None => Dir []
                   end in
          rbind (mkdir_all (s :: pre) rest c)
                (fun c' => Ok (Dir (put_entry s c' es)))
      end
  end.

(** Create or truncate the file at [segs] and write [data]; the parent
    directory must exist and the target must not be a directory. *)
Fixpoint write_file (pre segs : list string) (data : string) (n : node)
  : result node :=
  match segs with
  | [] => Err (EISDIR (rev pre))
  | s :: rest =>
      match n with
      | File _ => Err (ENOTDIR (rev pre))
      | Dir es =>
          match rest with
          | [] =>
              match lookup_entry s es with
              | Some (Dir _) => Err (EISDIR (rev (s :: pre)))
              | _ => Ok (Dir (put_entry s (File data) es))
              end
          | _ =>
              match lookup_entry s es with
              | Some c =>
                  rbind (write_file (s :: pre) rest data c)
                        (fun c' => Ok (Dir (put_entry s c' es)))
              | None => Err (ENOENT (rev (s :: pre)))
              end
          end
      end
  end.

(** Remove the node at [segs] and everything below it; a path that
    does not exist is not an error. The root directory itself is only
    emptied. *)
Fixpoint remove_all (pre segs : list string) (n : node) : result node :=
  match n with
  | File _ => Err (ENOTDIR (rev pre))
  | Dir es =>
      match segs with
      | [] => Ok (Dir [])
      | [s] => Ok (Dir (del_entry s es))
      | s :: rest =>
          match lookup_entry s es with
          | Some c =>
              rbind (remove_all (s :: pre) rest c)
                    (fun c' => Ok (Dir (put_entry s c' es)))
          | None => Ok n
          end
      end
  end.

Definition os_IsNotExist (e : error) : bool :=
  match e with ENOENT _ => true | _ => false end.

Definition is_dir (n : node) : bool :=
  match n with Dir _ => true | File _ => false end.

Definition faulty (fs : Fs) (o : op) (name : string) : bool :=
  bool_decide ((o, resolve name) ∈ faults fs).

Definition logged (fs : Fs) (o : op) (name : string) : Fs :=
  mkFs (root fs) (faults fs) (calls fs ++ [(o, resolve name)]).

(** [fs.Stat(name)]; the node stands for its [os.FileInfo]. *)
Definition Stat (fs : Fs) (name : string) : result node :=
  if faulty fs OpStat name then Err (EIO OpStat (resolve name))
  else find [] (resolve name) (Dir (root fs)).

(** [lstatIfPossible(fs, name)] of afero's [Walk]. *)
Definition Lstat (fs : Fs) (name : string) : result node :=
  if faulty fs OpLstat name then Err (EIO OpLstat (resolve name))
  else find [] (resolve name) (Dir (root fs)).

(** [afero.IsDir]. *)
Definition IsDir (fs : Fs) (name : string) : result bool :=
  match Stat fs name with
  | Ok fi => Ok (is_dir fi)
  | Err e => Err e
  end.

(** [afero.Exists]: a path that does not exist is [false] without an
    error, any other error of [Stat] is returned. *)
Definition Exists (fs : Fs) (name : string) : result bool :=
  match Stat fs name with
  | Ok _ => Ok true
  | Err e => if os_IsNotExist e then Ok false else Err e
  end.

(** [afero.ReadFile]. *)
Definition ReadFile (fs : Fs) (name : string) : result string :=
  if faulty fs OpReadFile name then Err (EIO OpReadFile (resolve name))
  else match find [] (resolve name) (Dir (root fs)) with
       | Ok (File data) => Ok data
       | Ok (Dir _) => Err (EISDIR (resolve name))
       | Err e => Err e
       end.

(** A mutating call: logged, then failed by an injected fault or run on
    the tree; a failing call leaves the tree as it was. An injected
    fault stands for a failure before the call has any effect (an open
    that fails, a permission that is denied); a failure part-way, which
    can leave a truncated file or some of the directories, is not among
    the faults. *)
Definition mutate (o : op) (name : string)
    (f : list string -> node -> result node) (fs : Fs)
  : option error * Fs :=
  let fs1 := logged fs o name in
  if faulty fs o name then (Some (EIO o (resolve name)), fs1)
  else match f (resolve name) (Dir (root fs)) with
       | Ok (Dir es) => (None, mkFs es (faults fs1) (calls fs1))
       | Ok (File _) => (Some (ENOTDIR []), fs1)
       | Err e => (Some e, fs1)
       end.

(** [fs.MkdirAll(name, perm)]. *)
Definition MkdirAll (name : string) : Fs -> option error * Fs :=
  mutate OpMkdirAll name (mkdir_all []).

(** [afero.WriteFile(fs, name, data, perm)]. *)
Definition WriteFile (name data : string) : Fs -> option error * Fs :=
  mutate OpWriteFile name (fun segs => write_file [] segs data).

(** [fs.RemoveAll(name)]. *)
Definition RemoveAll (name : string) : Fs -> option error * Fs :=
  mutate OpRemoveAll name (remove_all []).

(** [readDirNames(fs, dirname)] can fail; the names it lists are those
    of the directory's entries. *)
Definition readDirNames (fs : Fs) (dirname : string) : option error :=
  if faulty fs OpReadDir dirname then Some (EIO OpReadDir (resolve dirname))
  else None.

(** [filepath.WalkFunc], over the state [S] its closure updates: the
    path, the file information when there is one, the error [Walk] met
    on this path, and the error it returns. *)
Definition WalkFunc (S : Type) : Type :=
  string -> option node -> option error -> S -> option error * S.

(** A loop over a slice that ends at the first error. *)
Definition for_each {A S} (body : A -> S -> option error * S)
  : list A -> S -> option error * S :=
  fix loop (l : list A) (st : S) : option error * S :=
    match l with
    | [] => (None, st)
    | x :: l' =>
        match body x st with
        | (Some err, st1) => (Some err, st1)
        | (None, st1) => loop l' st1
        end
    end.

(** afero's [walk]: the callback on the node itself, then, for a
    directory, on each entry in turn; an error of the callback ends the
    walk, and an error of [Walk]'s own ([readDirNames], [Lstat] of an
    entry) is handed to the callback, whose result decides. (The
    callback of this package never returns [filepath.SkipDir].) *)
Fixpoint walk {S} (fs : Fs) (path : string) (info : node)
    (walkFn : WalkFunc S) (st : S) {struct info} : option error * S :=
  match walkFn path (Some info) None st with
  | (Some err, st1) => (Some err, st1)
  | (None, st1) =>
      match info with
      | File _ => (None, st1)
      | Dir es =>
          match readDirNames fs path with
          | Some err => walkFn path (Some info) (Some err) st1
          | None =>
              for_each
                (fun '(name, child) st =>
                   let filename := path.Join [path; name] in
                   if faulty fs OpLstat filename
                   then walkFn filename None
                          (Some (EIO OpLstat (resolve filename))) st
                   else walk fs filename child walkFn st)
                es st1
          end
      end
  end.

(** [afero.Walk(fs, root, walkFn)]. *)
Definition Walk {S} (fs : Fs) (root : string) (walkFn : WalkFunc S) (st : S)
  : option error * S :=
  match Lstat fs root with
  | Ok info => walk fs root info walkFn st
  | Err err => walkFn root None (Some err) st
  end.

End afero.

(** ** Package [metadata] *)
Module metadata.

Import afero.

Definition defaultEnvName := "default".
Definition schemaFilename := "swagger.json".
Definition extensionsLibFilename := "k.libsonnet".
Definition k8sLibFilename := "k8s.libsonnet".
Definition specFilename := "spec.json".

Record Environment : Set := mkEnvironment {
  Path : string;
  Name : string;
  URI : string
}.

(** [EnvironmentSpec], with the JSON name of its field. *)
Record EnvironmentSpec : Set := mkEnvironmentSpec { spec_URI : string }.
Definition EnvironmentSpec_URI_tag := "uri".

#[global] Instance Environment_eq_dec : EqDecision Environment.
Proof. solve_decision. Defined.

(** The interface [ClusterSpec]: what its [data()] returns, and its
    [resource()]. *)
Record ClusterSpec : Set := mkClusterSpec {
  data : result string;
  resource : string
}.

(** The fields of [manager] the environment store reads; [appFS] is the
    state the calls are run on. *)
Record manager : Set := mkManager { environmentsDir : string }.

(** Modelled from the spec: [appendToAbsPath] (declared in manager.go,
    which is not among the sources). The spec's path mapper "joins the
    environments root with the name's segments" and normalizes, and the
    path of an environment is "environmentsRoot + "/" + Name"; its
    callers here take one [AbsPath] from it and no error. For a valid
    name that is the cleaned join of its arguments. The spec also asks
    for a name with a [..] or an absolute segment to be rejected, which
    a function with this one result cannot do by returning an error:
    what the missing function does with such a name is not known, and
    the cleaned join stands in for it there. *)
Definition appendToAbsPath (originalPath : string) (toAppend : list string)
  : string :=
  path.Join (originalPath :: toAppend).

(** [generateSpecData]: [EnvironmentSpec{URI: uri}] as JSON, indented
    by two spaces. *)
Definition generateSpecData (uri : string) : result string :=
  json.MarshalIndent EnvironmentSpec_URI_tag
    (spec_URI (mkEnvironmentSpec uri)) "  ".

(** [json.Unmarshal(specFile, &envSpec)] on a zero [EnvironmentSpec]. *)
Definition unmarshalEnvironmentSpec (specFile : string)
  : result EnvironmentSpec :=
  rbind (json.Unmarshal specFile EnvironmentSpec_URI_tag
           (spec_URI (mkEnvironmentSpec "")))
        (fun x => Ok (mkEnvironmentSpec x)).

Definition CreateEnvironment (m : manager) (name uri : string)
    (spec : ClusterSpec) (extensionsLibData k8sLibData : string) (fs : Fs)
  : option error * Fs :=
  let envPath := appendToAbsPath (environmentsDir m) [name] in
  match MkdirAll envPath fs with
  | (Some err, fs1) => (Some err, fs1)
  | (None, fs1) =>
      match data spec with
      | Err err => (Some err, fs1)
      | Ok specData =>
          let schemaPath := appendToAbsPath envPath [schemaFilename] in
          match WriteFile schemaPath specData fs1 with
          | (Some err, fs2) => (Some err, fs2)
          | (None, fs2) =>
              let k8sLibPath := appendToAbsPath envPath [k8sLibFilename] in
              match WriteFile k8sLibPath k8sLibData fs2 with
              | (Some err, fs3) => (Some err, fs3)
              | (None, fs3) =>
                  let extensionsLibPath :=
                    appendToAbsPath envPath [extensionsLibFilename] in
                  match WriteFile extensionsLibPath extensionsLibData fs3 with
                  | (Some err, fs4) => (Some err, fs4)
                  | (None, fs4) =>
                      match generateSpecData uri with
                      | Err err => (Some err, fs4)
                      | Ok envSpecData =>
                          let envSpecPath :=
                            appendToAbsPath envPath [specFilename] in
                          WriteFile envSpecPath envSpecData fs4
                      end
                  end
              end
          end
      end
  end.

(** The callback [GetEnvironments] hands to [afero.Walk]; the state is
    the slice [envs] it appends to. The error [Walk] passes in is
    overwritten by the result of [afero.IsDir] before it is read. *)
Definition walkFn (m : manager) (fs : Fs) : WalkFunc (list Environment) :=
  fun path f err envs =>
    match IsDir fs path with
    | Err err => (Some err, envs)
    | Ok isDir =>
        if isDir then
          let specPath := path.Join [path; specFilename] in
          match Exists fs specPath with
          | Err err => (Some err, envs)
          | Ok specFileExists =>
              if specFileExists then
                let envName :=
                  path.Clean
                    (strings.TrimPrefix path (environmentsDir m ++ "/")) in
                match ReadFile fs specPath with
                | Err err => (Some err, envs)
                | Ok specFile =>
                    match unmarshalEnvironmentSpec specFile with
                    | Err err => (Some err, envs)
                    | Ok envSpec =>
                        (None,
                         (envs ++ [mkEnvironment path envName (spec_URI envSpec)])%list)
                    end
                end
              else (None, envs)
          end
        else (None, envs)
    end.

(** [GetEnvironments]: the slice (nil as [None]) and the error. *)
Definition GetEnvironments (m : manager) (fs : Fs)
  : option (list Environment) * option error :=
  let envs := [] in
  match Walk fs (environmentsDir m) (walkFn m fs) envs with
  | (Some err, _) => (None, Some err)
  | (None, envs) => (Some envs, None)
  end.

(** [for ... range] over a slice that may be nil. *)
Definition range {A} (s : option (list A)) : list A := default [] s.

(** [mp[k] = v] on a Go map: a run-time panic on the nil map. *)
Definition map_assign {V} (mp : option (gmap string V)) (k : string) (v : V)
  : string + option (gmap string V) :=
  match mp with
  | None => inl "assignment to entry in nil map"
  | Some g => inr (Some (<[k := v]> g))
  end.

(** [mp[k]] on a map of pointers: nil for a missing key and on the nil
    map. *)
Definition map_index {V} (mp : option (gmap string V)) (k : string)
  : option V :=
  match mp with
  | None => None
  | Some g => g !! k
  end.

(** The loop filling [allEnvPaths]. *)
Fixpoint fill (allEnvPaths : option (gmap string Environment))
    (envs : list Environment)
  : string + option (gmap string Environment) :=
  match envs with
  | [] => inr allEnvPaths
  | env :: envs' =>
      match map_assign allEnvPaths (Path env) env with
      | inl msg => inl msg
      | inr mp => fill mp envs'
      end
  end.

(** One round of the loop over the parent directories, for [dirs[i]]:
    the inner loop over [envs] only continues, and the result of
    [RemoveAll] is dropped. *)
Definition prune_step (m : manager) (name : string)
    (envs : option (list Environment)) (dir : string) (fs : Fs) : Fs :=
  let parentDir := strings.TrimSuffix name ("/" ++ dir) in
  let parentPath := appendToAbsPath (environmentsDir m) [parentDir] in
  let _ := forallb (fun env => strings.HasPrefix (Path env) parentPath)
                   (range envs) in
  snd (RemoveAll parentPath fs).

(** The loop [for i := len(dirs) - 1; i >= 0; i--]. *)
Definition prune (m : manager) (name : string)
    (envs : option (list Environment)) (dirs : list string) (fs : Fs) : Fs :=
  fold_left (fun fs dir => prune_step m name envs dir fs) (rev dirs) fs.

(** [DeleteEnvironment], as the revision of environment.go that is
    complete Go has it (in the other revision among the sources the
    function breaks off in the middle of its pruning loop and calls
    names that are not declared). *)
Definition DeleteEnvironment (m : manager) (name : string) (fs : Fs)
  : outcome * Fs :=
  let envPath := appendToAbsPath (environmentsDir m) [name] in
  match GetEnvironments m fs with
  | (_, Some err) => (Returned (Some err), fs)
  | (envs, None) =>
      let allEnvPaths : option (gmap string Environment) := None in
      match fill allEnvPaths (range envs) with
      | inl msg => (Panicked msg, fs)
      | inr allEnvPaths =>
          match map_index allEnvPaths envPath with
          | None =>
              (Returned
                 (Some (errorString
                          ("Environment " ++ String json.dquote envPath
                             ++ String json.dquote " does not exist."))),
               fs)
          | Some _ =>
              match RemoveAll envPath fs with
              | (Some err, fs1) => (Returned (Some err), fs1)
              | (None, fs1) =>
                  let dirs := strings.Split name "/" in
                  (Returned None, prune m name envs dirs fs1)
              end
          end
      end
  end.

End metadata.

(** ** Sample states *)
Module Samples.

Import afero metadata.

Definition m0 : manager := mkManager "/app/environments".

Definition spec0 : ClusterSpec := mkClusterSpec (Ok "{}") "file:swagger.json".

(** An application whose environments directory is empty. *)
Definition fs_empty : Fs :=
  mkFs [("app", Dir [("environments", Dir [])])] [] [].

Definition create (name uri : string) (fs : Fs) : Fs :=
  snd (CreateEnvironment m0 name uri spec0 "LIBA" "LIBB" fs).

(** One environment, [dev]. *)
Definition fs_dev : Fs := create "dev" "https://10.0.0.1:6443" fs_empty.

(** Two environments below the same directory, [a/b] and [a/c]. *)
Definition fs_ab_ac : Fs :=
  create "a/c" "https://c:6443" (create "a/b" "https://b:6443" fs_empty).

(** One nested environment, [a/b/c]. *)
Definition fs_abc : Fs := create "a/b/c" "https://10.0.0.1:6443" fs_empty.

(** A descriptor directly in the environments directory: what
    creating the environment of the empty name leaves. *)
Definition fs_root_spec : Fs := create "" "https://root:6443" fs_empty.

(** [a/b] and [a/c], where the directory [a] can be searched but not
    listed (reading its entries fails). *)
Definition fs_unlistable : Fs :=
  mkFs (root fs_ab_ac) [(OpReadDir, ["app"; "environments"; "a"])] [].

(** A cluster address with letters outside ASCII and punctuation. *)
Definition uri_unicode : string := "https://10.0.0.1:6443/café?q=<a&b>'€'".

(** A string of one byte that is not UTF-8. *)
Definition uri_not_utf8 : string := String "255" "".

(** An empty environments directory on a filesystem where the write of
    [dev/k.libsonnet] fails. *)
Definition fs_k_fails : Fs :=
  mkFs (root fs_empty)
    [(OpWriteFile, ["app"; "environments"; "dev"; "k.libsonnet"])] [].

(** The environment [dev] on a filesystem where the write of
    [dev/k.libsonnet] fails. *)
Definition fs_dev_k_fails : Fs :=
  mkFs (root fs_dev)
    [(OpWriteFile, ["app"; "environments"; "dev"; "k.libsonnet"])] [].

End Samples.

Import afero metadata.

(** ** Path elements and names *)

(** A path element as a directory holds it: not empty, not [.] or [..],
    and without a slash. *)
Fixpoint no_slash (s : string) : bool :=
  match s with
  | EmptyString => true
  | String c s' => negb (Ascii.eqb c "/") && no_slash s'
  end.

Definition element (s : string) : bool :=
  negb (String.eqb s "") && negb (String.eqb s ".")
  && negb (String.eqb s "..") && no_slash s.

(** The path of the elements [segs] below the root directory. *)
Definition abs_path (segs : list string) : string :=
  "/" ++ strings.Join segs "/".

(** A valid environment name: one or more path elements joined by
    slashes (so neither empty, nor absolute, nor with a [.] or [..]
    element, nor with a doubled or trailing slash). *)
Definition valid_name (name : string) : bool :=
  forallb element (strings.Split name "/").

(** ** Well-formed trees and what a walk finds in them *)

(** Every directory holds path elements, each name once. *)
Fixpoint wf_node (n : node) : bool :=
  match n with
  | File _ => true
  | Dir es =>
      bool_decide (NoDup (map fst es))
      && forallb (fun e => element (fst e) && wf_node (snd e)) es
  end.

Definition wf_fs (fs : Fs) : bool := wf_node (Dir (root fs)).

(** No operation is set to fail. *)
Definition fault_free (fs : Fs) : bool :=
  match faults fs with [] => true | _ :: _ => false end.

(** The environments directory is a cleaned absolute path other than
    the root directory, as [appendToAbsPath] returns it. *)
Definition valid_root (m : manager) : bool :=
  path.rooted (environmentsDir m)
  && String.eqb (environmentsDir m) (abs_path (resolve (environmentsDir m)))
  && match resolve (environmentsDir m) with [] => false | _ :: _ => true end.

(** The name [GetEnvironments] derives from a walked path. *)
Definition nameFor (m : manager) (path : string) : string :=
  path.Clean (strings.TrimPrefix path (environmentsDir m ++ "/")).

(** What the callback of [GetEnvironments] adds for the directory at the
    elements [segs] with the entries [es]. *)
Definition descriptor (m : manager) (segs : list string)
    (es : list (string * node)) : result (list Environment) :=
  match lookup_entry specFilename es with
  | None => Ok []
  | Some (Dir _) => Err (EISDIR (segs ++ [specFilename]))
  | Some (File specFile) =>
      rbind (unmarshalEnvironmentSpec specFile)
            (fun envSpec =>
               Ok [mkEnvironment (abs_path segs) (nameFor m (abs_path segs))
                     (spec_URI envSpec)])
  end.

(** The concatenation of the lists [f] gives on the elements of [l],
    or the first error. *)
Definition concat_results {A B} (f : A -> result (list B))
  : list A -> result (list B) :=
  fix loop (l : list A) : result (list B) :=
    match l with
    | [] => Ok []
    | x :: l' =>
        rbind (f x) (fun here => rbind (loop l') (fun rest => Ok (here ++ rest)%list))
    end.

(** The environments of the tree [n] at the elements [segs], in the order
    of the walk, or the first error met. *)
Fixpoint envs_below (m : manager) (segs : list string) (n : node)
  : result (list Environment) :=
  match n with
  | File _ => Ok []
  | Dir es =>
      rbind (descriptor m segs es) (fun here =>
      rbind (concat_results
               (fun e => envs_below m (segs ++ [fst e]) (snd e)) es)
            (fun below => Ok (here ++ below)%list))
  end.

(** Induction on a tree, with the property at hand for every entry of
    a directory. *)
Section node_induction.
Variable P : node -> Prop.
Hypothesis P_File : forall data, P (File data).
Hypothesis P_Dir :
  forall es, Forall (fun e => P (snd e)) es -> P (Dir es).

Fixpoint node_induction (n : node) : P n :=
  match n with
  | File data => P_File data
  | Dir es =>
      P_Dir es
        ((fix all (es : list (string * node)) : Forall (fun e => P (snd e)) es :=
            match es with
            | [] => List.Forall_nil _
            | e :: es' =>
                List.Forall_cons _ e es' (node_induction (snd e)) (all es')
            end) es)
  end.
End node_induction.

(** ** What [GetEnvironments] is to return *)

(** The directory at the elements [sub] below the environments
    directory, with its entries. *)
Definition directory_at (m : manager) (fs : Fs) (sub : list string)
    (es : list (string * node)) : Prop :=
  find [] (resolve (environmentsDir m) ++ sub) (Dir (root fs)) = Ok (Dir es).

Definition has_descriptor (es : list (string * node)) : Prop :=
  lookup_entry specFilename es <> None.

(** [envs] holds an environment for exactly the directories that contain
    a descriptor file, under the name its elements spell. *)
Definition emits_descriptor_directories (m : manager) (fs : Fs)
    (envs : list Environment) : Prop :=
  (forall e, In e envs ->
     exists sub es,
       directory_at m fs sub es /\ has_descriptor es
       /\ Path e = abs_path (resolve (environmentsDir m) ++ sub)
       /\ (sub <> [] -> Name e = strings.Join sub "/"))
  /\ (forall sub es,
        directory_at m fs sub es -> has_descriptor es ->
        exists e, In e envs
                  /\ Path e = abs_path (resolve (environmentsDir m) ++ sub))
  /\ (forall sub es,
        directory_at m fs sub es -> ~ has_descriptor es ->
        forall e, In e envs ->
                  Path e <> abs_path (resolve (environmentsDir m) ++ sub)).

(** ** Pieces of a JSON string literal *)

(** Every byte is outside ASCII. *)
Definition all_high (s : string) : bool :=
  forallb (fun c => (0x80 <=? utf8.byte c)%N) (list_ascii_of_string s).

(** The scanner passes over [enc] inside a string literal. *)
Definition scans (enc : string) : Prop :=
  forall x lit rest,
    json.scan_string json.InString x = Some (lit, rest) ->
    json.scan_string json.InString (enc ++ x) = Some (enc ++ lit, rest).

(** One round of the loop of [unquoteBytes] turns [enc] into [dec]. *)
Definition unquotes (enc dec : string) : Prop :=
  forall fuel x,
    json.unquote_loop (S fuel) (enc ++ x)
    = option_map (String.append dec) (json.unquote_loop fuel x).

(** ** The descriptor *)

(** The members of an object that [Unmarshal] stores into the field of
    [EnvironmentSpec]. *)
Definition uri_members (ms : list (string * json.value))
  : list (string * json.value) :=
  filter (fun kv => json.selects EnvironmentSpec_URI_tag (fst kv) = true) ms.

(** The descriptor of [uri] is the object with the one key [uri],
    indented by two spaces, and reading it gives [uri] back; and reading
    any descriptor depends on its [uri] members only. *)
Definition descriptor_round_trip (uri : string) : Prop :=
  (exists specFile,
     generateSpecData uri = Ok specFile
     /\ specFile
        = "{" ++ String json.LF
            ("  " ++ json.quote "uri" ++ ": " ++ json.quote uri
               ++ String json.LF "}")
     /\ json.parse specFile = Some (json.JObject [("uri", json.JString uri)])
     /\ unmarshalEnvironmentSpec specFile = Ok (mkEnvironmentSpec uri))
  /\ (forall specFile ms,
        json.parse specFile = Some (json.JObject ms) ->
        unmarshalEnvironmentSpec specFile
        = match json.object EnvironmentSpec_URI_tag (uri_members ms) "" None with
          | (x, None) => Ok (mkEnvironmentSpec x)
          | (_, Some e) => Err e
          end).

(** ** One environment of a name *)


(** ** Files on disk *)

(** The bytes of the file at [segs] below [n], if there is a file. *)
Fixpoint file_at (segs : list string) (n : node) : option string :=
  match segs, n with
  | [], File data => Some data
  | s :: rest, Dir es =>
      match lookup_entry s es with
      | Some c => file_at rest c
      | None => None
      end
  | _, _ => None
  end.

(** The descriptor of the environment [name], if it is on disk. *)
Definition descriptor_of (m : manager) (name : string) (fs : Fs)
  : option string :=
  file_at
    (resolve (appendToAbsPath (appendToAbsPath (environmentsDir m) [name])
                [specFilename]))
    (Dir (root fs)).

(** ** The calls of [CreateEnvironment] *)

(** The mutating calls of a complete [CreateEnvironment], in order. *)
Definition create_calls (m : manager) (name : string) : list (op * list string) :=
  let envPath := appendToAbsPath (environmentsDir m) [name] in
  [(OpMkdirAll, resolve envPath);
   (OpWriteFile, resolve (appendToAbsPath envPath [schemaFilename]));
   (OpWriteFile, resolve (appendToAbsPath envPath [k8sLibFilename]));
   (OpWriteFile, resolve (appendToAbsPath envPath [extensionsLibFilename]));
   (OpWriteFile, resolve (appendToAbsPath envPath [specFilename]))].

(** The last element of the path of each [WriteFile] in a log. *)
Definition written_files (log : list (op * list string)) : list string :=
  omap (fun c => match c with
                 | (OpWriteFile, p) => last p
                 | _ => None
                 end) log.

(** What a run of [CreateEnvironment] is: either it stops at the first
    failing step, before the descriptor is written, or [MkdirAll],
    [data()] and the three writes before the descriptor all succeeded and
    its result is that of writing the descriptor. *)
Inductive create_run (m : manager) (name uri : string) (spec : ClusterSpec)
    (extensionsLibData k8sLibData : string) (fs : Fs)
  : option error * Fs -> Prop :=
| run_stopped (n : nat) (err : error) (fs' : Fs) :
    1 <= n < 5 ->
    calls fs' = (calls fs ++ take n (create_calls m name))%list ->
    create_run m name uri spec extensionsLibData k8sLibData fs (Some err, fs')
| run_descriptor (specData envSpecData : string) (fs1 fs2 fs3 fs4 : Fs) :
    let envPath := appendToAbsPath (environmentsDir m) [name] in
    MkdirAll envPath fs = (None, fs1) ->
    data spec = Ok specData ->
    WriteFile (appendToAbsPath envPath [schemaFilename]) specData fs1
      = (None, fs2) ->
    WriteFile (appendToAbsPath envPath [k8sLibFilename]) k8sLibData fs2
      = (None, fs3) ->
    WriteFile (appendToAbsPath envPath [extensionsLibFilename])
        extensionsLibData fs3 = (None, fs4) ->
    generateSpecData uri = Ok envSpecData ->
    calls fs4 = (calls fs ++ take 4 (create_calls m name))%list ->
    create_run m name uri spec extensionsLibData k8sLibData fs
      (WriteFile (appendToAbsPath envPath [specFilename]) envSpecData fs4).

(** ** Descriptors that cannot be read *)

(** The entry [spec.json] of a directory is itself a directory, or a
    file that [json.Unmarshal] rejects. *)
Definition broken_descriptor (es : list (string * node)) : Prop :=
  (exists es', lookup_entry specFilename es = Some (Dir es'))
  \/ (exists specFile err,
        lookup_entry specFilename es = Some (File specFile)
        /\ unmarshalEnvironmentSpec specFile = Err err).

(** A filesystem where the descriptor of [dev] is not JSON. *)
Definition fs_broken_dev : Fs :=
  mkFs [("app", Dir [("environments",
           Dir [("dev", Dir [("spec.json", File "not json")]);
                ("prod", Dir [("spec.json", File "{}")])])])] [] [].

(** ** The files of an environment *)

(** The names of the files [CreateEnvironment] writes, in its order. *)
Definition artifacts : list string :=
  [schemaFilename; k8sLibFilename; extensionsLibFilename; specFilename].

(** The bytes of the file [file] of the environment [name], if it is on
    disk. *)
Definition artifact (m : manager) (name file : string) (fs : Fs)
  : option string :=
  file_at
    (resolve (appendToAbsPath (appendToAbsPath (environmentsDir m) [name])
                [file]))
    (Dir (root fs)).

(** Whatever is on [fs] is on [fs'] too: every path that leads to a file
    leads to a file, every path that leads to a directory leads to a
    directory. *)
Definition keeps (fs fs' : Fs) : Prop :=
  forall q x, find [] q (Dir (root fs)) = Ok x ->
  exists x', find [] q (Dir (root fs')) = Ok x' /\ is_dir x' = is_dir x.

(** ** Strings that are not UTF-8 *)

(** [s] with every byte that starts no UTF-8 sequence replaced by the
    encoding of U+FFFD, as Go's encoder coerces a string to valid
    UTF-8. *)
Fixpoint coerce_loop (fuel : nat) (s : string) : string :=
  match fuel, s with
  | S fuel', String c s1 =>
      let '(r, size) := utf8.DecodeRune s in
      if (r =? utf8.RuneError)%N && (size =? 1)%nat then
        utf8.EncodeRune utf8.RuneError ++ coerce_loop fuel' s1
      else strings.take size s ++ coerce_loop fuel' (strings.drop size s)
  | _, _ => ""
  end.

Definition coerce (s : string) : string := coerce_loop (String.length s) s.

(** ** Package [filepath] *)
Module filepath.

(** A path up to and including its last slash; empty when it has
    none. *)
Fixpoint upto_last_slash (p : string) : string :=
  match p with
  | EmptyString => EmptyString
  | String c rest =>
      let r := upto_last_slash rest in
      if Ascii.eqb c "/" || negb (String.eqb r "") then String c r
      else EmptyString
  end.

(** [filepath.Dir] where the separator is the slash and paths have no
    volume name: [Clean] of the path up to its last separator. *)
Definition Dir (p : string) : string := path.Clean (upto_last_slash p).

End filepath.

(** ** The library generator *)

(** [kubespec.APISpec]: what [json.Unmarshal] decodes into it, of a
    type [R] left open, and the two fields [GenerateKsonnetLibData]
    sets. *)
Record APISpec (R : Type) : Type := mkAPISpec {
  decoded : R;
  FilePath : string;
  Text : string
}.

Arguments mkAPISpec {R}.
Arguments decoded {R}.
Arguments FilePath {R}.
Arguments Text {R}.

(** [GenerateKsonnetLibData], over the two functions of other packages
    it calls: [json.Unmarshal] into a [kubespec.APISpec], and
    [ksonnet.Emit], which returns the two libraries (nil as [None]) and
    an error. *)
Definition GenerateKsonnetLibData {R : Type}
    (unmarshal : string -> result (APISpec R))
    (Emit : APISpec R -> option string * option string * option error)
    (m : manager) (spec : ClusterSpec)
  : option string * option string * option error :=
  match data spec with
  | Err err => (None, None, Some err)
  | Ok text =>
      let ksonnetLibDir :=
        appendToAbsPath (environmentsDir m) [defaultEnvName] in
      match unmarshal text with
      | Err err => (None, None, Some err)
      | Ok s =>
          let s := mkAPISpec (decoded s) (FilePath s) text in
          let s := mkAPISpec (decoded s) (filepath.Dir ksonnetLibDir)
                     (Text s) in
          Emit s
      end
  end.

(** * Properties *)

(** ** Strings and paths *)

Lemma Split_not_nil (s : string) (sep : ascii) : strings.Split s sep <> [].
Proof.
  destruct s as [|c s]; simpl; [discriminate|].
  destruct (Ascii.eqb c sep); [discriminate|].
  destruct (strings.Split s sep); discriminate.
Qed.

Lemma Split_app_sep (a b : string) (sep : ascii) :
  strings.Split (a ++ String sep b) sep
  = (strings.Split a sep ++ strings.Split b sep)%list.
Proof.
  induction a as [|c a IH]; simpl.
  - rewrite Ascii.eqb_refl. reflexivity.
  - destruct (Ascii.eqb c sep); [rewrite IH; reflexivity|].
    rewrite IH. pose proof (Split_not_nil a sep) as N.
    destruct (strings.Split a sep) as [|h t]; [contradiction|reflexivity].
Qed.

Lemma Split_no_slash (s : string) :
  no_slash s = true -> strings.Split s "/" = [s].
Proof.
  induction s as [|c s IH]; simpl; [reflexivity|].
  intros H. apply andb_true_iff in H as [Hc Hs].
  apply negb_true_iff in Hc. rewrite Hc, (IH Hs). reflexivity.
Qed.

Lemma Split_elements_no_slash (s : string) :
  Forall (fun x => no_slash x = true) (strings.Split s "/").
Proof.
  induction s as [|c s IH]; simpl.
  - repeat constructor.
  - destruct (Ascii.eqb c "/") eqn:E.
    + constructor; [reflexivity|exact IH].
    + pose proof (Split_not_nil s "/") as N.
      destruct (strings.Split s "/") as [|h t]; [contradiction|].
      inversion IH; subst. constructor; [|assumption].
      simpl. rewrite E. simpl. assumption.
Qed.

Lemma Split_Join (segs : list string) :
  segs <> [] -> Forall (fun x => no_slash x = true) segs ->
  strings.Split (strings.Join segs "/") "/" = segs.
Proof.
  induction segs as [|x segs IH]; [congruence|].
  intros _ H. inversion H as [|? ? Hx Hs]; subst.
  destruct segs as [|y segs].
  - simpl. apply Split_no_slash. assumption.
  - change (strings.Join (x :: y :: segs) "/")
      with (x ++ String "/" (strings.Join (y :: segs) "/")).
    rewrite Split_app_sep, IH by (congruence || assumption).
    rewrite Split_no_slash by assumption. reflexivity.
Qed.

Lemma element_no_slash (x : string) : element x = true -> no_slash x = true.
Proof. unfold element. intros H. apply andb_true_iff in H. tauto. Qed.

Lemma clean_step_element (r : bool) (st : list string) (x : string) :
  element x = true -> path.clean_step r st x = x :: st.
Proof.
  unfold element, path.clean_step. intros H.
  repeat (apply andb_true_iff in H as [H ?]).
  repeat match goal with
         | H : negb _ = true |- _ => apply negb_true_iff in H; rewrite H
         end.
  reflexivity.
Qed.

Lemma fold_clean_elements (r : bool) (segs st : list string) :
  Forall (fun x => element x = true) segs ->
  fold_left (path.clean_step r) segs st = (rev segs ++ st)%list.
Proof.
  revert st. induction segs as [|x segs IH]; intros st H; [reflexivity|].
  inversion H; subst. simpl.
  rewrite clean_step_element, IH, <- app_assoc by assumption. reflexivity.
Qed.

(** ** [DeleteEnvironment] *)

(** With the slice of environments in hand, the call panics on the first
    one and returns "does not exist" when there is none. *)
Lemma DeleteEnvironment_cases (m : manager) (name : string) (fs : Fs) :
  DeleteEnvironment m name fs =
    match GetEnvironments m fs with
    | (_, Some err) => (Returned (Some err), fs)
    | (envs, None) =>
        match range envs with
        | _ :: _ => (Panicked "assignment to entry in nil map", fs)
        | [] =>
            (Returned
               (Some (errorString
                        ("Environment "
                           ++ String json.dquote
                                (appendToAbsPath (environmentsDir m) [name])
                           ++ String json.dquote " does not exist."))), fs)
        end
    end.
Proof.
  unfold DeleteEnvironment.
  destruct (GetEnvironments m fs) as [envs [err|]]; [reflexivity|].
  destruct envs as [[|e envs]|]; reflexivity.
Qed.

(** No call of [DeleteEnvironment] changes the filesystem, not even its
    log of calls: [RemoveAll] is never reached. *)
Lemma DeleteEnvironment_fs_unchanged (m : manager) (name : string) (fs : Fs) :
  snd (DeleteEnvironment m name fs) = fs.
Proof.
  rewrite DeleteEnvironment_cases.
  destruct (GetEnvironments m fs) as [envs [err|]]; [reflexivity|].
  destruct envs as [[|e envs]|]; reflexivity.
Qed.

(** C10: [DeleteEnvironment] is not total in states where an environment
    exists: with the one environment [dev] on disk, deleting it panics
    ("assignment to entry in nil map") instead of returning. *)
Theorem DeleteEnvironment_panics_with_an_environment :
  GetEnvironments Samples.m0 Samples.fs_dev
    = (Some [mkEnvironment "/app/environments/dev" "dev"
               "https://10.0.0.1:6443"], None)
  /\ DeleteEnvironment Samples.m0 "dev" Samples.fs_dev
     = (Panicked "assignment to entry in nil map", Samples.fs_dev).
Proof. split; vm_compute; reflexivity. Qed.

(** C4: deleting a name that has no descriptor, [staging], while another
    environment exists does not return the "does not exist" error: the
    call panics. The filesystem is left as it was. *)
Theorem DeleteEnvironment_missing_name_panics :
  Exists Samples.fs_dev "/app/environments/staging/spec.json" = Ok false
  /\ DeleteEnvironment Samples.m0 "staging" Samples.fs_dev
     = (Panicked "assignment to entry in nil map", Samples.fs_dev).
Proof. split; vm_compute; reflexivity. Qed.

(** C3: with [a/b] and [a/c] on disk, deleting [a/b] panics before
    anything is removed; and the pruning loop itself, run after the
    removal of [a/b], removes the shared directory [a] although [a/c]
    is still in it. *)
Theorem DeleteEnvironment_shared_prefix :
  let fs := Samples.fs_ab_ac in
  let removed := snd (RemoveAll "/app/environments/a/b" fs) in
  let envs := fst (GetEnvironments Samples.m0 fs) in
  DeleteEnvironment Samples.m0 "a/b" fs
    = (Panicked "assignment to entry in nil map", fs)
  /\ IsDir removed "/app/environments/a/c" = Ok true
  /\ IsDir (prune Samples.m0 "a/b" envs (strings.Split "a/b" "/") removed)
           "/app/environments/a"
     = Err (ENOENT ["app"; "environments"; "a"]).
Proof. repeat split; vm_compute; reflexivity. Qed.

(** ** [CreateEnvironment] *)

Lemma mutate_calls (o : op) (name : string)
    (f : list string -> node -> result node) (fs : Fs) :
  calls (snd (mutate o name f fs)) = (calls fs ++ [(o, resolve name)])%list.
Proof.
  unfold mutate. destruct (faulty fs o name); [reflexivity|].
  destruct (f _ _) as [[d|es]|e]; reflexivity.
Qed.

Lemma MkdirAll_calls (name : string) (fs : Fs) (r : option error) (fs' : Fs) :
  MkdirAll name fs = (r, fs') ->
  calls fs' = (calls fs ++ [(OpMkdirAll, resolve name)])%list.
Proof.
  intros H. pose proof (mutate_calls OpMkdirAll name (mkdir_all []) fs) as C.
  unfold MkdirAll in H. rewrite H in C. exact C.
Qed.

Lemma WriteFile_calls (name data : string) (fs : Fs) (r : option error) (fs' : Fs) :
  WriteFile name data fs = (r, fs') ->
  calls fs' = (calls fs ++ [(OpWriteFile, resolve name)])%list.
Proof.
  intros H.
  pose proof (mutate_calls OpWriteFile name
                (fun segs => write_file [] segs data) fs) as C.
  unfold WriteFile in H. rewrite H in C. exact C.
Qed.

(** ** Resolution of joined paths *)

Lemma clean_step_true_elements (st : list string) (e : string) :
  no_slash e = true ->
  Forall (fun x => element x = true) st ->
  Forall (fun x => element x = true) (path.clean_step true st e).
Proof.
  intros He Hst. unfold path.clean_step.
  destruct (String.eqb e "") eqn:E1; [assumption|].
  destruct (String.eqb e ".") eqn:E2; [assumption|].
  destruct (String.eqb e "..") eqn:E3.
  - destruct st as [|top rest]; [constructor|].
    inversion Hst as [|? ? Ht Hr]; subst.
    destruct (String.eqb top "..") eqn:E4; [|assumption].
    apply String.eqb_eq in E4. subst top. discriminate Ht.
  - constructor; [|assumption].
    unfold element. rewrite E1, E2, E3, He. reflexivity.
Qed.

Lemma fold_clean_true_elements (segs st : list string) :
  Forall (fun x => no_slash x = true) segs ->
  Forall (fun x => element x = true) st ->
  Forall (fun x => element x = true) (fold_left (path.clean_step true) segs st).
Proof.
  revert st. induction segs as [|e segs IH]; intros st Hs Hst; [assumption|].
  inversion Hs; subst. simpl. apply IH; [assumption|].
  apply clean_step_true_elements; assumption.
Qed.

Lemma resolve_elements (p : string) :
  Forall (fun x => element x = true) (resolve p).
Proof.
  unfold resolve. apply Forall_rev.
  apply fold_clean_true_elements; [apply Split_elements_no_slash|constructor].
Qed.

Lemma resolve_abs_path (segs : list string) :
  Forall (fun x => element x = true) segs -> resolve (abs_path segs) = segs.
Proof.
  intros H. unfold resolve, abs_path.
  destruct segs as [|x segs]; [reflexivity|].
  change (strings.Split ("/" ++ strings.Join (x :: segs) "/") "/")
    with (EmptyString :: strings.Split (strings.Join (x :: segs) "/") "/").
  rewrite Split_Join.
  - change (fold_left (path.clean_step true) (EmptyString :: x :: segs) [])
      with (fold_left (path.clean_step true) (x :: segs) []).
    rewrite fold_clean_elements by assumption.
    rewrite app_nil_r. apply rev_involutive.
  - discriminate.
  - eapply Forall_impl; [exact H|]. intros a. apply element_no_slash.
Qed.

Lemma Clean_rooted (p : string) :
  path.rooted p = true -> path.Clean p = abs_path (resolve p).
Proof.
  intros R. unfold path.Clean, resolve, abs_path. rewrite R. reflexivity.
Qed.

Lemma rooted_abs_path (segs : list string) : path.rooted (abs_path segs) = true.
Proof. reflexivity. Qed.

Lemma rooted_app (p q : string) :
  path.rooted p = true -> path.rooted (p ++ q) = true.
Proof. destruct p as [|c p]; [discriminate|]. simpl. intros H. exact H. Qed.

Lemma resolve_app_element (a x : string) :
  element x = true -> resolve (a ++ String "/" x) = (resolve a ++ [x])%list.
Proof.
  intros H. unfold resolve.
  rewrite Split_app_sep, fold_left_app.
  rewrite (Split_no_slash x) by (apply element_no_slash; assumption).
  simpl. rewrite clean_step_element by assumption. reflexivity.
Qed.

Lemma path_Join_pair (p x : string) :
  p <> "" -> x <> "" ->
  path.Join [p; x] = path.Clean (p ++ String "/" x).
Proof.
  intros Hp Hx. unfold path.Join.
  rewrite filter_cons_True by assumption.
  rewrite filter_cons_True by assumption. reflexivity.
Qed.

Lemma element_not_empty (x : string) : element x = true -> x <> "".
Proof. intros H E. subst x. discriminate H. Qed.

Lemma rooted_not_empty (p : string) : path.rooted p = true -> p <> "".
Proof. intros H E. subst p. discriminate H. Qed.

(** Joining a rooted path with a path element: one element more. *)
Lemma Join_rooted_element (p x : string) :
  path.rooted p = true -> element x = true ->
  path.Join [p; x] = abs_path (resolve p ++ [x]).
Proof.
  intros R H.
  rewrite path_Join_pair
    by (first [apply rooted_not_empty; assumption
              |apply element_not_empty; assumption]).
  rewrite Clean_rooted by (apply rooted_app; assumption).
  rewrite resolve_app_element by assumption. reflexivity.
Qed.

Lemma resolve_Join_rooted_element (p x : string) :
  path.rooted p = true -> element x = true ->
  resolve (path.Join [p; x]) = (resolve p ++ [x])%list.
Proof.
  intros R H. rewrite Join_rooted_element by assumption.
  apply resolve_abs_path. apply Forall_app. split.
  - apply resolve_elements.
  - repeat constructor. assumption.
Qed.

(** ** Trees *)

Lemma faulty_fault_free (fs : Fs) (o : op) (name : string) :
  fault_free fs = true -> faulty fs o name = false.
Proof.
  unfold fault_free, faulty. destruct (faults fs); [|discriminate].
  intros _. apply bool_decide_eq_false. apply not_elem_of_nil.
Qed.

Lemma lookup_entry_In (es : list (string * node)) (name : string) (c : node) :
  NoDup (map fst es) -> In (name, c) es -> lookup_entry name es = Some c.
Proof.
  induction es as [|[n x] es IH]; intros ND H; [destruct H|].
  simpl in ND. apply NoDup_cons in ND as [Hn ND]. simpl.
  destruct H as [H|H].
  - inversion H; subst. rewrite String.eqb_refl. reflexivity.
  - destruct (String.eqb n name) eqn:E.
    + apply String.eqb_eq in E. subst n. exfalso. apply Hn.
      apply list_elem_of_In. apply (in_map fst) in H. exact H.
    + apply IH; assumption.
Qed.

Lemma lookup_entry_Some_In (es : list (string * node)) (name : string) (c : node) :
  lookup_entry name es = Some c -> In (name, c) es.
Proof.
  induction es as [|[n x] es IH]; simpl; [discriminate|].
  destruct (String.eqb n name) eqn:E.
  - apply String.eqb_eq in E. intros H. inversion H; subst. left. reflexivity.
  - intros H. right. apply IH. exact H.
Qed.

Lemma find_snoc (segs : list string) (x : string) :
  forall (pre : list string) (n : node) (es : list (string * node)),
  find pre segs n = Ok (Dir es) ->
  find pre (segs ++ [x]) n =
    match lookup_entry x es with
    | Some c => Ok c
    | None => Err (ENOENT (rev pre ++ segs ++ [x]))
    end.
Proof.
  induction segs as [|s segs IH]; intros pre n es H; simpl in *.
  - inversion H; subst. destruct (lookup_entry x es); [reflexivity|].
    simpl. rewrite <- app_assoc. reflexivity.
  - destruct n as [d|es0]; [discriminate|].
    destruct (lookup_entry s es0) as [c|]; [|discriminate].
    rewrite (IH _ _ _ H). destruct (lookup_entry x es); [reflexivity|].
    simpl. rewrite <- !app_assoc. reflexivity.
Qed.

(** ** The walk of [GetEnvironments] *)

Lemma element_specFilename : element specFilename = true.
Proof. reflexivity. Qed.

Lemma Forall_element_snoc (segs : list string) (x : string) :
  Forall (fun s => element s = true) segs -> element x = true ->
  Forall (fun s => element s = true) (segs ++ [x]).
Proof. intros H Hx. apply Forall_app. split; [assumption|]. repeat constructor. assumption. Qed.

(** The callback on a node of a fault-free tree: nothing for a file, the
    descriptor's environment for a directory; whatever [Walk] passes as
    file information and error. *)
Lemma walkFn_spec (m : manager) (fs : Fs) (segs : list string) (n : node)
    (f : option node) (err : option error) (acc : list Environment) :
  fault_free fs = true ->
  Forall (fun s => element s = true) segs ->
  find [] segs (Dir (root fs)) = Ok n ->
  walkFn m fs (abs_path segs) f err acc =
    match n with
    | File _ => (None, acc)
    | Dir es =>
        match descriptor m segs es with
        | Ok l => (None, (acc ++ l)%list)
        | Err e => (Some e, acc)
        end
    end.
Proof.
  intros FF Hs Hn. unfold walkFn, IsDir, Stat.
  rewrite faulty_fault_free by assumption.
  rewrite resolve_abs_path by assumption. rewrite Hn.
  destruct n as [d|es]; [reflexivity|]. cbn [is_dir].
  rewrite Join_rooted_element
    by (apply rooted_abs_path || apply element_specFilename).
  rewrite (resolve_abs_path segs) by assumption.
  unfold Exists, ReadFile, Stat.
  rewrite !faulty_fault_free by assumption.
  rewrite resolve_abs_path
    by (apply Forall_element_snoc; [assumption|apply element_specFilename]).
  rewrite (find_snoc _ _ _ _ _ Hn). unfold descriptor.
  destruct (lookup_entry specFilename es) as [[d|es']|]; cbn.
  - fold (nameFor m (abs_path segs)).
    destruct (unmarshalEnvironmentSpec d); reflexivity.
  - reflexivity.
  - rewrite app_nil_r. reflexivity.
Qed.

Lemma Join_abs_path_element (segs : list string) (x : string) :
  Forall (fun s => element s = true) segs -> element x = true ->
  path.Join [abs_path segs; x] = abs_path (segs ++ [x]).
Proof.
  intros Hs Hx. rewrite Join_rooted_element by (apply rooted_abs_path || assumption).
  rewrite resolve_abs_path by assumption. reflexivity.
Qed.

Lemma wf_node_Dir (es : list (string * node)) :
  wf_node (Dir es) = true ->
  NoDup (map fst es)
  /\ Forall (fun e => element (fst e) = true /\ wf_node (snd e) = true) es.
Proof.
  cbn [wf_node]. intros H. apply andb_true_iff in H as [ND H].
  apply bool_decide_eq_true in ND. split; [exact ND|].
  apply Forall_forall. intros e He.
  rewrite forallb_forall in H. apply list_elem_of_In in He.
  specialize (H e He). apply andb_true_iff in H. exact H.
Qed.

Lemma for_each_cons {A S} (body : A -> S -> option error * S)
    (x : A) (l : list A) (st : S) :
  for_each body (x :: l) st =
    match body x st with
    | (Some err, st1) => (Some err, st1)
    | (None, st1) => for_each body l st1
    end.
Proof. reflexivity. Qed.

Lemma concat_results_cons {A B} (f : A -> result (list B)) (x : A) (l : list A) :
  concat_results f (x :: l) =
    rbind (f x) (fun here =>
      rbind (concat_results f l) (fun rest => Ok (here ++ rest)%list)).
Proof. reflexivity. Qed.

(** On a fault-free, well-formed tree the walk from the node at [segs]
    gathers exactly [envs_below], or stops with its error. *)
Lemma walk_spec (m : manager) (fs : Fs) :
  fault_free fs = true ->
  forall (n : node) (segs : list string) (acc : list Environment),
  wf_node n = true ->
  Forall (fun s => element s = true) segs ->
  find [] segs (Dir (root fs)) = Ok n ->
  match envs_below m segs n with
  | Ok l => walk fs (abs_path segs) n (walkFn m fs) acc = (None, (acc ++ l)%list)
  | Err e => exists acc', walk fs (abs_path segs) n (walkFn m fs) acc = (Some e, acc')
  end.
Proof.
  intros FF. induction n as [d|es IH] using node_induction;
    intros segs acc WF Hs Hn.
  - cbn. rewrite (walkFn_spec m fs segs (File d)) by assumption.
    rewrite app_nil_r. reflexivity.
  - cbn [walk envs_below].
    rewrite (walkFn_spec m fs segs (Dir es)) by assumption.
    destruct (descriptor m segs es) as [here|e]; cbn [rbind]; [|eauto].
    unfold readDirNames. rewrite faulty_fault_free by assumption.
    apply wf_node_Dir in WF as [ND WF].
    assert (L : forall l acc0,
               (forall e, In e l -> In e es) ->
               match concat_results
                       (fun e => envs_below m (segs ++ [fst e]) (snd e)) l with
               | Ok below =>
                   for_each
                     (fun '(name, child) st =>
                        if faulty fs OpLstat (path.Join [abs_path segs; name])
                        then walkFn m fs (path.Join [abs_path segs; name]) None
                               (Some (EIO OpLstat
                                        (resolve (path.Join [abs_path segs; name]))))
                               st
                        else walk fs (path.Join [abs_path segs; name]) child
                               (walkFn m fs) st)
                     l acc0 = (None, (acc0 ++ below)%list)
               | Err e =>
                   exists acc',
                   for_each
                     (fun '(name, child) st =>
                        if faulty fs OpLstat (path.Join [abs_path segs; name])
                        then walkFn m fs (path.Join [abs_path segs; name]) None
                               (Some (EIO OpLstat
                                        (resolve (path.Join [abs_path segs; name]))))
                               st
                        else walk fs (path.Join [abs_path segs; name]) child
                               (walkFn m fs) st)
                     l acc0 = (Some e, acc')
               end).
    { induction l as [|[name c] l IHl]; intros acc0 Sub.
      - cbn. rewrite app_nil_r. reflexivity.
      - assert (Hin : In (name, c) es) by (apply Sub; left; reflexivity).
        rewrite Forall_forall in IH, WF.
        pose proof (IH _ (proj2 (list_elem_of_In _ _) Hin)) as IHc.
        pose proof (WF _ (proj2 (list_elem_of_In _ _) Hin)) as [He Hc].
        cbn [fst snd] in IHc, He, Hc.
        rewrite for_each_cons, concat_results_cons. cbn [fst snd].
        rewrite Join_abs_path_element by assumption.
        rewrite faulty_fault_free by assumption.
        assert (Hf : find [] (segs ++ [name]) (Dir (root fs)) = Ok c).
        { rewrite (find_snoc _ _ _ _ _ Hn).
          rewrite (lookup_entry_In es name c ND Hin). reflexivity. }
        specialize (IHc (segs ++ [name])%list acc0 Hc
                        (Forall_element_snoc _ _ Hs He) Hf).
        destruct (envs_below m (segs ++ [name]) c) as [l1|e1]; cbn [rbind].
        + rewrite IHc.
          assert (Sub' : forall e, In e l -> In e es)
            by (intros e H; apply Sub; right; exact H).
          specialize (IHl (acc0 ++ l1)%list Sub').
          destruct (concat_results _ l) as [below|e2]; cbn [rbind].
          * rewrite IHl, <- app_assoc. reflexivity.
          * exact IHl.
        + destruct IHc as [acc' IHc]. rewrite IHc. eauto. }
    specialize (L es (acc ++ here)%list (fun e H => H)). cbv zeta.
    destruct (concat_results _ es) as [below|e]; cbn [rbind].
    + rewrite L, <- app_assoc. reflexivity.
    + exact L.
Qed.

Lemma find_wf (segs : list string) :
  forall (pre : list string) (n x : node),
  wf_node n = true -> find pre segs n = Ok x -> wf_node x = true.
Proof.
  induction segs as [|s segs IH]; intros pre n x WF H; simpl in H.
  - inversion H; subst. exact WF.
  - destruct n as [d|es]; [discriminate|].
    destruct (lookup_entry s es) as [c|] eqn:E; [|discriminate].
    apply lookup_entry_Some_In in E.
    apply wf_node_Dir in WF as [_ WF]. rewrite Forall_forall in WF.
    apply list_elem_of_In in E. apply WF in E as [_ Hc].
    eapply IH; [exact Hc|exact H].
Qed.

Lemma valid_root_path (m : manager) :
  valid_root m = true ->
  environmentsDir m = abs_path (resolve (environmentsDir m))
  /\ resolve (environmentsDir m) <> [].
Proof.
  unfold valid_root. intros H.
  apply andb_true_iff in H as [H N]. apply andb_true_iff in H as [_ E].
  apply String.eqb_eq in E. split; [exact E|].
  destruct (resolve (environmentsDir m)); [discriminate|discriminate].
Qed.

(** [GetEnvironments] on a fault-free, well-formed filesystem: the
    environments below the environments directory, or the first error. *)
Lemma GetEnvironments_spec (m : manager) (fs : Fs) :
  fault_free fs = true -> wf_fs fs = true -> valid_root m = true ->
  GetEnvironments m fs =
    match find [] (resolve (environmentsDir m)) (Dir (root fs)) with
    | Err e => (None, Some e)
    | Ok n =>
        match envs_below m (resolve (environmentsDir m)) n with
        | Ok l => (Some l, None)
        | Err e => (None, Some e)
        end
    end.
Proof.
  intros FF WF VR. apply valid_root_path in VR as [E _].
  pose proof (resolve_elements (environmentsDir m)) as Hs.
  unfold GetEnvironments, Walk, Lstat.
  rewrite faulty_fault_free by assumption.
  destruct (find [] (resolve (environmentsDir m)) (Dir (root fs)))
    as [n|e] eqn:Hn.
  - pose proof (walk_spec m fs FF n (resolve (environmentsDir m)) []
                  (find_wf _ _ _ _ WF Hn) Hs Hn) as W.
    rewrite <- E in W.
    destruct (envs_below m (resolve (environmentsDir m)) n) as [l|e].
    + rewrite W. reflexivity.
    + destruct W as [acc' W]. rewrite W. reflexivity.
  - unfold walkFn, IsDir, Stat.
    rewrite faulty_fault_free by assumption. rewrite Hn. reflexivity.
Qed.

(** ** The environments below a node *)

Lemma find_pre_irrelevant (segs : list string) :
  forall (pre pre' : list string) (n x : node),
  find pre segs n = Ok x -> find pre' segs n = Ok x.
Proof.
  induction segs as [|s segs IH]; intros pre pre' n x H; simpl in *; [exact H|].
  destruct n as [d|es]; [discriminate|].
  destruct (lookup_entry s es) as [c|]; [|discriminate].
  eapply IH. exact H.
Qed.

Lemma find_cons (s : string) (segs : list string) (es : list (string * node))
    (x : node) :
  find [] (s :: segs) (Dir es) = Ok x <->
  exists c, lookup_entry s es = Some c /\ find [] segs c = Ok x.
Proof.
  simpl. destruct (lookup_entry s es) as [c|].
  - split.
    + intros H. exists c. split; [reflexivity|].
      eapply find_pre_irrelevant. exact H.
    + intros [c' [E H]]. inversion E; subst.
      eapply find_pre_irrelevant. exact H.
  - split; [discriminate|]. intros [c' [E _]]. discriminate.
Qed.

Lemma concat_results_Ok {A B} (f : A -> result (list B)) (l : list A)
    (r : list B) :
  concat_results f l = Ok r ->
  Forall (fun x => exists lx, f x = Ok lx /\ incl lx r) l
  /\ (forall b, In b r -> exists x lx, In x l /\ f x = Ok lx /\ In b lx).
Proof.
  revert r. induction l as [|x l IH]; intros r H.
  - inversion H; subst. split; [constructor|]. intros b [].
  - rewrite concat_results_cons in H.
    destruct (f x) as [lx|e] eqn:Ex; [|discriminate]. cbn [rbind] in H.
    destruct (concat_results f l) as [rest|e] eqn:El; [|discriminate].
    cbn [rbind] in H. inversion H; subst. clear H.
    destruct (IH rest eq_refl) as [IH1 IH2]. split.
    + constructor.
      * exists lx. split; [exact Ex|]. intros b Hb. apply in_or_app. left. exact Hb.
      * eapply Forall_impl; [exact IH1|]. cbn. intros a [la [Ea Hi]].
        exists la. split; [exact Ea|]. intros b Hb. apply in_or_app. right.
        apply Hi. exact Hb.
    + intros b Hb. apply in_app_or in Hb as [Hb|Hb].
      * exists x, lx. split; [left; reflexivity|]. split; assumption.
      * destruct (IH2 b Hb) as [y [ly [Hy [Ey Hby]]]].
        exists y, ly. split; [right; exact Hy|]. split; assumption.
Qed.

Lemma descriptor_Ok (m : manager) (segs : list string)
    (es : list (string * node)) (here : list Environment) :
  descriptor m segs es = Ok here ->
  (lookup_entry specFilename es = None /\ here = [])
  \/ (exists specFile uri,
        lookup_entry specFilename es = Some (File specFile)
        /\ unmarshalEnvironmentSpec specFile = Ok (mkEnvironmentSpec uri)
        /\ here = [mkEnvironment (abs_path segs) (nameFor m (abs_path segs)) uri]).
Proof.
  unfold descriptor.
  destruct (lookup_entry specFilename es) as [[d|es']|]; [|discriminate|].
  - destruct (unmarshalEnvironmentSpec d) as [[uri]|e] eqn:U; [|discriminate].
    cbn. intros H. inversion H; subst. right. exists d, uri.
    repeat split; first [exact U|reflexivity].
  - intros H. inversion H; subst. left. split; reflexivity.
Qed.

(** Every environment gathered comes from a directory below the node
    that holds a readable descriptor. *)
Lemma envs_below_sound (m : manager) (n : node) :
  forall (segs : list string) (l : list Environment),
  envs_below m segs n = Ok l -> wf_node n = true ->
  forall e, In e l ->
  exists sub es specFile uri,
    find [] sub n = Ok (Dir es)
    /\ lookup_entry specFilename es = Some (File specFile)
    /\ unmarshalEnvironmentSpec specFile = Ok (mkEnvironmentSpec uri)
    /\ e = mkEnvironment (abs_path (segs ++ sub))
             (nameFor m (abs_path (segs ++ sub))) uri.
Proof.
  induction n as [d|es IH] using node_induction; intros segs l H WF e He.
  - inversion H; subst. destruct He.
  - cbn [envs_below] in H.
    destruct (descriptor m segs es) as [here|e0] eqn:D; [|discriminate].
    cbn [rbind] in H.
    destruct (concat_results _ es) as [below|e0] eqn:C; [|discriminate].
    cbn [rbind] in H. inversion H; subst. clear H.
    apply wf_node_Dir in WF as [ND WF].
    apply in_app_or in He as [He|He].
    + apply descriptor_Ok in D as [[_ D]|[d [uri [L [U D]]]]]; subst here.
      * destruct He.
      * destruct He as [He|[]]. subst e.
        exists [], es, d, uri. rewrite app_nil_r. auto.
    + apply concat_results_Ok in C as [_ C].
      destruct (C e He) as [[name c] [lx [Hin [Ex Hex]]]]. cbn [fst snd] in Ex.
      rewrite Forall_forall in IH, WF.
      apply list_elem_of_In in Hin.
      pose proof (WF _ Hin) as [_ Hc]. cbn [snd] in Hc.
      destruct (IH _ Hin _ _ Ex Hc e Hex) as [sub [es' [d [uri [F [L [U E]]]]]]].
      exists (name :: sub), es', d, uri. repeat split; try assumption.
      * apply find_cons. exists c. split; [|exact F].
        apply lookup_entry_In; [exact ND|]. apply list_elem_of_In. exact Hin.
      * rewrite <- app_assoc in E. exact E.
Qed.

(** Every directory below the node has been looked at: when the walk
    succeeds, what its descriptor gives is among the result. *)
Lemma envs_below_complete (m : manager) (n : node) :
  forall (segs : list string) (l : list Environment),
  envs_below m segs n = Ok l -> wf_node n = true ->
  forall sub es, find [] sub n = Ok (Dir es) ->
  exists here, descriptor m (segs ++ sub) es = Ok here /\ incl here l.
Proof.
  induction n as [d|es IH] using node_induction; intros segs l H WF sub es' F.
  - destruct sub; simpl in F; discriminate.
  - cbn [envs_below] in H.
    destruct (descriptor m segs es) as [here|e0] eqn:D; [|discriminate].
    cbn [rbind] in H.
    destruct (concat_results _ es) as [below|e0] eqn:C; [|discriminate].
    cbn [rbind] in H. inversion H; subst. clear H.
    apply wf_node_Dir in WF as [ND WF].
    destruct sub as [|name sub].
    + simpl in F. inversion F; subst. exists here. rewrite app_nil_r.
      split; [exact D|]. intros x Hx. apply in_or_app. left. exact Hx.
    + apply find_cons in F as [c [L F]].
      apply lookup_entry_Some_In in L.
      apply concat_results_Ok in C as [C _].
      rewrite Forall_forall in IH, WF, C.
      apply list_elem_of_In in L.
      destruct (C _ L) as [lx [Ex Hi]]. cbn [fst snd] in Ex.
      pose proof (WF _ L) as [_ Hc]. cbn [snd] in Hc.
      destruct (IH _ L _ _ Ex Hc sub es' F) as [here' [D' Hi']].
      exists here'. rewrite <- app_assoc in D'. split; [exact D'|].
      intros x Hx. apply in_or_app. right. apply Hi, Hi'. exact Hx.
Qed.

Lemma find_elements (sub : list string) :
  forall (pre : list string) (n x : node),
  wf_node n = true -> find pre sub n = Ok x ->
  Forall (fun s => element s = true) sub.
Proof.
  induction sub as [|s sub IH]; intros pre n x WF H; [constructor|].
  simpl in H. destruct n as [d|es]; [discriminate|].
  destruct (lookup_entry s es) as [c|] eqn:E; [|discriminate].
  apply lookup_entry_Some_In in E. apply list_elem_of_In in E.
  apply wf_node_Dir in WF as [_ WF]. rewrite Forall_forall in WF.
  destruct (WF _ E) as [Hs Hc]. constructor; [exact Hs|].
  eapply IH; [exact Hc|exact H].
Qed.

Lemma abs_path_inj (a b : list string) :
  Forall (fun s => element s = true) a ->
  Forall (fun s => element s = true) b ->
  abs_path a = abs_path b -> a = b.
Proof.
  intros Ha Hb E. apply (f_equal resolve) in E.
  rewrite !resolve_abs_path in E by assumption. exact E.
Qed.

(** The path of an environment gathered below [segs] continues [segs]. *)
Lemma envs_below_path (m : manager) (n : node) (segs : list string)
    (l : list Environment) (e : Environment) :
  envs_below m segs n = Ok l -> wf_node n = true -> In e l ->
  exists sub, Forall (fun s => element s = true) sub
              /\ Path e = abs_path (segs ++ sub).
Proof.
  intros H WF He.
  destruct (envs_below_sound m n segs l H WF e He)
    as [sub [es [d [uri [F [_ [_ E]]]]]]].
  exists sub. split; [eapply find_elements; eassumption|].
  subst e. reflexivity.
Qed.

(** No directory is gathered twice. *)
Lemma envs_below_NoDup (m : manager) (n : node) :
  forall (segs : list string) (l : list Environment),
  envs_below m segs n = Ok l -> wf_node n = true ->
  Forall (fun s => element s = true) segs ->
  NoDup (map Path l).
Proof.
  induction n as [d|es IH] using node_induction; intros segs l H WF Hs.
  - inversion H; subst. constructor.
  - cbn [envs_below] in H.
    destruct (descriptor m segs es) as [here|e0] eqn:D; [|discriminate].
    cbn [rbind] in H.
    destruct (concat_results _ es) as [below|e0] eqn:C; [|discriminate].
    cbn [rbind] in H. inversion H; subst. clear H.
    apply wf_node_Dir in WF as [ND WF].
    assert (B : forall l' below',
               concat_results
                 (fun e => envs_below m (segs ++ [fst e]) (snd e)) l'
               = Ok below' ->
               (forall x, In x l' -> In x es) ->
               NoDup (map fst l') ->
               NoDup (map Path below')
               /\ forall e, In e below' ->
                    exists name sub, In name (map fst l')
                      /\ Forall (fun s => element s = true) (name :: sub)
                      /\ Path e = abs_path (segs ++ name :: sub)).
    { induction l' as [|[name c] l' IHl]; intros below' C' Sub ND'.
      - inversion C'; subst. split; [constructor|]. intros e [].
      - rewrite concat_results_cons in C'. cbn [fst snd] in C'.
        destruct (envs_below m (segs ++ [name]) c) as [lx|e0] eqn:Ex;
          [|discriminate].
        cbn [rbind] in C'.
        destruct (concat_results _ l') as [rest|e0] eqn:C''; [|discriminate].
        cbn [rbind] in C'. inversion C'; subst. clear C'.
        assert (Hin : In (name, c) es) by (apply Sub; left; reflexivity).
        apply list_elem_of_In in Hin.
        rewrite Forall_forall in IH, WF.
        pose proof (WF _ Hin) as [Hname Hc]. cbn [fst snd] in Hname, Hc.
        pose proof (IH _ Hin _ _ Ex Hc (Forall_element_snoc _ _ Hs Hname))
          as NDx.
        cbn [map] in ND'. apply NoDup_cons in ND' as [Hfresh ND'].
        destruct (IHl rest eq_refl
                    (fun x H => Sub x (or_intror H)) ND') as [NDr Hr].
        assert (Hx : forall e, In e lx ->
                   exists sub, Forall (fun s => element s = true) (name :: sub)
                               /\ Path e = abs_path (segs ++ name :: sub)).
        { intros e He.
          destruct (envs_below_path m c _ _ e Ex Hc He) as [sub [Hsub P]].
          exists sub. split; [constructor; assumption|].
          rewrite <- app_assoc in P. exact P. }
        split.
        + rewrite map_app. apply NoDup_app. split; [exact NDx|].
          split; [|exact NDr].
          intros p Hp Hp'.
          apply list_elem_of_In, in_map_iff in Hp as [e1 [E1 H1]].
          apply list_elem_of_In, in_map_iff in Hp' as [e2 [E2 H2]].
          destruct (Hx e1 H1) as [s1 [F1 P1]].
          destruct (Hr e2 H2) as [n2 [s2 [Hn2 [F2 P2]]]].
          rewrite <- E1, P1, <- E2, P2 in *.
          assert (Q : (segs ++ name :: s1)%list = (segs ++ n2 :: s2)%list).
          { apply abs_path_inj; [| |congruence];
              apply Forall_app; split; assumption. }
          apply app_inv_head in Q. inversion Q; subst.
          apply Hfresh. apply list_elem_of_In. exact Hn2.
        + intros e He. apply in_app_or in He as [He|He].
          * destruct (Hx e He) as [sub [F P]].
            exists name, sub. split; [left; reflexivity|]. split; assumption.
          * destruct (Hr e He) as [n2 [s2 [Hn2 [F2 P2]]]].
            exists n2, s2. split; [right; exact Hn2|]. split; assumption. }
    destruct (B es below C (fun x H => H) ND) as [NDb Hb].
    rewrite map_app. apply NoDup_app. split; [|split; [|exact NDb]].
    + apply descriptor_Ok in D as [[_ D]|[d [uri [_ [_ D]]]]]; subst here.
      * constructor.
      * apply NoDup_singleton.
    + intros p Hp Hp'.
      apply list_elem_of_In, in_map_iff in Hp' as [e2 [E2 H2]].
      destruct (Hb e2 H2) as [n2 [s2 [_ [F2 P2]]]].
      apply descriptor_Ok in D as [[_ D]|[d [uri [_ [_ D]]]]]; subst here.
      * apply list_elem_of_In in Hp. destruct Hp.
      * apply list_elem_of_In in Hp. destruct Hp as [Hp|[]]. cbn in Hp.
        assert (Q : (segs ++ [])%list = (segs ++ n2 :: s2)%list).
        { apply abs_path_inj.
          - rewrite app_nil_r. assumption.
          - apply Forall_app; split; assumption.
          - rewrite app_nil_r. congruence. }
        apply app_inv_head in Q. discriminate Q.
Qed.

(** ** Names of walked paths *)

Lemma string_app_assoc (a b c : string) : (a ++ b) ++ c = a ++ (b ++ c).
Proof.
  induction a as [|x a IH]; [reflexivity|].
  change (String x ((a ++ b) ++ c) = String x (a ++ (b ++ c))).
  rewrite IH. reflexivity.
Qed.

Lemma Join_cons (x y : string) (l : list string) (sep : string) :
  strings.Join (x :: y :: l) sep = x ++ sep ++ strings.Join (y :: l) sep.
Proof. reflexivity. Qed.

Lemma Join_app (a b : list string) :
  a <> [] -> b <> [] ->
  strings.Join (a ++ b) "/" = strings.Join a "/" ++ String "/" (strings.Join b "/").
Proof.
  intros Ha Hb. induction a as [|x a IH]; [congruence|].
  destruct a as [|y a].
  - destruct b as [|z b]; [congruence|]. reflexivity.
  - change ((x :: y :: a) ++ b)%list with (x :: y :: (a ++ b))%list.
    rewrite !Join_cons.
    change (y :: (a ++ b))%list with ((y :: a) ++ b)%list.
    rewrite IH by discriminate.
    rewrite !string_app_assoc. reflexivity.
Qed.

Lemma HasPrefix_app (p x : string) : strings.HasPrefix (p ++ x) p = true.
Proof.
  induction p as [|c p IH]; [reflexivity|].
  change (Ascii.eqb c c && strings.HasPrefix (p ++ x) p = true).
  rewrite Ascii.eqb_refl. exact IH.
Qed.

Lemma drop_app (p x : string) : strings.drop (String.length p) (p ++ x) = x.
Proof. induction p as [|c p IH]; [destruct x; reflexivity|]. exact IH. Qed.

Lemma TrimPrefix_app (p x : string) : strings.TrimPrefix (p ++ x) p = x.
Proof. unfold strings.TrimPrefix. rewrite HasPrefix_app. apply drop_app. Qed.

Lemma HasPrefix_longer (p x : string) :
  x <> "" -> strings.HasPrefix p (p ++ x) = false.
Proof.
  intros Hx. induction p as [|c p IH].
  - destruct x; [congruence|reflexivity].
  - change (Ascii.eqb c c && strings.HasPrefix p (p ++ x) = false).
    rewrite Ascii.eqb_refl. exact IH.
Qed.

Lemma element_not_rooted (x rest : string) :
  element x = true -> path.rooted (x ++ rest) = false.
Proof.
  destruct x as [|c x]; [discriminate|].
  unfold element. intros H. repeat (apply andb_true_iff in H as [H ?]).
  match goal with H : no_slash _ = true |- _ =>
    cbn in H; apply andb_true_iff in H as [Hc _] end.
  apply negb_true_iff in Hc.
  change (Ascii.eqb "/" c && true = false).
  rewrite Ascii.eqb_sym. rewrite Hc. reflexivity.
Qed.

Lemma Join_head (x : string) (l : list string) :
  exists rest, strings.Join (x :: l) "/" = x ++ rest.
Proof.
  destruct l as [|y l].
  - exists "". induction x as [|c x IH]; [reflexivity|].
    change (String c x = String c (x ++ "")). rewrite <- IH. reflexivity.
  - eexists. rewrite Join_cons. reflexivity.
Qed.

(** A valid name is its own cleaned form. *)
Lemma Clean_relative (sub : list string) :
  sub <> [] -> Forall (fun s => element s = true) sub ->
  path.Clean (strings.Join sub "/") = strings.Join sub "/".
Proof.
  intros N H. destruct sub as [|x sub]; [congruence|].
  assert (R : path.rooted (strings.Join (x :: sub) "/") = false).
  { destruct (Join_head x sub) as [rest E]. rewrite E.
    apply element_not_rooted. inversion H; assumption. }
  assert (NS : Forall (fun s => no_slash s = true) (x :: sub))
    by (eapply Forall_impl; [exact H|intros a; apply element_no_slash]).
  unfold path.Clean. rewrite R.
  rewrite Split_Join by (discriminate || exact NS).
  rewrite fold_clean_elements by assumption.
  rewrite app_nil_r, rev_involutive.
  destruct (Join_head x sub) as [rest E].
  change ("" ++ strings.Join (x :: sub) "/") with (strings.Join (x :: sub) "/").
  rewrite E. inversion H as [|? ? Hx _]; subst.
  destruct x as [|c x]; [discriminate Hx|]. reflexivity.
Qed.

(** The name of a directory below the environments directory: the
    elements after it, joined by slashes. *)
Lemma nameFor_below (m : manager) (sub : list string) :
  valid_root m = true -> sub <> [] ->
  Forall (fun s => element s = true) sub ->
  nameFor m (abs_path (resolve (environmentsDir m) ++ sub))
  = strings.Join sub "/".
Proof.
  intros VR N H. apply valid_root_path in VR as [E NR].
  unfold nameFor. unfold abs_path at 1. rewrite Join_app by assumption.
  fold (abs_path (resolve (environmentsDir m))).
  rewrite E at 2.
  change ("/" ++ strings.Join (resolve (environmentsDir m)) "/"
            ++ String "/" (strings.Join sub "/"))
    with (abs_path (resolve (environmentsDir m))
            ++ String "/" (strings.Join sub "/")).
  replace (abs_path (resolve (environmentsDir m))
             ++ String "/" (strings.Join sub "/"))
    with ((abs_path (resolve (environmentsDir m)) ++ "/")
             ++ strings.Join sub "/")
    by (rewrite string_app_assoc; reflexivity).
  rewrite TrimPrefix_app. apply Clean_relative; assumption.
Qed.

(** The name of the environments directory itself: its own path. *)
Lemma nameFor_root (m : manager) :
  valid_root m = true ->
  nameFor m (environmentsDir m) = environmentsDir m.
Proof.
  intros VR. pose proof VR as VR'. apply valid_root_path in VR' as [E _].
  unfold nameFor, strings.TrimPrefix.
  rewrite HasPrefix_longer by discriminate.
  rewrite Clean_rooted.
  - symmetry. exact E.
  - unfold valid_root in VR. apply andb_true_iff in VR as [VR _].
    apply andb_true_iff in VR as [VR _]. exact VR.
Qed.

(** ** [GetEnvironments] *)

Lemma find_app_Ok (a b : list string) :
  forall (pre : list string) (n x : node),
  find pre (a ++ b) n = Ok x <->
  exists y, find pre a n = Ok y /\ find [] b y = Ok x.
Proof.
  induction a as [|s a IH]; intros pre n x.
  - cbn. split.
    + intros H. exists n. split; [reflexivity|].
      eapply find_pre_irrelevant. exact H.
    + intros [y [E H]]. inversion E; subst.
      eapply find_pre_irrelevant. exact H.
  - cbn. destruct n as [d|es].
    + split; [discriminate|]. intros [y [E _]]. discriminate.
    + destruct (lookup_entry s es) as [c|]; [apply IH|].
      split; [discriminate|]. intros [y [E _]]. discriminate.
Qed.

Lemma GetEnvironments_Ok (m : manager) (fs : Fs) (envs : list Environment) :
  fault_free fs = true -> wf_fs fs = true -> valid_root m = true ->
  GetEnvironments m fs = (Some envs, None) ->
  exists n, find [] (resolve (environmentsDir m)) (Dir (root fs)) = Ok n
            /\ wf_node n = true
            /\ envs_below m (resolve (environmentsDir m)) n = Ok envs.
Proof.
  intros FF WF VR H. rewrite GetEnvironments_spec in H by assumption.
  destruct (find [] (resolve (environmentsDir m)) (Dir (root fs)))
    as [n|e] eqn:F; [|discriminate].
  exists n. split; [reflexivity|]. split; [eapply find_wf; eassumption|].
  destruct (envs_below m (resolve (environmentsDir m)) n); [|discriminate].
  inversion H; subst. reflexivity.
Qed.

(** What is returned comes from a directory with a descriptor. *)
Lemma listed_sound (m : manager) (fs : Fs) (envs : list Environment) :
  fault_free fs = true -> wf_fs fs = true -> valid_root m = true ->
  GetEnvironments m fs = (Some envs, None) ->
  forall e, In e envs ->
  exists sub es specFile,
    directory_at m fs sub es
    /\ lookup_entry specFilename es = Some (File specFile)
    /\ unmarshalEnvironmentSpec specFile = Ok (mkEnvironmentSpec (URI e))
    /\ Path e = abs_path (resolve (environmentsDir m) ++ sub)
    /\ Name e = nameFor m (Path e)
    /\ Forall (fun s => element s = true) sub.
Proof.
  intros FF WF VR H e He.
  destruct (GetEnvironments_Ok m fs envs FF WF VR H) as [n [F [WFn B]]].
  destruct (envs_below_sound m n _ _ B WFn e He)
    as [sub [es [d [uri [Fs' [L [U E]]]]]]].
  exists sub, es, d. subst e. cbn [Path Name URI].
  repeat split; try assumption; try reflexivity.
  - apply find_app_Ok. exists n. split; assumption.
  - eapply find_elements; eassumption.
Qed.

(** Every directory with a descriptor is returned. *)
Lemma listed_complete (m : manager) (fs : Fs) (envs : list Environment) :
  fault_free fs = true -> wf_fs fs = true -> valid_root m = true ->
  GetEnvironments m fs = (Some envs, None) ->
  forall sub es, directory_at m fs sub es -> has_descriptor es ->
  exists specFile uri,
    lookup_entry specFilename es = Some (File specFile)
    /\ unmarshalEnvironmentSpec specFile = Ok (mkEnvironmentSpec uri)
    /\ In (mkEnvironment (abs_path (resolve (environmentsDir m) ++ sub))
             (nameFor m (abs_path (resolve (environmentsDir m) ++ sub))) uri)
          envs.
Proof.
  intros FF WF VR H sub es D HD.
  destruct (GetEnvironments_Ok m fs envs FF WF VR H) as [n [F [WFn B]]].
  apply find_app_Ok in D as [y [Fy D]].
  rewrite F in Fy. inversion Fy; subst y.
  destruct (envs_below_complete m n _ _ B WFn sub es D) as [here [De Hi]].
  apply descriptor_Ok in De as [[L _]|[d [uri [L [U E]]]]].
  - contradiction.
  - subst here. exists d, uri. repeat split; try assumption.
    apply Hi. left. reflexivity.
Qed.

(** The directory a listed path names. *)
Lemma directory_at_inj (m : manager) (fs : Fs) (sub sub' : list string)
    (es es' : list (string * node)) :
  wf_fs fs = true ->
  directory_at m fs sub es -> directory_at m fs sub' es' ->
  abs_path (resolve (environmentsDir m) ++ sub)
    = abs_path (resolve (environmentsDir m) ++ sub') ->
  sub = sub' /\ es = es'.
Proof.
  intros WF D D' P.
  assert (Q : (resolve (environmentsDir m) ++ sub)%list
              = (resolve (environmentsDir m) ++ sub')%list).
  { apply abs_path_inj; [| |exact P];
      eapply find_elements; try eassumption; exact WF. }
  unfold directory_at in D, D'. rewrite Q in D. rewrite D in D'.
  inversion D'; subst. apply app_inv_head in Q. split; [exact Q|reflexivity].
Qed.

(** C6: on a well-formed filesystem without failures, what
    [GetEnvironments] returns holds an environment for a directory below
    the environments directory if and only if that directory contains a
    descriptor file; its name is the path from the environments
    directory. So of [a], [a/b] and [a/b/c] only the one with the
    descriptor is reported, and directories without one are walked
    through. *)
Theorem GetEnvironments_descriptor_directories (m : manager) (fs : Fs)
    (envs : list Environment) :
  fault_free fs = true -> wf_fs fs = true -> valid_root m = true ->
  GetEnvironments m fs = (Some envs, None) ->
  emits_descriptor_directories m fs envs.
Proof.
  intros FF WF VR H.
  assert (Sound : forall e, In e envs ->
            exists sub es,
              directory_at m fs sub es /\ has_descriptor es
              /\ Path e = abs_path (resolve (environmentsDir m) ++ sub)
              /\ (sub <> [] -> Name e = strings.Join sub "/")).
  { intros e He.
    destruct (listed_sound m fs envs FF WF VR H e He)
      as [sub [es [d [D [L [_ [P [N Hsub]]]]]]]].
    exists sub, es. split; [exact D|]. split; [|split; [exact P|]].
    - unfold has_descriptor. rewrite L. discriminate.
    - intros NE. rewrite N, P. apply nameFor_below; assumption. }
  split; [exact Sound|]. split.
  - intros sub es D HD.
    destruct (listed_complete m fs envs FF WF VR H sub es D HD)
      as [d [uri [_ [_ Hin]]]].
    eexists. split; [exact Hin|reflexivity].
  - intros sub es D HD e He P.
    destruct (Sound e He) as [sub' [es' [D' [HD' [P' _]]]]].
    destruct (directory_at_inj m fs sub' sub es' es WF D' D) as [_ E];
      [congruence|].
    subst es'. contradiction.
Qed.

Lemma GetEnvironments_descriptor_directories_witness :
  emits_descriptor_directories Samples.m0 Samples.fs_abc
    [mkEnvironment "/app/environments/a/b/c" "a/b/c" "https://10.0.0.1:6443"].
Proof.
  apply (GetEnvironments_descriptor_directories Samples.m0 Samples.fs_abc);
    vm_compute; reflexivity.
Defined.

(** [GetEnvironments] returns the slice or the error, never both. *)
Lemma GetEnvironments_slice_or_error (m : manager) (fs : Fs) :
  (exists envs, GetEnvironments m fs = (Some envs, None))
  \/ (exists err, GetEnvironments m fs = (None, Some err)).
Proof.
  unfold GetEnvironments.
  destruct (Walk fs (environmentsDir m) (walkFn m fs) []) as [[err|] envs];
    eauto.
Qed.

(** C7: an error met during the walk is not always returned. With [a/b]
    and [a/c] on disk and the directory [a] not listable, [Walk] reports
    the failure of reading [a] to the callback, which overwrites it
    unread: [GetEnvironments] returns no error and an empty slice, where
    it returns both environments once [a] can be listed. *)
Theorem GetEnvironments_drops_walk_error :
  readDirNames Samples.fs_unlistable "/app/environments/a"
    = Some (EIO OpReadDir ["app"; "environments"; "a"])
  /\ GetEnvironments Samples.m0 Samples.fs_unlistable = (Some [], None)
  /\ GetEnvironments Samples.m0 Samples.fs_ab_ac
     = (Some [mkEnvironment "/app/environments/a/b" "a/b" "https://b:6443";
              mkEnvironment "/app/environments/a/c" "a/c" "https://c:6443"],
        None).
Proof. repeat split; vm_compute; reflexivity. Qed.

(** The environments directory with a descriptor directly in it is
    returned as an environment. *)
Lemma root_listed_counterexample :
  Exists Samples.fs_root_spec "/app/environments/spec.json" = Ok true
  /\ GetEnvironments Samples.m0 Samples.fs_root_spec
     = (Some [mkEnvironment "/app/environments" "/app/environments"
                "https://root:6443"], None).
Proof. split; vm_compute; reflexivity. Qed.

(** C5: the environments directory itself is returned by
    [GetEnvironments] exactly when a descriptor file lies directly in
    it, under its own path as the name; and no [DeleteEnvironment]
    removes it, or anything else. *)
Theorem root_listed_iff_descriptor_never_removed (m : manager) (fs : Fs)
    (envs : list Environment) (es : list (string * node)) :
  fault_free fs = true -> wf_fs fs = true -> valid_root m = true ->
  GetEnvironments m fs = (Some envs, None) ->
  directory_at m fs [] es ->
  ((exists e, In e envs /\ Path e = environmentsDir m) <-> has_descriptor es)
  /\ (forall e, In e envs -> Path e = environmentsDir m ->
                Name e = environmentsDir m)
  /\ (forall name, snd (DeleteEnvironment m name fs) = fs).
Proof.
  intros FF WF VR H D.
  pose proof (valid_root_path m VR) as [E _].
  assert (P0 : abs_path (resolve (environmentsDir m) ++ []) = environmentsDir m)
    by (rewrite app_nil_r; symmetry; exact E).
  split; [split|split].
  - intros [e [He P]].
    destruct (listed_sound m fs envs FF WF VR H e He)
      as [sub0 [es0 [d0 [D0 [L0 [_ [P' _]]]]]]].
    destruct (directory_at_inj m fs sub0 [] es0 es WF D0 D) as [_ Ees];
      [congruence|].
    subst es0. unfold has_descriptor. rewrite L0. discriminate.
  - intros HD.
    destruct (listed_complete m fs envs FF WF VR H [] es D HD)
      as [d [uri [_ [_ Hin]]]].
    eexists. split; [exact Hin|]. exact P0.
  - intros e He P.
    destruct (listed_sound m fs envs FF WF VR H e He)
      as [sub [es' [d [_ [_ [_ [_ [N _]]]]]]]].
    rewrite N, P. apply nameFor_root. exact VR.
  - intros name. apply DeleteEnvironment_fs_unchanged.
Qed.

Lemma root_listed_iff_descriptor_never_removed_witness :
  ((exists e,
      In e [mkEnvironment "/app/environments" "/app/environments"
              "https://root:6443"]
      /\ Path e = environmentsDir Samples.m0)
   <-> has_descriptor
         [("swagger.json", File "{}"); ("k8s.libsonnet", File "LIBB");
          ("k.libsonnet", File "LIBA");
          ("spec.json",
           File (String "{" (String json.LF ("  " ++ json.quote "uri" ++ ": "
                   ++ json.quote "https://root:6443"
                   ++ String json.LF "}"))))])
  /\ (forall e,
        In e [mkEnvironment "/app/environments" "/app/environments"
                "https://root:6443"] ->
        Path e = environmentsDir Samples.m0 ->
        Name e = environmentsDir Samples.m0)
  /\ (forall name,
        snd (DeleteEnvironment Samples.m0 name Samples.fs_root_spec)
        = Samples.fs_root_spec).
Proof.
  apply (root_listed_iff_descriptor_never_removed Samples.m0
           Samples.fs_root_spec);
    vm_compute; reflexivity.
Defined.
Lemma Join_rooted (p x : string) :
  path.rooted p = true -> path.rooted (path.Join [p; x]) = true.
Proof.
  intros R. pose proof (rooted_not_empty p R) as Np. unfold path.Join.
  rewrite filter_cons_True by assumption.
  destruct (decide (x = "")) as [E|N].
  - subst x. rewrite filter_cons_False by (intros H; apply H; reflexivity).
    cbn [filter list_filter strings.Join]. rewrite Clean_rooted by assumption.
    reflexivity.
  - rewrite filter_cons_True by assumption.
    change (filter (fun e : string => e <> "") []) with (@nil string).
    change (strings.Join [p; x] "/") with (p ++ String "/" x).
    rewrite Clean_rooted by (apply rooted_app; assumption). reflexivity.
Qed.

Lemma written_files_create_calls (m : manager) (name : string) :
  path.rooted (environmentsDir m) = true ->
  written_files (create_calls m name)
  = [schemaFilename; k8sLibFilename; extensionsLibFilename; specFilename].
Proof.
  intros R. unfold create_calls, appendToAbsPath.
  pose proof (Join_rooted _ name R) as R'.
  set (envPath := path.Join [environmentsDir m; name]) in *.
  rewrite !(resolve_Join_rooted_element envPath) by (exact R' || reflexivity).
  cbn [written_files omap list_omap]. rewrite !last_snoc. reflexivity.
Qed.

(** Every run of [CreateEnvironment] is a [create_run]. *)
Lemma CreateEnvironment_run (m : manager) (name uri : string)
    (spec : ClusterSpec) (extensionsLibData k8sLibData : string) (fs : Fs) :
  create_run m name uri spec extensionsLibData k8sLibData fs
    (CreateEnvironment m name uri spec extensionsLibData k8sLibData fs).
Proof.
  unfold CreateEnvironment.
  set (envPath := appendToAbsPath (environmentsDir m) [name]).
  destruct (MkdirAll envPath fs) as [[e|] fs1] eqn:E1;
    pose proof (MkdirAll_calls _ _ _ _ E1) as C1.
  { apply (run_stopped _ _ _ _ _ _ _ 1); [lia|exact C1]. }
  destruct (data spec) as [specData|e] eqn:ED.
  2:{ apply (run_stopped _ _ _ _ _ _ _ 1); [lia|exact C1]. }
  destruct (WriteFile (appendToAbsPath envPath [schemaFilename]) specData fs1)
    as [[e|] fs2] eqn:E2; pose proof (WriteFile_calls _ _ _ _ _ E2) as C2;
    rewrite C1, <- app_assoc in C2.
  { apply (run_stopped _ _ _ _ _ _ _ 2); [lia|exact C2]. }
  destruct (WriteFile (appendToAbsPath envPath [k8sLibFilename]) k8sLibData fs2)
    as [[e|] fs3] eqn:E3; pose proof (WriteFile_calls _ _ _ _ _ E3) as C3;
    rewrite C2, <- app_assoc in C3.
  { apply (run_stopped _ _ _ _ _ _ _ 3); [lia|exact C3]. }
  destruct (WriteFile (appendToAbsPath envPath [extensionsLibFilename])
              extensionsLibData fs3)
    as [[e|] fs4] eqn:E4; pose proof (WriteFile_calls _ _ _ _ _ E4) as C4;
    rewrite C3, <- app_assoc in C4.
  { apply (run_stopped _ _ _ _ _ _ _ 4); [lia|exact C4]. }
  destruct (generateSpecData uri) as [envSpecData|e] eqn:EG.
  2:{ apply (run_stopped _ _ _ _ _ _ _ 4); [lia|exact C4]. }
  eapply run_descriptor; eauto.
Qed.

(** The calls of a run: the first [n] of the complete run's five. *)
Lemma CreateEnvironment_calls (m : manager) (name uri : string)
    (spec : ClusterSpec) (extensionsLibData k8sLibData : string) (fs : Fs) :
  exists n, 1 <= n <= 5
    /\ calls (snd (CreateEnvironment m name uri spec extensionsLibData
                     k8sLibData fs))
       = (calls fs ++ take n (create_calls m name))%list.
Proof.
  destruct (CreateEnvironment_run m name uri spec extensionsLibData
              k8sLibData fs)
    as [n err fs' Hn C|specData envSpecData fs1 fs2 fs3 fs4 envPath
                         H1 HD H2 H3 H4 HG C].
  - exists n. split; [lia|exact C].
  - exists 5. split; [lia|].
    destruct (WriteFile (appendToAbsPath envPath [specFilename]) envSpecData fs4)
      as [r fs5] eqn:E5.
    pose proof (WriteFile_calls _ _ _ _ _ E5) as C5. cbn [snd].
    rewrite C5, C, <- app_assoc. reflexivity.
Qed.

(** The second file written is k8s.libsonnet, not k.libsonnet; and
    where the environment exists already, a run that fails on its
    third write leaves a descriptor on disk, the one that was there. *)
Lemma create_order_counterexample :
  written_files (calls Samples.fs_dev)
    = [schemaFilename; k8sLibFilename; extensionsLibFilename; specFilename]
  /\ written_files (calls Samples.fs_dev)
     <> [schemaFilename; extensionsLibFilename; k8sLibFilename; specFilename]
  /\ (let '(err, fs') :=
        CreateEnvironment Samples.m0 "dev" "https://10.0.0.2:6443"
          Samples.spec0 "LIBA" "LIBB" Samples.fs_dev_k_fails in
      err = Some (EIO OpWriteFile
                    ["app"; "environments"; "dev"; "k.libsonnet"])
      /\ descriptor_of Samples.m0 "dev" fs'
         = descriptor_of Samples.m0 "dev" Samples.fs_dev
      /\ descriptor_of Samples.m0 "dev" fs' <> None).
Proof.
  split; [|split]; vm_compute; [reflexivity|discriminate|].
  repeat split; try reflexivity. discriminate.
Qed.

(** ** UTF-8 *)

Ltac euclid := zify; Z.to_euclidean_division_equations; lia.

Lemma chr_byte (c : ascii) : utf8.chr (utf8.byte c) = c.
Proof. apply ascii_N_embedding. Qed.

Lemma byte_bound (c : ascii) : (utf8.byte c < 256)%N.
Proof. apply N_ascii_bounded. Qed.

Lemma between_spec (lo hi b : N) :
  utf8.between lo hi b = true <-> (lo <= b <= hi)%N.
Proof.
  unfold utf8.between. rewrite andb_true_iff, !N.leb_le. reflexivity.
Qed.

Lemma between_false (lo hi b : N) :
  utf8.between lo hi b = false <-> (b < lo \/ hi < b)%N.
Proof.
  unfold utf8.between. rewrite andb_false_iff, !N.leb_gt. reflexivity.
Qed.

(** The leading bytes, their lengths and the ranges of the second byte. *)
Lemma lead_spec (b0 : N) (sz : nat) (lo hi : N) :
  utf8.lead b0 = Some (sz, lo, hi) ->
  (0x80 <= lo /\ hi <= 0xBF)%N
  /\ ((sz = 2%nat /\ 0xC2 <= b0 <= 0xDF)
      \/ (sz = 3%nat /\ 0xE0 <= b0 <= 0xEF
          /\ (b0 = 0xE0 -> lo = 0xA0) /\ (b0 = 0xED -> hi = 0x9F))
      \/ (sz = 4%nat /\ 0xF0 <= b0 <= 0xF4
          /\ (b0 = 0xF0 -> lo = 0x90) /\ (b0 = 0xF4 -> hi = 0x8F)))%N.
Proof.
  unfold utf8.lead.
  repeat match goal with
         | |- context [utf8.between ?l ?h b0] =>
             let E := fresh "E" in
             destruct (utf8.between l h b0) eqn:E;
             [apply between_spec in E|apply between_false in E]
         | |- context [(b0 =? ?k)%N] =>
             let E := fresh "E" in
             destruct (N.eqb_spec b0 k) as [E|E]
         end;
    intros H; inversion H; subst; clear H; lia.
Qed.

(** A rune that [DecodeRune] accepts is encoded by [EncodeRune] as the
    bytes it was decoded from, and only those bytes were looked at. *)
Lemma DecodeRune_spec (s : string) (r : N) (size : nat) :
  s <> "" ->
  utf8.DecodeRune s = (r, size) ->
  (r =? utf8.RuneError)%N && (size =? 1)%nat = false ->
  exists chunk rest,
    s = chunk ++ rest
    /\ String.length chunk = size
    /\ (0 < size)%nat
    /\ utf8.EncodeRune r = chunk
    /\ (forall t, utf8.DecodeRune (chunk ++ t) = (r, size))
    /\ (forall c0 s1, s = String c0 s1 -> (0x80 <= utf8.byte c0)%N ->
         all_high chunk = true).
Proof.
  destruct s as [|c0 s1]; [congruence|]. intros _.
  pose proof (byte_bound c0) as Hb0.
  unfold utf8.DecodeRune.
  destruct (N.ltb_spec (utf8.byte c0) 0x80) as [A|A].
  { intros E _. inversion E; subst r size. clear E.
    exists (String c0 ""), s1. repeat split; [lia| | |].
    - unfold utf8.EncodeRune.
      replace (utf8.byte c0 <=? 0x7F)%N with true
        by (symmetry; apply N.leb_le; lia).
      rewrite chr_byte. reflexivity.
    - intros t. change (String c0 "" ++ t) with (String c0 t).
      unfold utf8.DecodeRune.
      replace (utf8.byte c0 <? 0x80)%N with true
        by (symmetry; apply N.ltb_lt; lia).
      reflexivity.
    - intros c s E. inversion E; subst. lia. }
  assert (Hi : forall c lo hi, utf8.between lo hi (utf8.byte c) = true ->
                 (0x80 <= lo)%N -> (0x80 <=? utf8.byte c)%N = true).
  { intros c l h B Hl. apply between_spec in B. apply N.leb_le. lia. }
  assert (H0 : (0x80 <=? utf8.byte c0)%N = true) by (apply N.leb_le; lia).
  assert (A' : (utf8.byte c0 <? 0x80)%N = false) by (apply N.ltb_ge; lia).
  destruct (utf8.lead (utf8.byte c0)) as [[[sz lo] hi]|] eqn:L.
  2:{ intros E N. inversion E; subst. discriminate N. }
  destruct (lead_spec _ _ _ _ L) as [[Hlo Hhi] Hsz].
  destruct s1 as [|c1 s2].
  { intros E N. inversion E; subst. discriminate N. }
  pose proof (byte_bound c1) as Hb1.
  destruct (utf8.between lo hi (utf8.byte c1)) eqn:B1; cbn [negb].
  2:{ intros E N. inversion E; subst. discriminate N. }
  pose proof (proj1 (between_spec _ _ _) B1) as R1.
  destruct Hsz as [[Es R0]|[[Es [R0 [Ha Hb]]]|[Es [R0 [Ha Hb]]]]]; subst sz;
    cbn [Nat.leb].
  - (* two bytes *)
    intros E _. inversion E; subst r size. clear E.
    exists (String c0 (String c1 "")), s2. repeat split; [lia| | |].
    + unfold utf8.EncodeRune, utf8.cont.
      replace (_ <=? 0x7F)%N with false by (symmetry; apply N.leb_gt; euclid).
      replace (_ <=? 0x7FF)%N with true by (symmetry; apply N.leb_le; euclid).
      replace (0xC0 + _ / 64)%N with (utf8.byte c0) by euclid.
      replace (0x80 + (_ / 1) mod 64)%N with (utf8.byte c1) by euclid.
      rewrite !chr_byte. reflexivity.
    + intros t. change (String c0 (String c1 "") ++ t)
        with (String c0 (String c1 t)).
      unfold utf8.DecodeRune. rewrite A', L, B1. reflexivity.
    + intros _ _ _ _. unfold all_high. cbn [list_ascii_of_string forallb].
      rewrite H0, (Hi c1 lo hi B1 Hlo). reflexivity.
  - (* three bytes *)
    destruct s2 as [|c2 s3].
    { intros E N. inversion E; subst. discriminate N. }
    pose proof (byte_bound c2) as Hb2.
    destruct (utf8.between 0x80 0xBF (utf8.byte c2)) eqn:B2; cbn [negb].
    2:{ intros E N. inversion E; subst. discriminate N. }
    pose proof (proj1 (between_spec _ _ _) B2) as R2.
    intros E _. inversion E; subst r size. clear E.
    exists (String c0 (String c1 (String c2 ""))), s3.
    repeat split; [lia| | |].
    + assert (M0 : (utf8.byte c0 mod 16 = utf8.byte c0 - 0xE0)%N) by euclid.
      assert (M1 : (utf8.byte c1 mod 64 = utf8.byte c1 - 0x80)%N) by euclid.
      assert (M2 : (utf8.byte c2 mod 64 = utf8.byte c2 - 0x80)%N) by euclid.
      rewrite M0, M1, M2. clear M0 M1 M2.
      set (r := ((utf8.byte c0 - 0xE0) * 4096 + (utf8.byte c1 - 0x80) * 64
                 + (utf8.byte c2 - 0x80))%N).
      assert (Er : (r = (utf8.byte c0 - 0xE0) * 4096
                        + (utf8.byte c1 - 0x80) * 64
                        + (utf8.byte c2 - 0x80))%N) by reflexivity.
      clearbody r.
      assert (Low : (0x800 <= r)%N) by lia.
      assert (High : (r <= 0xFFFF)%N) by lia.
      assert (NS : (r < 0xD800 \/ 0xDFFF < r)%N) by lia.
      unfold utf8.EncodeRune, utf8.cont, utf8.MaxRune.
      replace (r <=? 0x7F)%N with false by (symmetry; apply N.leb_gt; lia).
      replace (r <=? 0x7FF)%N with false by (symmetry; apply N.leb_gt; lia).
      replace (0x10FFFF <? r)%N with false by (symmetry; apply N.ltb_ge; lia).
      replace (utf8.between 0xD800 0xDFFF r) with false
        by (symmetry; apply between_false; lia).
      cbn [orb].
      replace (r <=? 0xFFFF)%N with true by (symmetry; apply N.leb_le; lia).
      replace (0xE0 + r / 4096)%N with (utf8.byte c0) by euclid.
      replace (0x80 + (r / 64) mod 64)%N with (utf8.byte c1) by euclid.
      replace (0x80 + (r / 1) mod 64)%N with (utf8.byte c2) by euclid.
      rewrite !chr_byte. reflexivity.
    + intros t. change (String c0 (String c1 (String c2 "")) ++ t)
        with (String c0 (String c1 (String c2 t))).
      unfold utf8.DecodeRune. rewrite A', L, B1, B2. reflexivity.
    + intros _ _ _ _. unfold all_high. cbn [list_ascii_of_string forallb].
      rewrite H0, (Hi c1 lo hi B1 Hlo), (Hi c2 _ _ B2 (N.le_refl _)).
      reflexivity.
  - (* four bytes *)
    destruct s2 as [|c2 s3].
    { intros E N. inversion E; subst. discriminate N. }
    pose proof (byte_bound c2) as Hb2.
    destruct (utf8.between 0x80 0xBF (utf8.byte c2)) eqn:B2; cbn [negb].
    2:{ intros E N. inversion E; subst. discriminate N. }
    pose proof (proj1 (between_spec _ _ _) B2) as R2.
    destruct s3 as [|c3 s4].
    { intros E N. inversion E; subst. discriminate N. }
    pose proof (byte_bound c3) as Hb3.
    destruct (utf8.between 0x80 0xBF (utf8.byte c3)) eqn:B3; cbn [negb].
    2:{ intros E N. inversion E; subst. discriminate N. }
    pose proof (proj1 (between_spec _ _ _) B3) as R3.
    intros E _. inversion E; subst r size. clear E.
    exists (String c0 (String c1 (String c2 (String c3 "")))), s4.
    repeat split; [lia| | |].
    + assert (M0 : (utf8.byte c0 mod 8 = utf8.byte c0 - 0xF0)%N) by euclid.
      assert (M1 : (utf8.byte c1 mod 64 = utf8.byte c1 - 0x80)%N) by euclid.
      assert (M2 : (utf8.byte c2 mod 64 = utf8.byte c2 - 0x80)%N) by euclid.
      assert (M3 : (utf8.byte c3 mod 64 = utf8.byte c3 - 0x80)%N) by euclid.
      rewrite M0, M1, M2, M3. clear M0 M1 M2 M3.
      set (r := ((utf8.byte c0 - 0xF0) * 262144
                 + (utf8.byte c1 - 0x80) * 4096
                 + (utf8.byte c2 - 0x80) * 64 + (utf8.byte c3 - 0x80))%N).
      assert (Er : (r = (utf8.byte c0 - 0xF0) * 262144
                        + (utf8.byte c1 - 0x80) * 4096
                        + (utf8.byte c2 - 0x80) * 64
                        + (utf8.byte c3 - 0x80))%N) by reflexivity.
      clearbody r.
      assert (Low : (0x10000 <= r)%N) by lia.
      assert (High : (r <= 0x10FFFF)%N) by lia.
      unfold utf8.EncodeRune, utf8.cont, utf8.MaxRune.
      replace (r <=? 0x7F)%N with false by (symmetry; apply N.leb_gt; lia).
      replace (r <=? 0x7FF)%N with false by (symmetry; apply N.leb_gt; lia).
      replace (0x10FFFF <? r)%N with false by (symmetry; apply N.ltb_ge; lia).
      replace (utf8.between 0xD800 0xDFFF r) with false
        by (symmetry; apply between_false; lia).
      cbn [orb].
      replace (r <=? 0xFFFF)%N with false by (symmetry; apply N.leb_gt; lia).
      replace (0xF0 + r / 262144)%N with (utf8.byte c0) by euclid.
      replace (0x80 + (r / 4096) mod 64)%N with (utf8.byte c1) by euclid.
      replace (0x80 + (r / 64) mod 64)%N with (utf8.byte c2) by euclid.
      replace (0x80 + (r / 1) mod 64)%N with (utf8.byte c3) by euclid.
      rewrite !chr_byte. reflexivity.
    + intros t.
      change (String c0 (String c1 (String c2 (String c3 ""))) ++ t)
        with (String c0 (String c1 (String c2 (String c3 t)))).
      unfold utf8.DecodeRune. rewrite A', L, B1, B2, B3. reflexivity.
    + intros _ _ _ _. unfold all_high. cbn [list_ascii_of_string forallb].
      rewrite H0, (Hi c1 lo hi B1 Hlo), (Hi c2 _ _ B2 (N.le_refl _)),
        (Hi c3 _ _ B3 (N.le_refl _)).
      reflexivity.
Qed.

(** ** The JSON string literal of a string *)

Lemma eqb_byte (c d : ascii) :
  Ascii.eqb c d = (utf8.byte c =? utf8.byte d)%N.
Proof.
  destruct (Ascii.eqb_spec c d) as [E|E].
  - subst. symmetry. apply N.eqb_refl.
  - symmetry. apply N.eqb_neq. intros H. apply E.
    rewrite <- (chr_byte c), <- (chr_byte d), H. reflexivity.
Qed.

(** The scanner over an ordinary byte of a literal. *)
Lemma scan_plain (c : ascii) (x lit rest : string) :
  Ascii.eqb c json.dquote = false -> Ascii.eqb c json.backslash = false ->
  (utf8.byte c <? 0x20)%N = false ->
  json.scan_string json.InString x = Some (lit, rest) ->
  json.scan_string json.InString (String c x) = Some (String c lit, rest).
Proof.
  intros Q B L Hx. cbn [json.scan_string]. rewrite Q, B, L, Hx. reflexivity.
Qed.

(** The scanner over a two-byte escape. *)
Lemma scan_escape (e : ascii) (x lit rest : string) :
  existsb (Ascii.eqb e)
    [json.dquote; json.backslash; "/"; "b"; "f"; "n"; "r"; "t"]%char = true ->
  json.scan_string json.InString x = Some (lit, rest) ->
  json.scan_string json.InString (String json.backslash (String e x))
  = Some (String json.backslash (String e lit), rest).
Proof.
  intros E Hx. cbn [json.scan_string].
  change (Ascii.eqb json.backslash json.dquote) with false.
  change (Ascii.eqb json.backslash json.backslash) with true.
  cbv iota. rewrite E, Hx. reflexivity.
Qed.

(** The scanner over a [\u] escape of four hexadecimal digits. *)
Lemma scan_escape_u (h1 h2 h3 h4 : ascii) (x lit rest : string) :
  is_Some (json.hexval h1) -> is_Some (json.hexval h2) ->
  is_Some (json.hexval h3) -> is_Some (json.hexval h4) ->
  json.scan_string json.InString x = Some (lit, rest) ->
  json.scan_string json.InString
    (String json.backslash
       (String "u" (String h1 (String h2 (String h3 (String h4 x))))))
  = Some (String json.backslash
            (String "u" (String h1 (String h2 (String h3 (String h4 lit))))),
          rest).
Proof.
  intros [v1 H1] [v2 H2] [v3 H3] [v4 H4] Hx. cbn [json.scan_string].
  change (Ascii.eqb json.backslash json.dquote) with false.
  change (Ascii.eqb json.backslash json.backslash) with true.
  change (existsb (Ascii.eqb "u")
            [json.dquote; json.backslash; "/"; "b"; "f"; "n"; "r"; "t"]%char)
    with false.
  change (Ascii.eqb "u" "u") with true.
  cbv iota. rewrite H1, H2, H3, H4, Hx. reflexivity.
Qed.

Ltac scan_chunk Hx :=
  first [apply scan_escape; [reflexivity|exact Hx]
        |apply scan_escape_u;
         [eexists; reflexivity|eexists; reflexivity|eexists; reflexivity
         |eexists; reflexivity|exact Hx]].

Lemma htmlSafe_spec (b : N) :
  json.htmlSafe b = true ->
  (0x20 <= b /\ b <> 34 /\ b <> 92 /\ b <> 60 /\ b <> 62 /\ b <> 38)%N.
Proof.
  unfold json.htmlSafe. rewrite !andb_true_iff, !negb_true_iff, !N.eqb_neq.
  rewrite N.leb_le. tauto.
Qed.

(** An ASCII byte that is written as it is. *)
Lemma safe_chunk (c : ascii) :
  (utf8.byte c <? 0x80)%N = true -> json.htmlSafe (utf8.byte c) = true ->
  scans (String c "") /\ unquotes (String c "") (String c "").
Proof.
  intros A S. apply htmlSafe_spec in S.
  assert (Q : Ascii.eqb c json.dquote = false)
    by (rewrite eqb_byte; apply N.eqb_neq; cbn; lia).
  assert (B : Ascii.eqb c json.backslash = false)
    by (rewrite eqb_byte; apply N.eqb_neq; cbn; lia).
  assert (L : (utf8.byte c <? 0x20)%N = false) by (apply N.ltb_ge; lia).
  split.
  - intros x lit rest Hx. apply scan_plain; assumption.
  - intros fuel x. change (String c "" ++ x) with (String c x).
    cbn [json.unquote_loop]. rewrite B, Q, L, A. reflexivity.
Qed.

(** An ASCII byte that is escaped: a control character or one of the
    five bytes outside [htmlSafeSet]. *)
Lemma escaped_chunk (c : ascii) :
  (utf8.byte c <? 0x80)%N = true -> json.htmlSafe (utf8.byte c) = false ->
  scans (json.escape (utf8.byte c))
  /\ unquotes (json.escape (utf8.byte c)) (String c "").
Proof.
  destruct c as [[] [] [] [] [] [] [] []]; intros A S;
    try discriminate A; try discriminate S;
    (split; [intros x lit rest Hx;
             match goal with
             | |- context [json.escape ?b] =>
                 let e := eval vm_compute in (json.escape b) in
                 change (json.escape b) with e
             end;
             match goal with
             | |- json.scan_string _ (?e ++ x) = Some (?e ++ lit, rest) =>
                 let ex := eval cbv [String.append] in (e ++ x) in
                 let el := eval cbv [String.append] in (e ++ lit) in
                 change (json.scan_string json.InString ex = Some (el, rest))
             end;
             scan_chunk Hx
            |intros fuel x; reflexivity]).
Qed.

(** An ASCII byte, as it is or escaped, is read back as itself. *)
Lemma ascii_chunk (c : ascii) :
  (utf8.byte c <? 0x80)%N = true ->
  let enc := if json.htmlSafe (utf8.byte c) then String c ""
             else json.escape (utf8.byte c) in
  scans enc /\ unquotes enc (String c "").
Proof.
  intros A. destruct (json.htmlSafe (utf8.byte c)) eqn:S; cbv zeta.
  - apply safe_chunk; assumption.
  - apply escaped_chunk; assumption.
Qed.

Lemma high_byte (c : ascii) :
  (0x80 <=? utf8.byte c)%N = true ->
  Ascii.eqb c json.dquote = false /\ Ascii.eqb c json.backslash = false
  /\ (utf8.byte c <? 0x20)%N = false /\ (utf8.byte c <? 0x80)%N = false.
Proof.
  intros H. apply N.leb_le in H. rewrite !eqb_byte.
  repeat split; first [apply N.eqb_neq; cbn; lia|apply N.ltb_ge; lia].
Qed.

(** The scanner passes over bytes outside ASCII. *)
Lemma high_chunk_scans (chunk : string) : all_high chunk = true -> scans chunk.
Proof.
  unfold all_high. induction chunk as [|c chunk IH]; intros H x lit rest Hx.
  - exact Hx.
  - cbn [list_ascii_of_string forallb] in H.
    apply andb_true_iff in H as [Hc H].
    destruct (high_byte c Hc) as [Q [B [L _]]].
    change (String c chunk ++ x) with (String c (chunk ++ x)).
    change (String c chunk ++ lit) with (String c (chunk ++ lit)).
    apply scan_plain; try assumption. apply IH; assumption.
Qed.

Lemma length_app_string (a b : string) :
  String.length (a ++ b) = String.length a + String.length b.
Proof.
  induction a as [|c a IH]; [reflexivity|].
  change (S (String.length (a ++ b)) = S (String.length a + String.length b)).
  rewrite IH. reflexivity.
Qed.

Lemma take_app (p x : string) : strings.take (String.length p) (p ++ x) = p.
Proof.
  induction p as [|c p IH]; [destruct x; reflexivity|].
  change (String c (strings.take (String.length p) (p ++ x)) = String c p).
  rewrite IH. reflexivity.
Qed.

(** A rune written as its own bytes is read back as those bytes. *)
Lemma rune_chunk_unquotes (chunk : string) (r : N) :
  chunk <> "" -> all_high chunk = true ->
  (forall t, utf8.DecodeRune (chunk ++ t) = (r, String.length chunk)) ->
  utf8.EncodeRune r = chunk ->
  unquotes chunk chunk.
Proof.
  intros N H D E fuel x. destruct chunk as [|c chunk]; [congruence|].
  unfold all_high in H. cbn [list_ascii_of_string forallb] in H.
  apply andb_true_iff in H as [Hc _].
  destruct (high_byte c Hc) as [Q [B [L A]]].
  specialize (D x).
  change (String c chunk ++ x) with (String c (chunk ++ x)) in *.
  cbn [json.unquote_loop]. rewrite B, Q, L, A. cbn [orb].
  rewrite D, E.
  change (String c (chunk ++ x)) with (String c chunk ++ x).
  rewrite drop_app. reflexivity.
Qed.

(** U+2028 and U+2029, written as escapes, are read back as their
    bytes. *)
Lemma separator_chunk (r : N) :
  (r = 0x2028 \/ r = 0x2029)%N ->
  let enc := String json.backslash
               ("u202" ++ String (json.hex (r mod 16)) "") in
  scans enc /\ unquotes enc (utf8.EncodeRune r).
Proof.
  intros [E|E]; subst r; cbv zeta;
    (split; [intros x lit rest Hx; apply scan_escape_u;
             [eexists; reflexivity|eexists; reflexivity|eexists; reflexivity
             |eexists; reflexivity|exact Hx]
            |intros fuel x; reflexivity]).
Qed.

Lemma quote_loop_S (n : nat) (c : ascii) (s1 : string) :
  json.quote_loop (S n) (String c s1) =
    if (utf8.byte c <? 0x80)%N then
      (if json.htmlSafe (utf8.byte c) then String c ""
       else json.escape (utf8.byte c)) ++ json.quote_loop n s1
    else
      let '(r, size) := utf8.DecodeRune (String c s1) in
      if (r =? utf8.RuneError)%N && (size =? 1)%nat then
        String json.backslash "ufffd" ++ json.quote_loop n s1
      else if (r =? 0x2028)%N || (r =? 0x2029)%N then
        String json.backslash ("u202" ++ String (json.hex (r mod 16)) "")
          ++ json.quote_loop n (strings.drop size (String c s1))
      else
        strings.take size (String c s1)
          ++ json.quote_loop n (strings.drop size (String c s1)).
Proof. reflexivity. Qed.

Lemma valid_loop_S (n : nat) (c : ascii) (s1 : string) :
  utf8.valid_loop (S n) (String c s1) =
    let '(r, size) := utf8.DecodeRune (String c s1) in
    if (r =? utf8.RuneError)%N && (size =? 1)%nat then false
    else utf8.valid_loop n (strings.drop size (String c s1)).
Proof. reflexivity. Qed.

Lemma unquotes_nonempty (enc dec : string) :
  unquotes enc dec -> dec <> "" -> 0 < String.length enc.
Proof.
  intros U N. destruct enc as [|c enc]; [|apply Nat.lt_0_succ].
  specialize (U 0 ""). cbn in U. destruct dec; [congruence|discriminate U].
Qed.

Lemma string_app_nil_r (s : string) : s ++ "" = s.
Proof.
  induction s as [|c s IH]; [reflexivity|].
  change (String c (s ++ "") = String c s). rewrite IH. reflexivity.
Qed.

(** One round of the encoder's loop on valid UTF-8: the bytes of one
    rune, [dec], are written as [enc], which the scanner passes over and
    the decoder turns back into [dec]. *)
Lemma quote_step (n : nat) (c : ascii) (s1 : string) :
  utf8.valid_loop (S n) (String c s1) = true ->
  exists enc dec rest0,
    String c s1 = dec ++ rest0
    /\ dec <> ""
    /\ utf8.valid_loop n rest0 = true
    /\ json.quote_loop (S n) (String c s1) = enc ++ json.quote_loop n rest0
    /\ scans enc /\ unquotes enc dec.
Proof.
  rewrite valid_loop_S, quote_loop_S.
  destruct (utf8.byte c <? 0x80)%N eqn:A.
  - assert (D : utf8.DecodeRune (String c s1) = (utf8.byte c, 1))
      by (unfold utf8.DecodeRune; rewrite A; reflexivity).
    rewrite D. destruct (_ && _); [discriminate|].
    change (strings.drop 1 (String c s1)) with s1. intros V.
    destruct (ascii_chunk c A) as [Sc Un].
    eexists _, (String c ""), s1. repeat split; try eassumption.
    discriminate.
  - destruct (utf8.DecodeRune (String c s1)) as [r size] eqn:D.
    destruct ((r =? utf8.RuneError)%N && (size =? 1)%nat) eqn:T;
      [discriminate|].
    intros V.
    destruct (DecodeRune_spec (String c s1) r size ltac:(discriminate) D T)
      as [chunk [rest0 [E [Len [Pos [Enc [Dt Hh]]]]]]].
    assert (Hc : all_high chunk = true)
      by (apply (Hh c s1 eq_refl); apply N.ltb_ge in A; exact A).
    assert (Nc : chunk <> "")
      by (intros Z; rewrite Z in Len; cbn in Len; lia).
    rewrite E in V |- *. subst size.
    rewrite drop_app in V |- *. rewrite take_app.
    destruct ((r =? 0x2028)%N || (r =? 0x2029)%N) eqn:Sep.
    + assert (Hr : (r = 0x2028 \/ r = 0x2029)%N).
      { apply orb_true_iff in Sep as [S|S]; apply N.eqb_eq in S; auto. }
      destruct (separator_chunk r Hr) as [Sc Un]. rewrite Enc in Un.
      eexists _, chunk, rest0. repeat split; try eassumption.
    + exists chunk, chunk, rest0. repeat split; try assumption.
      * apply high_chunk_scans. exact Hc.
      * apply (rune_chunk_unquotes chunk r); assumption.
Qed.

(** The string literal written for valid UTF-8 is scanned to its closing
    quote and unquoted to the string it was written for. *)
Lemma quote_loop_roundtrip (n : nat) :
  forall uri, utf8.valid_loop n uri = true ->
  scans (json.quote_loop n uri)
  /\ exists k, k <= String.length (json.quote_loop n uri)
       /\ forall fuel, k <= fuel ->
            json.unquote_loop fuel (json.quote_loop n uri) = Some uri.
Proof.
  induction n as [|n IH]; intros uri V.
  - destruct uri as [|c s1]; [|discriminate V]. split.
    + intros x lit rest Hx. exact Hx.
    + exists 0. split; [apply Nat.le_0_l|].
      intros fuel _. destruct fuel; reflexivity.
  - destruct uri as [|c s1].
    + split.
      * intros x lit rest Hx. exact Hx.
      * exists 0. split; [apply Nat.le_0_l|].
        intros fuel _. destruct fuel; reflexivity.
    + destruct (quote_step n c s1 V)
        as [enc [dec [rest0 [E [Nd [V' [Q [Sc Un]]]]]]]].
      destruct (IH rest0 V') as [Sc' [k [Hk Un']]].
      rewrite Q, E. split.
      * intros x lit rest Hx. rewrite !string_app_assoc.
        apply Sc. apply Sc'. exact Hx.
      * exists (S k). split.
        { rewrite length_app_string.
          pose proof (unquotes_nonempty enc dec Un Nd). lia. }
        intros fuel Hf. destruct fuel as [|fuel]; [lia|].
        rewrite Un, Un' by lia. reflexivity.
Qed.

Lemma unquote_loop_cons (fuel : nat) (c : ascii) (s1 : string) :
  Ascii.eqb c json.backslash = false ->
  json.unquote_loop (S fuel) (String c s1) =
    if Ascii.eqb c json.dquote || (utf8.byte c <? 0x20)%N then None
    else if (utf8.byte c <? 0x80)%N then
      option_map (String c) (json.unquote_loop fuel s1)
    else
      let '(rr, size) := utf8.DecodeRune (String c s1) in
      option_map (String.append (utf8.EncodeRune rr))
        (json.unquote_loop fuel (strings.drop size (String c s1))).
Proof. intros B. cbn [json.unquote_loop]. rewrite B. reflexivity. Qed.

(** A literal with nothing to replace is unquoted to itself by the
    copying loop as well. *)
Lemma plain_unquote_loop (fuel : nat) :
  forall s, json.plain fuel s = true -> json.unquote_loop fuel s = Some s.
Proof.
  induction fuel as [|fuel IH]; intros [|c s1] P; try reflexivity;
    try discriminate P.
  cbn [json.plain] in P.
  destruct (Ascii.eqb c json.backslash) eqn:B; [discriminate P|].
  rewrite unquote_loop_cons by exact B.
  destruct (Ascii.eqb c json.dquote) eqn:Q; [discriminate P|].
  destruct (utf8.byte c <? 0x20)%N eqn:L; [discriminate P|].
  cbn [orb] in P |- *.
  destruct (utf8.byte c <? 0x80)%N eqn:A.
  - rewrite (IH s1 P). reflexivity.
  - destruct (utf8.DecodeRune (String c s1)) as [rr size] eqn:D.
    destruct ((rr =? utf8.RuneError)%N && (size =? 1)%nat) eqn:T;
      [discriminate P|].
    destruct (DecodeRune_spec (String c s1) rr size ltac:(discriminate) D T)
      as [chunk [rest0 [E [Len [_ [Enc _]]]]]].
    rewrite (IH _ P). cbn [option_map]. rewrite Enc.
    rewrite E at 1. subst size. rewrite drop_app. symmetry in E.
    rewrite E. reflexivity.
Qed.

Lemma unquote_quote_loop (n : nat) (uri : string) :
  utf8.valid_loop n uri = true ->
  json.unquote (json.quote_loop n uri) = Some uri.
Proof.
  intros V. destruct (quote_loop_roundtrip n uri V) as [_ [k [Hk U]]].
  unfold json.unquote.
  destruct (json.plain _ _) eqn:P.
  - apply plain_unquote_loop in P. rewrite (U _ Hk) in P. symmetry. exact P.
  - apply U. exact Hk.
Qed.

Lemma string_literal_quote (n : nat) (uri rest : string) :
  utf8.valid_loop n uri = true ->
  json.string_literal (json.quote_loop n uri ++ String json.dquote rest)
  = Some (uri, rest).
Proof.
  intros V. destruct (quote_loop_roundtrip n uri V) as [Sc _].
  unfold json.string_literal.
  rewrite (Sc (String json.dquote rest) "" rest) by reflexivity.
  rewrite string_app_nil_r, (unquote_quote_loop n uri V). reflexivity.
Qed.

(** ** The descriptor document *)

Lemma parse_value_string (fuel : nat) (x : string) :
  json.parse_value (S fuel) (String json.dquote x)
  = option_map (fun '(x, r) => (json.JString x, r)) (json.string_literal x).
Proof. reflexivity. Qed.

Lemma parse_value_object (fuel : nat) (x : string) :
  json.parse_value (S fuel)
    (String "{" (String json.LF (String " " (String " "
       (String json.dquote x)))))
  = option_map (fun '(ms, r) => (json.JObject ms, r))
      (json.parse_members (json.parse_value fuel)
         (S (String.length x)) (String json.dquote x)).
Proof. reflexivity. Qed.

Lemma parse_members_last (pv : string -> option (json.value * string))
    (n : nat) (x key y : string) (v : json.value) :
  json.string_literal x
    = Some (key, String ":" (String " " (String json.dquote y))) ->
  pv (String json.dquote y) = Some (v, String json.LF "}") ->
  json.parse_members pv (S n) (String json.dquote x) = Some ([(key, v)], "").
Proof.
  intros Hk Hv. cbn [json.parse_members].
  change (Ascii.eqb json.dquote json.dquote) with true. cbv iota.
  rewrite Hk.
  change (json.skip_ws (String ":" (String " " (String json.dquote y))))
    with (String ":" (String " " (String json.dquote y))).
  cbv iota.
  change (json.skip_ws (String " " (String json.dquote y)))
    with (String json.dquote y).
  rewrite Hv. reflexivity.
Qed.

(** The document [MarshalIndent] writes, by its literal text. *)
Lemma parse_one_member (key val lit_k lit_v : string) :
  (forall rest, json.string_literal (lit_k ++ String json.dquote rest)
                = Some (key, rest)) ->
  (forall rest, json.string_literal (lit_v ++ String json.dquote rest)
                = Some (val, rest)) ->
  forall fuel,
  let value_text :=
    String json.dquote (lit_v ++ String json.dquote (String json.LF "}")) in
  let member_text :=
    String json.dquote
      (lit_k ++ String json.dquote (String ":" (String " " value_text))) in
  json.parse_value (S (S fuel))
    (String "{" (String json.LF (String " " (String " " member_text))))
  = Some (json.JObject [(key, json.JString val)], "").
Proof.
  intros Hk Hv fuel. cbv zeta.
  rewrite parse_value_object.
  erewrite parse_members_last.
  - reflexivity.
  - apply Hk.
  - rewrite parse_value_string, Hv. reflexivity.
Qed.

(** What [MarshalIndent] writes for a struct with the one string field
    [name], in valid UTF-8 as its value, [Unmarshal] reads back. *)
Lemma Unmarshal_MarshalIndent (name value cur : string) :
  utf8.ValidString name = true -> utf8.ValidString value = true ->
  json.selects name name = true ->
  exists data,
    json.MarshalIndent name value "  " = Ok data
    /\ json.parse data = Some (json.JObject [(name, json.JString value)])
    /\ json.Unmarshal data name cur = Ok value.
Proof.
  intros Vn Vv Sel. eexists. split; [reflexivity|].
  set (lit_k := json.quote_loop (String.length name) name).
  set (lit_v := json.quote_loop (String.length value) value).
  assert (E : "{" ++ String json.LF
                ("  " ++ json.quote name ++ ": " ++ json.quote value
                   ++ String json.LF "}")
              = String "{" (String json.LF (String " " (String " "
                  (String json.dquote
                     (lit_k ++ String json.dquote (String ":" (String " "
                        (String json.dquote
                           (lit_v ++ String json.dquote
                              (String json.LF "}"))))))))))).
  { unfold json.quote. fold lit_k. fold lit_v.
    change ("{" ++ String json.LF
              ("  " ++ String json.dquote (lit_k ++ String json.dquote "")
                 ++ ": " ++ String json.dquote (lit_v ++ String json.dquote "")
                 ++ String json.LF "}"))
      with (String "{" (String json.LF (String " " (String " "
              (String json.dquote
                 ((lit_k ++ String json.dquote "")
                    ++ String ":" (String " "
                         (String json.dquote
                            ((lit_v ++ String json.dquote "")
                               ++ String json.LF "}"))))))))).
    rewrite !string_app_assoc. reflexivity. }
  rewrite E. clear E.
  assert (P : json.parse
                (String "{" (String json.LF (String " " (String " "
                   (String json.dquote
                      (lit_k ++ String json.dquote (String ":" (String " "
                         (String json.dquote
                            (lit_v ++ String json.dquote
                               (String json.LF "}")))))))))))
              = Some (json.JObject [(name, json.JString value)])).
  { unfold json.parse.
    change (json.skip_ws (String "{" ?x)) with (String "{" x).
    cbn [String.length].
    rewrite (parse_one_member name value lit_k lit_v).
    - reflexivity.
    - intros rest. apply string_literal_quote. exact Vn.
    - intros rest. apply string_literal_quote. exact Vv. }
  split; [exact P|]. unfold json.Unmarshal. rewrite P.
  cbn [json.object]. rewrite Sel. reflexivity.
Qed.

(** ** The descriptor's round trip *)

Lemma object_uri_members (name : string) (ms : list (string * json.value)) :
  forall cur err,
  json.object name ms cur err
  = json.object name
      (filter (fun kv => json.selects name (fst kv) = true) ms) cur err.
Proof.
  induction ms as [|[key v] ms IH]; intros cur err; [reflexivity|].
  destruct (json.selects name key) eqn:S.
  - rewrite filter_cons_True by exact S.
    cbn [json.object]. rewrite S. destruct v; apply IH.
  - rewrite filter_cons_False by (cbn [fst]; rewrite S; discriminate).
    cbn [json.object]. rewrite S. apply IH.
Qed.

(** A byte that is not UTF-8 comes back as U+FFFD. *)
Lemma descriptor_round_trip_counterexample :
  rbind (generateSpecData Samples.uri_not_utf8) unmarshalEnvironmentSpec
    = Ok (mkEnvironmentSpec (utf8.EncodeRune utf8.RuneError))
  /\ utf8.EncodeRune utf8.RuneError <> Samples.uri_not_utf8.
Proof. split; vm_compute; [reflexivity|discriminate]. Qed.

(** C9: for every uri that is valid UTF-8, the descriptor written by
    [CreateEnvironment] is the two-space-indented object with the one
    key [uri], and decoding it as [GetEnvironments] does gives the same
    uri back; members under other keys are ignored on read. *)
Theorem descriptor_json_round_trip (uri : string) :
  utf8.ValidString uri = true -> descriptor_round_trip uri.
Proof.
  intros V. split.
  - destruct (Unmarshal_MarshalIndent "uri" uri "" eq_refl V eq_refl)
      as [data [M [P U]]].
    exists data. unfold generateSpecData, unmarshalEnvironmentSpec.
    cbn [spec_URI]. unfold EnvironmentSpec_URI_tag.
    rewrite U. repeat split; try assumption.
    unfold json.MarshalIndent in M. inversion M. reflexivity.
  - intros specFile ms P. unfold unmarshalEnvironmentSpec, json.Unmarshal.
    rewrite P. cbn [spec_URI]. unfold uri_members.
    rewrite <- object_uri_members.
    destruct (json.object EnvironmentSpec_URI_tag ms "" None) as [x [e|]];
      reflexivity.
Qed.

Lemma descriptor_json_round_trip_witness :
  descriptor_round_trip Samples.uri_unicode.
Proof.
  apply (descriptor_json_round_trip Samples.uri_unicode). vm_compute.
  reflexivity.
Defined.

(** ** Mutations of the tree *)

Lemma lookup_put_entry_eq (name : string) (x : node) (es : list (string * node)) :
  lookup_entry name (put_entry name x es) = Some x.
Proof.
  induction es as [|[n y] es IH]; cbn.
  - rewrite String.eqb_refl. reflexivity.
  - destruct (String.eqb n name) eqn:E; cbn; rewrite E; [reflexivity|exact IH].
Qed.

Lemma put_entry_names (name : string) (x : node) (es : list (string * node)) :
  map fst (put_entry name x es)
  = match lookup_entry name es with
    | Some _ => map fst es
    | None => (map fst es ++ [name])%list
    end.
Proof.
  induction es as [|[n y] es IH]; cbn; [reflexivity|].
  destruct (String.eqb n name) eqn:E; cbn; [reflexivity|].
  rewrite IH. destruct (lookup_entry name es); reflexivity.
Qed.

Lemma lookup_entry_None (name : string) (es : list (string * node)) :
  lookup_entry name es = None -> ~ In name (map fst es).
Proof.
  induction es as [|[n y] es IH]; cbn; [tauto|].
  destruct (String.eqb n name) eqn:E; [discriminate|].
  apply String.eqb_neq in E. intros H [F|F]; [congruence|]. apply IH; assumption.
Qed.

Lemma put_entry_In (name : string) (x : node) (es : list (string * node))
    (e : string * node) :
  In e (put_entry name x es) -> e = (name, x) \/ In e es.
Proof.
  induction es as [|[n y] es IH]; cbn.
  - intros [H|[]]. left. symmetry. exact H.
  - destruct (String.eqb n name) eqn:E; cbn.
    + apply String.eqb_eq in E. subst n. intros [H|H]; [left|right; right];
        [symmetry|]; exact H.
    + intros [H|H]; [right; left; exact H|].
      destruct (IH H); [left|right; right]; assumption.
Qed.

(** Putting a well-formed node under a path element keeps a directory
    well-formed. *)
Lemma wf_put_entry (name : string) (x : node) (es : list (string * node)) :
  element name = true -> wf_node x = true -> wf_node (Dir es) = true ->
  wf_node (Dir (put_entry name x es)) = true.
Proof.
  intros Hn Hx WF. apply wf_node_Dir in WF as [ND WF].
  cbn [wf_node]. apply andb_true_iff. split.
  - apply bool_decide_eq_true. rewrite put_entry_names.
    destruct (lookup_entry name es) eqn:L; [exact ND|].
    apply NoDup_app. split; [exact ND|]. split; [|apply NoDup_singleton].
    intros s Hs Hs'. apply list_elem_of_In in Hs'. destruct Hs' as [Hs'|[]].
    subst s. apply (lookup_entry_None _ _ L). apply list_elem_of_In. exact Hs.
  - apply forallb_forall. intros e He.
    apply put_entry_In in He as [He|He].
    + subst e. cbn [fst snd]. rewrite Hn, Hx. reflexivity.
    + rewrite Forall_forall in WF. apply list_elem_of_In in He.
      destruct (WF e He) as [H1 H2]. rewrite H1, H2. reflexivity.
Qed.

Lemma wf_lookup_entry (name : string) (es : list (string * node)) (c : node) :
  wf_node (Dir es) = true -> lookup_entry name es = Some c ->
  wf_node c = true.
Proof.
  intros WF L. apply wf_node_Dir in WF as [_ WF].
  apply lookup_entry_Some_In, list_elem_of_In in L.
  rewrite Forall_forall in WF. apply (WF _ L).
Qed.

Lemma mkdir_all_wf (segs : list string) :
  forall (pre : list string) (n n' : node),
  Forall (fun s => element s = true) segs -> wf_node n = true ->
  mkdir_all pre segs n = Ok n' -> wf_node n' = true.
Proof.
  induction segs as [|s segs IH]; intros pre n n' Hs WF H.
  - destruct n; cbn in H; inversion H; subst. exact WF.
  - destruct n as [d|es]; [discriminate H|]. cbn [mkdir_all] in H.
    inversion Hs as [|? ? Hs1 Hs2]; subst.
    destruct (mkdir_all (s :: pre) segs
                match lookup_entry s es with Some c => c | None => Dir [] end)
      as [c'|e] eqn:M; [|discriminate H].
    cbn [rbind] in H. inversion H; subst. clear H.
    apply wf_put_entry; [exact Hs1| |exact WF].
    eapply IH; [exact Hs2| |exact M].
    destruct (lookup_entry s es) eqn:L; [|reflexivity].
    eapply wf_lookup_entry; eassumption.
Qed.

Lemma write_file_wf (segs : list string) (data : string) :
  forall (pre : list string) (n n' : node),
  Forall (fun s => element s = true) segs -> wf_node n = true ->
  write_file pre segs data n = Ok n' -> wf_node n' = true.
Proof.
  induction segs as [|s segs IH]; intros pre n n' Hs WF H; [discriminate H|].
  destruct n as [d|es]; [discriminate H|]. cbn [write_file] in H.
  inversion Hs as [|? ? Hs1 Hs2]; subst.
  destruct segs as [|s' segs].
  - destruct (lookup_entry s es) as [[d|es']|]; try discriminate H;
      inversion H; subst; apply wf_put_entry; auto.
  - destruct (lookup_entry s es) as [c|] eqn:L; [|discriminate H].
    destruct (write_file (s :: pre) (s' :: segs) data c) as [c'|e] eqn:W;
      [|discriminate H].
    cbn [rbind] in H. inversion H; subst. clear H.
    apply wf_put_entry; [exact Hs1| |exact WF].
    eapply IH; [exact Hs2| |exact W]. eapply wf_lookup_entry; eassumption.
Qed.

(** After a successful write the file is found with the data written. *)
Lemma write_file_find (segs : list string) (data : string) :
  forall (pre pre' : list string) (n n' : node),
  write_file pre segs data n = Ok n' ->
  find pre' segs n' = Ok (File data).
Proof.
  induction segs as [|s segs IH]; intros pre pre' n n' H; [discriminate H|].
  destruct n as [d|es]; [discriminate H|]. cbn [write_file] in H.
  destruct segs as [|s' segs].
  - destruct (lookup_entry s es) as [[d|es']|]; try discriminate H;
      inversion H; subst; cbn [find]; rewrite lookup_put_entry_eq; reflexivity.
  - destruct (lookup_entry s es) as [c|] eqn:L; [|discriminate H].
    destruct (write_file (s :: pre) (s' :: segs) data c) as [c'|e] eqn:W;
      [|discriminate H].
    cbn [rbind] in H. inversion H; subst. clear H.
    cbn [find]. rewrite lookup_put_entry_eq. eapply IH. exact W.
Qed.

(** ** [CreateEnvironment], then [GetEnvironments] *)

Lemma mutate_None (o : op) (name : string)
    (f : list string -> node -> result node) (fs fs' : Fs) :
  mutate o name f fs = (None, fs') ->
  f (resolve name) (Dir (root fs)) = Ok (Dir (root fs'))
  /\ faults fs' = faults fs.
Proof.
  unfold mutate. destruct (faulty fs o name); [discriminate|].
  destruct (f (resolve name) (Dir (root fs))) as [[d|es]|e]; try discriminate.
  intros H. inversion H; subst. split; reflexivity.
Qed.

Lemma MkdirAll_None (name : string) (fs fs' : Fs) :
  MkdirAll name fs = (None, fs') ->
  (wf_fs fs = true -> wf_fs fs' = true) /\ faults fs' = faults fs.
Proof.
  intros H. apply mutate_None in H as [M F]. split; [|exact F].
  intros WF. eapply mkdir_all_wf; [apply resolve_elements|exact WF|exact M].
Qed.

Lemma WriteFile_None (name data : string) (fs fs' : Fs) :
  WriteFile name data fs = (None, fs') ->
  (wf_fs fs = true -> wf_fs fs' = true) /\ faults fs' = faults fs
  /\ find [] (resolve name) (Dir (root fs')) = Ok (File data).
Proof.
  intros H. apply mutate_None in H as [M F]. split; [|split; [exact F|]].
  - intros WF. eapply write_file_wf; [apply resolve_elements|exact WF|exact M].
  - eapply write_file_find. exact M.
Qed.

(** A successful [CreateEnvironment] leaves a well-formed, fault-free
    filesystem as it found it, with the descriptor written. *)
Lemma CreateEnvironment_None (m : manager) (name uri : string)
    (spec : ClusterSpec) (extensionsLibData k8sLibData : string)
    (fs fs' : Fs) :
  CreateEnvironment m name uri spec extensionsLibData k8sLibData fs
    = (None, fs') ->
  (wf_fs fs = true -> wf_fs fs' = true)
  /\ faults fs' = faults fs
  /\ exists specFile,
       generateSpecData uri = Ok specFile
       /\ find []
            (resolve (appendToAbsPath
                        (appendToAbsPath (environmentsDir m) [name])
                        [specFilename]))
            (Dir (root fs')) = Ok (File specFile).
Proof.
  intros H.
  pose proof (CreateEnvironment_run m name uri spec extensionsLibData
                k8sLibData fs) as R.
  rewrite H in R. inversion R as [|specData envSpecData fs1 fs2 fs3 fs4 envPath
                                   H1 HD H2 H3 H4 HG C E]; subst.
  apply MkdirAll_None in H1 as [W1 F1].
  apply WriteFile_None in H2 as [W2 [F2 _]].
  apply WriteFile_None in H3 as [W3 [F3 _]].
  apply WriteFile_None in H4 as [W4 [F4 _]].
  apply WriteFile_None in E as [W5 [F5 Fd]].
  split; [intros WF; apply W5, W4, W3, W2, W1, WF|]. split; [congruence|].
  exists envSpecData. split; [exact HG|exact Fd].
Qed.

Lemma Join_Split (s : string) : strings.Join (strings.Split s "/") "/" = s.
Proof.
  induction s as [|c s IH]; [reflexivity|]. cbn [strings.Split].
  pose proof (Split_not_nil s "/") as N.
  destruct (Ascii.eqb_spec c "/") as [E|E].
  - subst c. destruct (strings.Split s "/") as [|h t] eqn:S; [contradiction|].
    rewrite Join_cons, IH. reflexivity.
  - destruct (strings.Split s "/") as [|h t] eqn:S; [contradiction|].
    destruct t as [|h' t].
    + cbn in IH |- *. rewrite IH. reflexivity.
    + rewrite Join_cons in IH |- *.
      change (String c h ++ "/" ++ strings.Join (h' :: t) "/")
        with (String c (h ++ "/" ++ strings.Join (h' :: t) "/")).
      rewrite IH. reflexivity.
Qed.

Lemma valid_name_elements (name : string) :
  valid_name name = true ->
  Forall (fun s => element s = true) (strings.Split name "/")
  /\ strings.Split name "/" <> [].
Proof.
  unfold valid_name. intros H. split; [|apply Split_not_nil].
  apply Forall_forall. intros x Hx. rewrite forallb_forall in H.
  apply H. apply list_elem_of_In. exact Hx.
Qed.

(** The path of a valid name below the environments directory. *)
Lemma resolve_env_path (m : manager) (name : string) :
  valid_root m = true -> valid_name name = true ->
  resolve (appendToAbsPath (appendToAbsPath (environmentsDir m) [name])
             [specFilename])
  = ((resolve (environmentsDir m) ++ strings.Split name "/")
       ++ [specFilename])%list.
Proof.
  intros VR VN. pose proof VR as VR'.
  unfold valid_root in VR'. apply andb_true_iff in VR' as [VR' _].
  apply andb_true_iff in VR' as [R _].
  destruct (valid_name_elements name VN) as [Hs _].
  unfold appendToAbsPath.
  rewrite resolve_Join_rooted_element
    by (apply Join_rooted || apply element_specFilename; exact R).
  f_equal.
  assert (Nn : name <> "") by (intros Z; subst name; discriminate VN).
  rewrite path_Join_pair
    by (first [exact Nn|apply rooted_not_empty; exact R]).
  rewrite Clean_rooted by (apply rooted_app; exact R).
  rewrite resolve_abs_path by apply resolve_elements.
  unfold resolve at 1. rewrite Split_app_sep, fold_left_app.
  rewrite (fold_clean_elements true (strings.Split name "/")) by exact Hs.
  rewrite rev_app_distr, rev_involutive. reflexivity.
Qed.

Lemma valid_name_not_rooted (name : string) :
  valid_name name = true -> path.rooted name = false.
Proof.
  intros VN. destruct (valid_name_elements name VN) as [Hs N].
  rewrite <- (Join_Split name).
  destruct (strings.Split name "/") as [|x l]; [congruence|].
  destruct (Join_head x l) as [rest E]. rewrite E.
  apply element_not_rooted. inversion Hs; assumption.
Qed.





(** ** What a failed [CreateEnvironment] leaves *)

Lemma lookup_put_entry_ne (n name : string) (x : node)
    (es : list (string * node)) :
  n <> name -> lookup_entry n (put_entry name x es) = lookup_entry n es.
Proof.
  intros N. induction es as [|[k y] es IH]; cbn.
  - destruct (String.eqb_spec name n); [congruence|reflexivity].
  - destruct (String.eqb_spec k name) as [E|E]; cbn.
    + subst k. destruct (String.eqb_spec name n); [congruence|reflexivity].
    + destruct (String.eqb k n); [reflexivity|exact IH].
Qed.

Lemma file_at_empty (q : list string) : file_at q (Dir []) = None.
Proof. destruct q; reflexivity. Qed.

(** [MkdirAll] changes no file. *)
Lemma mkdir_all_file_at (p : list string) :
  forall pre n n', mkdir_all pre p n = Ok n' ->
  forall q, file_at q n' = file_at q n.
Proof.
  induction p as [|s p IH]; intros pre n n' H q.
  - destruct n; cbn in H; inversion H; reflexivity.
  - destruct n as [d|es]; [discriminate H|]. cbn [mkdir_all] in H.
    destruct (mkdir_all (s :: pre) p
                match lookup_entry s es with Some c => c | None => Dir [] end)
      as [c'|e] eqn:M; [|discriminate H].
    cbn [rbind] in H. inversion H; subst n'. clear H.
    destruct q as [|t q]; [reflexivity|]. cbn [file_at].
    destruct (String.eqb_spec t s) as [E|E].
    + subst t. rewrite lookup_put_entry_eq.
      rewrite (IH _ _ _ M q).
      destruct (lookup_entry s es); [reflexivity|apply file_at_empty].
    + rewrite lookup_put_entry_ne by exact E. reflexivity.
Qed.

(** [WriteFile] changes no other file. *)
Lemma write_file_file_at (p : list string) (data : string) :
  forall pre n n', write_file pre p data n = Ok n' ->
  forall q, q <> p -> file_at q n' = file_at q n.
Proof.
  induction p as [|s p IH]; intros pre n n' H q Nq; [discriminate H|].
  destruct n as [d|es]; [discriminate H|]. cbn [write_file] in H.
  destruct p as [|s' p].
  - destruct (lookup_entry s es) as [[d|es']|] eqn:L; try discriminate H;
      inversion H; subst n'; clear H;
      (destruct q as [|t q]; [reflexivity|]); cbn [file_at];
      (destruct (String.eqb_spec t s) as [E|E];
       [subst t; rewrite lookup_put_entry_eq, L;
        destruct q; [congruence|reflexivity]
       |rewrite lookup_put_entry_ne by exact E; reflexivity]).
  - destruct (lookup_entry s es) as [c|] eqn:L; [|discriminate H].
    destruct (write_file (s :: pre) (s' :: p) data c) as [c'|e] eqn:W;
      [|discriminate H].
    cbn [rbind] in H. inversion H; subst n'. clear H.
    destruct q as [|t q]; [reflexivity|]. cbn [file_at].
    destruct (String.eqb_spec t s) as [E|E].
    + subst t. rewrite lookup_put_entry_eq, L.
      apply (IH _ _ _ W). congruence.
    + rewrite lookup_put_entry_ne by exact E. reflexivity.
Qed.

(** A mutating call that fails leaves the tree as it was. *)
Lemma mutate_Some (o : op) (name : string)
    (f : list string -> node -> result node) (fs fs' : Fs) (err : error) :
  mutate o name f fs = (Some err, fs') -> root fs' = root fs.
Proof.
  unfold mutate. destruct (faulty fs o name).
  - intros H. inversion H. reflexivity.
  - destruct (f (resolve name) (Dir (root fs))) as [[d|es]|e];
      intros H; inversion H; reflexivity.
Qed.

Lemma MkdirAll_file_at (name : string) (fs fs' : Fs) (r : option error) :
  MkdirAll name fs = (r, fs') ->
  forall q, file_at q (Dir (root fs')) = file_at q (Dir (root fs)).
Proof.
  intros H q. destruct r as [err|].
  - apply mutate_Some in H. rewrite H. reflexivity.
  - apply mutate_None in H as [M _]. eapply mkdir_all_file_at. exact M.
Qed.

Lemma WriteFile_file_at (name data : string) (fs fs' : Fs) (r : option error) :
  WriteFile name data fs = (r, fs') ->
  forall q, q <> resolve name ->
  file_at q (Dir (root fs')) = file_at q (Dir (root fs)).
Proof.
  intros H q N. destruct r as [err|].
  - apply mutate_Some in H. rewrite H. reflexivity.
  - apply mutate_None in H as [M _]. eapply write_file_file_at; eassumption.
Qed.

(** A [CreateEnvironment] that stops before the write of the
    descriptor, after fewer than the five calls of a complete run,
    leaves the descriptor as it was: absent, if it was absent. *)
Lemma CreateEnvironment_stopped (m : manager) (name uri : string)
    (spec : ClusterSpec) (extensionsLibData k8sLibData : string)
    (fs fs' : Fs) (err : error) (n : nat) :
  path.rooted (environmentsDir m) = true ->
  CreateEnvironment m name uri spec extensionsLibData k8sLibData fs
    = (Some err, fs') ->
  n < 5 ->
  calls fs' = (calls fs ++ take n (create_calls m name))%list ->
  descriptor_of m name fs' = descriptor_of m name fs.
Proof.
  intros R H Hn C. revert H. unfold CreateEnvironment, descriptor_of.
  set (envPath := appendToAbsPath (environmentsDir m) [name]).
  assert (Re : path.rooted envPath = true) by (apply Join_rooted; exact R).
  assert (P : forall f, element f = true ->
              resolve (appendToAbsPath envPath [f])
              = (resolve envPath ++ [f])%list)
    by (intros f Hf; apply resolve_Join_rooted_element; assumption).
  assert (N : forall f, element f = true -> f <> specFilename ->
              resolve (appendToAbsPath envPath [specFilename])
              <> resolve (appendToAbsPath envPath [f])).
  { intros f Hf Nf E. rewrite !P in E by (exact Hf || reflexivity).
    apply app_inv_head in E. inversion E. congruence. }
  set (q := resolve (appendToAbsPath envPath [specFilename])) in *.
  destruct (MkdirAll envPath fs) as [r1 fs1] eqn:E1.
  pose proof (MkdirAll_file_at _ _ _ _ E1 q) as Q1.
  pose proof (MkdirAll_calls _ _ _ _ E1) as C1.
  destruct r1 as [e1|]; [intros H; inversion H; subst; exact Q1|].
  destruct (data spec) as [specData|e]; [|intros H; inversion H; subst; exact Q1].
  destruct (WriteFile (appendToAbsPath envPath [schemaFilename]) specData fs1)
    as [r2 fs2] eqn:E2.
  pose proof (WriteFile_file_at _ _ _ _ _ E2 q
                (N schemaFilename eq_refl ltac:(discriminate))) as Q2.
  pose proof (WriteFile_calls _ _ _ _ _ E2) as C2.
  destruct r2 as [e2|]; [intros H; inversion H; subst; congruence|].
  destruct (WriteFile (appendToAbsPath envPath [k8sLibFilename]) k8sLibData fs2)
    as [r3 fs3] eqn:E3.
  pose proof (WriteFile_file_at _ _ _ _ _ E3 q
                (N k8sLibFilename eq_refl ltac:(discriminate))) as Q3.
  pose proof (WriteFile_calls _ _ _ _ _ E3) as C3.
  destruct r3 as [e3|]; [intros H; inversion H; subst; congruence|].
  destruct (WriteFile (appendToAbsPath envPath [extensionsLibFilename])
              extensionsLibData fs3) as [r4 fs4] eqn:E4.
  pose proof (WriteFile_file_at _ _ _ _ _ E4 q
                (N extensionsLibFilename eq_refl ltac:(discriminate))) as Q4.
  pose proof (WriteFile_calls _ _ _ _ _ E4) as C4.
  destruct r4 as [e4|]; [intros H; inversion H; subst; congruence|].
  destruct (generateSpecData uri) as [envSpecData|e];
    [|intros H; inversion H; subst; congruence].
  intros H. exfalso.
  pose proof (WriteFile_calls _ _ _ _ _ H) as C5.
  rewrite C4, C3, C2, C1, <- !app_assoc in C5. rewrite C in C5.
  apply app_inv_head in C5. apply (f_equal length) in C5.
  rewrite length_take in C5. cbn [length app create_calls] in C5. lia.
Qed.

(** C2: the artifacts are written in the order swagger.json,
    k8s.libsonnet, k.libsonnet, spec.json, the descriptor last: every run
    of [CreateEnvironment] either stops with an error after fewer than
    the five calls of a complete run, the write of the descriptor not
    among them, or reaches the write of the descriptor after [MkdirAll]
    and the three earlier writes have all succeeded; and a run that
    stops with an error before the write of the descriptor leaves the
    descriptor as it was, absent if it was absent. *)
Theorem CreateEnvironment_descriptor_last (m : manager) (name uri : string)
    (spec : ClusterSpec) (extensionsLibData k8sLibData : string) (fs : Fs) :
  path.rooted (environmentsDir m) = true ->
  written_files (create_calls m name)
    = [schemaFilename; k8sLibFilename; extensionsLibFilename; specFilename]
  /\ create_run m name uri spec extensionsLibData k8sLibData fs
       (CreateEnvironment m name uri spec extensionsLibData k8sLibData fs)
  /\ (forall err fs' n,
        CreateEnvironment m name uri spec extensionsLibData k8sLibData fs
          = (Some err, fs') ->
        n < 5 ->
        calls fs' = (calls fs ++ take n (create_calls m name))%list ->
        descriptor_of m name fs' = descriptor_of m name fs).
Proof.
  intros R. split; [|split].
  - apply written_files_create_calls. exact R.
  - apply CreateEnvironment_run.
  - intros err fs' n H Hn C. eapply CreateEnvironment_stopped; eassumption.
Qed.

Lemma CreateEnvironment_descriptor_last_witness :
  written_files (create_calls Samples.m0 "dev")
    = [schemaFilename; k8sLibFilename; extensionsLibFilename; specFilename]
  /\ create_run Samples.m0 "dev" "https://10.0.0.1:6443" Samples.spec0
       "LIBA" "LIBB" Samples.fs_k_fails
       (CreateEnvironment Samples.m0 "dev" "https://10.0.0.1:6443"
          Samples.spec0 "LIBA" "LIBB" Samples.fs_k_fails)
  /\ (forall err fs' n,
        CreateEnvironment Samples.m0 "dev" "https://10.0.0.1:6443"
          Samples.spec0 "LIBA" "LIBB" Samples.fs_k_fails = (Some err, fs') ->
        n < 5 ->
        calls fs'
        = (calls Samples.fs_k_fails
             ++ take n (create_calls Samples.m0 "dev"))%list ->
        descriptor_of Samples.m0 "dev" fs'
        = descriptor_of Samples.m0 "dev" Samples.fs_k_fails).
Proof.
  apply (CreateEnvironment_descriptor_last Samples.m0 "dev"). reflexivity.
Defined.

(** A run that fails on its third write, after four calls: the two
    files before it are on disk, the descriptor is not. *)
Example CreateEnvironment_partial :
  let '(err, fs') :=
    CreateEnvironment Samples.m0 "dev" "https://10.0.0.1:6443" Samples.spec0
      "LIBA" "LIBB" Samples.fs_k_fails in
  err = Some (EIO OpWriteFile ["app"; "environments"; "dev"; "k.libsonnet"])
  /\ written_files (calls fs')
     = [schemaFilename; k8sLibFilename; extensionsLibFilename]
  /\ Exists fs' "/app/environments/dev/swagger.json" = Ok true
  /\ Exists fs' "/app/environments/dev/k8s.libsonnet" = Ok true
  /\ descriptor_of Samples.m0 "dev" fs' = None
  /\ GetEnvironments Samples.m0 fs' = (Some [], None).
Proof. vm_compute. repeat split; reflexivity. Qed.

(** * More of the three operations *)

(** ** What [DeleteEnvironment] returns *)

(** X1: [DeleteEnvironment] never returns nil and never changes the
    filesystem: it panics exactly when [GetEnvironments] returns at
    least one environment, whatever the name asked for, and returns an
    error otherwise, that of [GetEnvironments] when it has one. *)
Theorem DeleteEnvironment_never_succeeds (m : manager) (name : string)
    (fs : Fs) :
  fst (DeleteEnvironment m name fs) <> Returned None
  /\ snd (DeleteEnvironment m name fs) = fs
  /\ ((exists msg, fst (DeleteEnvironment m name fs) = Panicked msg)
      <-> exists e envs, GetEnvironments m fs = (Some (e :: envs), None))
  /\ (forall err, GetEnvironments m fs = (None, Some err) ->
      fst (DeleteEnvironment m name fs) = Returned (Some err)).
Proof.
  split; [|split; [apply DeleteEnvironment_fs_unchanged|]];
    rewrite DeleteEnvironment_cases;
    destruct (GetEnvironments_slice_or_error m fs) as [[envs H]|[err H]];
    rewrite H; cbn [range default].
  - destruct envs; cbn [fst]; discriminate.
  - cbn [fst]. discriminate.
  - split.
    + split.
      * destruct envs as [|e envs]; cbn [fst]; intros [msg M];
          [discriminate|eauto].
      * intros [e [envs' E]]. inversion E; subst. cbn [fst]. eauto.
    + intros err E. discriminate.
  - split.
    + split; cbn [fst].
      * intros [msg M]. discriminate.
      * intros [e [envs' E]]. discriminate.
    + intros err' E. inversion E; subst. reflexivity.
Qed.

Lemma DeleteEnvironment_never_succeeds_witness :
  fst (DeleteEnvironment Samples.m0 "dev" (mkFs [] [] []))
  = Returned (Some (ENOENT ["app"; "environments"])).
Proof.
  apply (DeleteEnvironment_never_succeeds Samples.m0 "dev" (mkFs [] [] [])).
  reflexivity.
Defined.

(** ** Edges of [GetEnvironments] *)

(** X2: when [Stat] of the environments directory fails, as it does when
    the directory does not exist, [GetEnvironments] returns that error
    and a nil slice, and [DeleteEnvironment] returns the same error for
    every name. *)
Theorem GetEnvironments_root_unreadable (m : manager) (fs : Fs)
    (err : error) :
  Stat fs (environmentsDir m) = Err err ->
  GetEnvironments m fs = (None, Some err)
  /\ forall name, DeleteEnvironment m name fs = (Returned (Some err), fs).
Proof.
  intros H.
  assert (G : GetEnvironments m fs = (None, Some err)).
  { unfold GetEnvironments, Walk.
    destruct (Lstat fs (environmentsDir m)) as [info|e].
    - destruct info; cbn [walk]; unfold walkFn, IsDir; rewrite H; reflexivity.
    - unfold walkFn, IsDir. rewrite H. reflexivity. }
  split; [exact G|]. intros name.
  rewrite DeleteEnvironment_cases, G. reflexivity.
Qed.

Lemma GetEnvironments_root_unreadable_witness :
  GetEnvironments Samples.m0 (mkFs [] [] [])
  = (None, Some (ENOENT ["app"; "environments"])).
Proof.
  apply (GetEnvironments_root_unreadable Samples.m0 (mkFs [] [] [])).
  reflexivity.
Defined.

(** X3: when the environments directory is a regular file or an empty
    directory, [GetEnvironments] returns the empty slice, not nil, and
    no error. *)
Theorem GetEnvironments_nothing_to_walk (m : manager) (fs : Fs) :
  fault_free fs = true -> path.rooted (environmentsDir m) = true ->
  (exists data,
     find [] (resolve (environmentsDir m)) (Dir (root fs)) = Ok (File data))
  \/ find [] (resolve (environmentsDir m)) (Dir (root fs)) = Ok (Dir []) ->
  GetEnvironments m fs = (Some [], None).
Proof.
  intros FF R H.
  unfold GetEnvironments, Walk, Lstat.
  rewrite faulty_fault_free by assumption.
  destruct H as [[data H]|H]; rewrite H; cbn [walk]; unfold walkFn, IsDir, Stat;
    rewrite faulty_fault_free by assumption; rewrite H; cbn [is_dir].
  - reflexivity.
  - unfold Exists, Stat. rewrite faulty_fault_free by assumption.
    rewrite resolve_Join_rooted_element by (assumption || reflexivity).
    rewrite (find_snoc _ _ _ _ _ H). cbn [lookup_entry os_IsNotExist].
    unfold readDirNames. rewrite faulty_fault_free by assumption.
    reflexivity.
Qed.

Lemma GetEnvironments_nothing_to_walk_witness :
  GetEnvironments Samples.m0 Samples.fs_empty = (Some [], None)
  /\ GetEnvironments Samples.m0
       (mkFs [("app", Dir [("environments", File "x")])] [] [])
     = (Some [], None).
Proof.
  split.
  - apply (GetEnvironments_nothing_to_walk Samples.m0 Samples.fs_empty);
      [reflexivity|reflexivity|right; reflexivity].
  - apply (GetEnvironments_nothing_to_walk Samples.m0);
      [reflexivity|reflexivity|left; exists "x"; reflexivity].
Defined.

(** X4: one descriptor that cannot be read fails the whole listing: on a
    healthy filesystem, when some directory below the environments
    directory holds a [spec.json] that is a directory or does not
    decode, [GetEnvironments] returns an error and a nil slice, whatever
    the other environments are. *)
Theorem GetEnvironments_fails_on_broken_descriptor (m : manager) (fs : Fs)
    (sub : list string) (es : list (string * node)) :
  fault_free fs = true -> wf_fs fs = true -> valid_root m = true ->
  directory_at m fs sub es -> broken_descriptor es ->
  exists err, GetEnvironments m fs = (None, Some err).
Proof.
  intros FF WF VR D B.
  destruct (GetEnvironments_slice_or_error m fs) as [[envs H]|H];
    [exfalso|exact H].
  destruct (GetEnvironments_Ok m fs envs FF WF VR H) as [n [F [WFn E]]].
  apply find_app_Ok in D. destruct D as [y [Fy D]].
  rewrite F in Fy. inversion Fy; subst y.
  destruct (envs_below_complete m n _ _ E WFn sub es D) as [here [Hd _]].
  unfold descriptor in Hd.
  destruct B as [[es' L]|[specFile [err [L U]]]]; rewrite L in Hd.
  - discriminate.
  - rewrite U in Hd. discriminate.
Qed.

Lemma GetEnvironments_fails_on_broken_descriptor_witness :
  exists err, GetEnvironments Samples.m0 fs_broken_dev = (None, Some err).
Proof.
  apply (GetEnvironments_fails_on_broken_descriptor Samples.m0 fs_broken_dev
           ["dev"] [("spec.json", File "not json")]);
    try reflexivity.
  right. exists "not json". eexists. split; [reflexivity|].
  vm_compute. reflexivity.
Defined.

(** ** Names and paths *)

(** The directory of the environment of a valid name. *)
Lemma env_path (m : manager) (name : string) :
  valid_root m = true -> valid_name name = true ->
  appendToAbsPath (environmentsDir m) [name]
  = abs_path (resolve (environmentsDir m) ++ strings.Split name "/").
Proof.
  intros VR VN. pose proof VR as VR'.
  unfold valid_root in VR'. apply andb_true_iff in VR' as [VR' _].
  apply andb_true_iff in VR' as [R _].
  destruct (valid_name_elements name VN) as [Hs _].
  unfold appendToAbsPath.
  assert (Nn : name <> "") by (intros Z; subst name; discriminate VN).
  rewrite path_Join_pair
    by (first [exact Nn|apply rooted_not_empty; exact R]).
  rewrite Clean_rooted by (apply rooted_app; exact R).
  f_equal.
  unfold resolve at 1. rewrite Split_app_sep, fold_left_app.
  rewrite (fold_clean_elements true (strings.Split name "/")) by exact Hs.
  rewrite rev_app_distr, rev_involutive. reflexivity.
Qed.

(** X5: for a valid name, the directory of the environment is the
    environments directory, a slash and the name, and the name that
    [GetEnvironments] derives from that directory is the name again; so
    two valid names of the same directory are equal. *)
Theorem name_path_round_trip (m : manager) (name : string) :
  valid_root m = true -> valid_name name = true ->
  appendToAbsPath (environmentsDir m) [name]
  = environmentsDir m ++ "/" ++ name
  /\ nameFor m (appendToAbsPath (environmentsDir m) [name]) = name
  /\ forall name', valid_name name' = true ->
       appendToAbsPath (environmentsDir m) [name']
       = appendToAbsPath (environmentsDir m) [name] ->
       name' = name.
Proof.
  intros VR VN.
  assert (RT : forall n, valid_name n = true ->
               nameFor m (appendToAbsPath (environmentsDir m) [n]) = n).
  { intros n Vn. destruct (valid_name_elements n Vn) as [Hs Ne].
    rewrite env_path, nameFor_below by assumption. apply Join_Split. }
  split; [|split].
  - destruct (valid_name_elements name VN) as [Hs Ne].
    destruct (valid_root_path m VR) as [E NR].
    rewrite env_path by assumption. unfold abs_path.
    rewrite Join_app by assumption. rewrite Join_Split.
    rewrite E at 2. unfold abs_path.
    rewrite !string_app_assoc. reflexivity.
  - apply RT, VN.
  - intros name' VN' E. rewrite <- (RT name' VN'), E. apply RT, VN.
Qed.

Lemma name_path_round_trip_witness :
  appendToAbsPath "/app/environments" ["us-west/staging"]
  = "/app/environments/us-west/staging"
  /\ nameFor Samples.m0 (appendToAbsPath "/app/environments" ["us-west/staging"])
     = "us-west/staging".
Proof.
  destruct (name_path_round_trip Samples.m0 "us-west/staging") as [A [B _]];
    [reflexivity|reflexivity|].
  split; [exact A|exact B].
Defined.

(** The directory of the environment of a valid name, as a string. *)
Lemma env_path_string (m : manager) (name : string) :
  valid_root m = true -> valid_name name = true ->
  appendToAbsPath (environmentsDir m) [name]
  = environmentsDir m ++ "/" ++ name.
Proof.
  intros VR VN.
  destruct (valid_name_elements name VN) as [Hs Ne].
  destruct (valid_root_path m VR) as [E NR].
  rewrite env_path by assumption. unfold abs_path.
  rewrite Join_app by assumption. rewrite Join_Split.
  rewrite E at 2. unfold abs_path.
  rewrite !string_app_assoc. reflexivity.
Qed.

(** What [GetEnvironments] returns for the directory at [sub]. *)
Lemma listed_shape (m : manager) (fs : Fs) (envs : list Environment) :
  fault_free fs = true -> wf_fs fs = true -> valid_root m = true ->
  GetEnvironments m fs = (Some envs, None) ->
  forall e, In e envs ->
  exists sub,
    Forall (fun s => element s = true) sub
    /\ Path e = abs_path (resolve (environmentsDir m) ++ sub)
    /\ (sub = [] -> Name e = environmentsDir m)
    /\ (sub <> [] -> Name e = strings.Join sub "/").
Proof.
  intros FF WF VR H e He.
  destruct (listed_sound m fs envs FF WF VR H e He)
    as [sub [es [d [D [L [U [P [N El]]]]]]]].
  exists sub. split; [exact El|]. split; [exact P|].
  destruct (valid_root_path m VR) as [E NR].
  split; intros S; rewrite N, P.
  - subst sub. rewrite app_nil_r, <- E. apply nameFor_root, VR.
  - apply nameFor_below; assumption.
Qed.

(** X6: on a healthy filesystem, every environment that [GetEnvironments]
    returns, other than one of the environments directory itself, has a
    valid name, and its path is the environments directory, a slash and
    that name: what is listed can be passed to [CreateEnvironment] and
    [DeleteEnvironment] and leads back to the same directory. *)
Theorem listed_names_are_valid (m : manager) (fs : Fs)
    (envs : list Environment) :
  fault_free fs = true -> wf_fs fs = true -> valid_root m = true ->
  GetEnvironments m fs = (Some envs, None) ->
  forall e, In e envs ->
  (Path e = environmentsDir m /\ Name e = environmentsDir m)
  \/ (valid_name (Name e) = true
      /\ Path e = environmentsDir m ++ "/" ++ Name e
      /\ Path e = appendToAbsPath (environmentsDir m) [Name e]).
Proof.
  intros FF WF VR H e He.
  destruct (listed_shape m fs envs FF WF VR H e He) as [sub [El [P [N0 N1]]]].
  destruct (valid_root_path m VR) as [E NR].
  destruct sub as [|s sub].
  - left. rewrite P, app_nil_r, <- E. split; [reflexivity|]. apply N0.
    reflexivity.
  - right. specialize (N1 ltac:(discriminate)).
    assert (S : strings.Split (Name e) "/" = s :: sub).
    { rewrite N1. apply Split_Join; [discriminate|].
      eapply Forall_impl; [exact El|]. intros a. apply element_no_slash. }
    assert (V : valid_name (Name e) = true).
    { unfold valid_name. rewrite S. apply List.forallb_forall.
      apply List.Forall_forall. exact El. }
    split; [exact V|].
    rewrite <- (env_path_string m (Name e) VR V).
    split; rewrite env_path, S by assumption; exact P.
Qed.

Lemma listed_names_are_valid_witness :
  valid_name "a/b" = true
  /\ "/app/environments/a/b" = "/app/environments" ++ "/" ++ "a/b"
  /\ "/app/environments/a/b" = appendToAbsPath "/app/environments" ["a/b"].
Proof.
  destruct (listed_names_are_valid Samples.m0 Samples.fs_ab_ac
              [mkEnvironment "/app/environments/a/b" "a/b" "https://b:6443";
               mkEnvironment "/app/environments/a/c" "a/c" "https://c:6443"])
    with (e := mkEnvironment "/app/environments/a/b" "a/b" "https://b:6443")
    as [[A _]|B]; try (vm_compute; reflexivity).
  - left. reflexivity.
  - discriminate A.
  - exact B.
Defined.

(** A list without two elements of the same [f] has no two elements of
    the same [g], when [g] determines [f] on it. *)
Lemma NoDup_map_determined {A B C} (f : A -> B) (g : A -> C) (l : list A) :
  (forall x y, In x l -> In y l -> g x = g y -> f x = f y) ->
  NoDup (map f l) -> NoDup (map g l).
Proof.
  induction l as [|a l IH]; intros D N; [constructor|].
  cbn [map] in *. apply NoDup_cons in N as [Na N].
  apply NoDup_cons. split.
  - intros I. apply Na. apply list_elem_of_In.
    apply list_elem_of_In, List.in_map_iff in I as [x [E I]].
    apply List.in_map_iff. exists x. split; [|exact I].
    apply D; [right; exact I|left; reflexivity|exact E].
  - apply IH; [|exact N]. intros x y Ix Iy. apply D; right; assumption.
Qed.

(** X7: on a healthy filesystem, [GetEnvironments] returns no path twice
    and no name twice: a name identifies one environment of the slice. *)
Theorem listed_names_unique (m : manager) (fs : Fs)
    (envs : list Environment) :
  fault_free fs = true -> wf_fs fs = true -> valid_root m = true ->
  GetEnvironments m fs = (Some envs, None) ->
  NoDup (map Path envs) /\ NoDup (map Name envs).
Proof.
  intros FF WF VR H.
  assert (NP : NoDup (map Path envs)).
  { destruct (GetEnvironments_Ok m fs envs FF WF VR H) as [n [F [WFn E]]].
    eapply envs_below_NoDup; [exact E|exact WFn|apply resolve_elements]. }
  split; [exact NP|].
  apply (NoDup_map_determined Path Name); [|exact NP].
  intros x y Ix Iy E.
  destruct (listed_shape m fs envs FF WF VR H x Ix) as [sx [Ex [Px [X0 X1]]]].
  destruct (listed_shape m fs envs FF WF VR H y Iy) as [sy [Ey [Py [Y0 Y1]]]].
  destruct (valid_root_path m VR) as [R NR].
  assert (Rooted : forall s, s <> [] ->
            Forall (fun s => element s = true) s ->
            strings.Join s "/" <> environmentsDir m).
  { intros s Ns Es J.
    assert (T : path.rooted (strings.Join s "/") = true)
      by (rewrite J, R; apply rooted_abs_path).
    destruct s as [|a s]; [congruence|].
    destruct (Join_head a s) as [rest J']. rewrite J' in T.
    inversion Es; subst. rewrite element_not_rooted in T by assumption.
    discriminate. }
  rewrite Px, Py.
  destruct sx as [|a sx], sy as [|b sy].
  - reflexivity.
  - exfalso. rewrite X0, Y1 in E by (reflexivity || discriminate).
    symmetry in E. revert E. apply Rooted; [discriminate|exact Ey].
  - exfalso. rewrite X1, Y0 in E by (reflexivity || discriminate).
    revert E. apply Rooted; [discriminate|exact Ex].
  - rewrite X1, Y1 in E by discriminate.
    assert (S : a :: sx = b :: sy).
    { rewrite <- (Split_Join (a :: sx)), <- (Split_Join (b :: sy)), E;
        first [reflexivity|discriminate
              |eapply Forall_impl; [eassumption|intros ?; apply element_no_slash]]. }
    rewrite S. reflexivity.
Qed.

Lemma listed_names_unique_witness :
  NoDup (map Name
           [mkEnvironment "/app/environments/a/b" "a/b" "https://b:6443";
            mkEnvironment "/app/environments/a/c" "a/c" "https://c:6443"]).
Proof.
  apply (listed_names_unique Samples.m0 Samples.fs_ab_ac);
    vm_compute; reflexivity.
Defined.

(** ** What [CreateEnvironment] leaves on disk *)

(** A file is found where [file_at] reads one. *)
Lemma file_at_find (q : list string) :
  forall (pre : list string) (n : node) (data : string),
  find pre q n = Ok (File data) <-> file_at q n = Some data.
Proof.
  induction q as [|s q IH]; intros pre n data.
  - cbn. destruct n; split; intros H; inversion H; reflexivity.
  - destruct n as [d|es]; cbn [find file_at]; [split; discriminate|].
    destruct (lookup_entry s es) as [c|]; [apply IH|split; discriminate].
Qed.

(** Writing an entry that is there already changes nothing. *)
Lemma put_entry_same (name : string) (x : node) (es : list (string * node)) :
  lookup_entry name es = Some x -> put_entry name x es = es.
Proof.
  induction es as [|[n y] es IH]; cbn; [discriminate|].
  destruct (String.eqb n name); intros H.
  - inversion H; subst. reflexivity.
  - rewrite IH by exact H. reflexivity.
Qed.

(** After [mkdir_all] there is a directory at the path. *)
Lemma mkdir_all_find (p : list string) :
  forall pre pre' n n', mkdir_all pre p n = Ok n' ->
  exists es, find pre' p n' = Ok (Dir es).
Proof.
  induction p as [|s p IH]; intros pre pre' n n' H.
  - destruct n as [d|es]; cbn in H; inversion H; subst. exists es. reflexivity.
  - destruct n as [d|es]; [discriminate H|]. cbn [mkdir_all] in H.
    destruct (mkdir_all (s :: pre) p
                match lookup_entry s es with Some c => c | None => Dir [] end)
      as [c'|e] eqn:M; [|discriminate H].
    cbn [rbind] in H. inversion H; subst n'. clear H.
    cbn [find]. rewrite lookup_put_entry_eq. eapply IH. exact M.
Qed.

(** [mkdir_all] removes nothing and turns no file into a directory. *)
Lemma mkdir_all_keeps (p : list string) :
  forall pre n n', mkdir_all pre p n = Ok n' ->
  forall q pre' x, find pre' q n = Ok x ->
  exists x', find pre' q n' = Ok x' /\ is_dir x' = is_dir x.
Proof.
  induction p as [|s p IH]; intros pre n n' H q pre' x F.
  - destruct n; cbn in H; inversion H; subst. exists x. split; [exact F|reflexivity].
  - destruct n as [d|es]; [discriminate H|]. cbn [mkdir_all] in H.
    destruct (mkdir_all (s :: pre) p
                match lookup_entry s es with Some c => c | None => Dir [] end)
      as [c'|e] eqn:M; [|discriminate H].
    cbn [rbind] in H. inversion H; subst n'. clear H.
    destruct q as [|t q].
    + cbn in F. inversion F; subst. eexists. split; reflexivity.
    + cbn [find] in F |- *.
      destruct (String.eqb_spec t s) as [E|E].
      * subst t. rewrite lookup_put_entry_eq.
        destruct (lookup_entry s es) as [c|]; [|discriminate F].
        eapply IH; eassumption.
      * rewrite lookup_put_entry_ne by exact E.
        destruct (lookup_entry t es) as [c|]; [|discriminate F].
        exists x. split; [exact F|reflexivity].
Qed.

(** [write_file] removes nothing and turns no directory into a file. *)
Lemma write_file_keeps (p : list string) (data : string) :
  forall pre n n', write_file pre p data n = Ok n' ->
  forall q pre' x, find pre' q n = Ok x ->
  exists x', find pre' q n' = Ok x' /\ is_dir x' = is_dir x.
Proof.
  induction p as [|s p IH]; intros pre n n' H q pre' x F; [discriminate H|].
  destruct n as [d|es]; [discriminate H|]. cbn [write_file] in H.
  destruct q as [|t q].
  { cbn in F. inversion F; subst. cbn [find].
    destruct p; [destruct (lookup_entry s es) as [[?|?]|]
                |destruct (lookup_entry s es);
                 [destruct (write_file _ _ _ _)|]];
      inversion H; subst; eexists; split; reflexivity. }
  cbn [find] in F |- *.
  destruct p as [|s' p].
  - destruct (lookup_entry s es) as [[d|es']|] eqn:L; try discriminate H;
      inversion H; subst n'; clear H; cbn [find];
      (destruct (String.eqb_spec t s) as [E|E];
       [subst t; rewrite lookup_put_entry_eq; rewrite L in F
       |rewrite lookup_put_entry_ne by exact E;
        destruct (lookup_entry t es); [|discriminate F];
        exists x; split; [exact F|reflexivity]]).
    + destruct q; cbn [find] in F |- *.
      * inversion F; subst. eexists. split; reflexivity.
      * discriminate F.
    + discriminate F.
  - destruct (lookup_entry s es) as [c|] eqn:L; [|discriminate H].
    destruct (write_file (s :: pre) (s' :: p) data c) as [c'|e] eqn:W;
      [|discriminate H].
    cbn [rbind] in H. inversion H; subst n'. clear H. cbn [find].
    destruct (String.eqb_spec t s) as [E|E].
    + subst t. rewrite lookup_put_entry_eq. rewrite L in F.
      eapply IH; eassumption.
    + rewrite lookup_put_entry_ne by exact E.
      destruct (lookup_entry t es); [|discriminate F].
      exists x. split; [exact F|reflexivity].
Qed.

(** [mkdir_all] of a directory that exists changes nothing. *)
Lemma mkdir_all_idem (p : list string) :
  forall pre n es, find [] p n = Ok (Dir es) -> mkdir_all pre p n = Ok n.
Proof.
  induction p as [|s p IH]; intros pre n es F.
  - cbn in F. inversion F; subst. reflexivity.
  - destruct n as [d|es0]; [discriminate F|]. cbn [find] in F.
    cbn [mkdir_all].
    destruct (lookup_entry s es0) as [c|] eqn:L; [|discriminate F].
    rewrite (IH (s :: pre) c es) by (eapply find_pre_irrelevant; exact F).
    cbn [rbind]. rewrite put_entry_same by exact L. reflexivity.
Qed.

(** [write_file] of the bytes a file holds already changes nothing. *)
Lemma write_file_idem (p : list string) (data : string) :
  forall pre es, file_at p (Dir es) = Some data ->
  write_file pre p data (Dir es) = Ok (Dir es).
Proof.
  induction p as [|s p IH]; intros pre es F; [discriminate F|].
  cbn [file_at] in F. cbn [write_file].
  destruct (lookup_entry s es) as [c|] eqn:L; [|discriminate F].
  destruct p as [|s' p].
  - destruct c as [d|es']; [|discriminate F]. cbn in F. inversion F; subst.
    rewrite put_entry_same by exact L. reflexivity.
  - destruct c as [d|es']; [discriminate F|].
    rewrite (IH (s :: pre) es' F). cbn [rbind].
    rewrite put_entry_same by exact L. reflexivity.
Qed.

(** A mutating call that fails leaves the tree, one that succeeds
    leaves the tree its operation computes. *)
Lemma mutate_root (o : op) (name : string)
    (f : list string -> node -> result node) (fs fs' : Fs)
    (r : option error) :
  mutate o name f fs = (r, fs') ->
  root fs' = root fs
  \/ (r = None /\ f (resolve name) (Dir (root fs)) = Ok (Dir (root fs'))).
Proof.
  intros H. destruct r as [e|].
  - left. eapply mutate_Some. exact H.
  - right. split; [reflexivity|]. apply mutate_None in H. apply H.
Qed.

Lemma keeps_refl (fs fs' : Fs) : root fs' = root fs -> keeps fs fs'.
Proof.
  intros E q x F. exists x. rewrite E. split; [exact F|reflexivity].
Qed.

Lemma keeps_trans (a b c : Fs) : keeps a b -> keeps b c -> keeps a c.
Proof.
  intros A B q x F. destruct (A q x F) as [y [Fy Dy]].
  destruct (B q y Fy) as [z [Fz Dz]]. exists z. split; [exact Fz|congruence].
Qed.

Lemma MkdirAll_keeps (name : string) (fs fs' : Fs) (r : option error) :
  MkdirAll name fs = (r, fs') -> keeps fs fs'.
Proof.
  intros H. apply mutate_root in H as [E|[_ M]]; [apply keeps_refl, E|].
  intros q x F. eapply mkdir_all_keeps; eassumption.
Qed.

Lemma WriteFile_keeps (name data : string) (fs fs' : Fs) (r : option error) :
  WriteFile name data fs = (r, fs') -> keeps fs fs'.
Proof.
  intros H. apply mutate_root in H as [E|[_ M]]; [apply keeps_refl, E|].
  intros q x F. eapply write_file_keeps; eassumption.
Qed.

Lemma MkdirAll_dir (name : string) (fs fs' : Fs) :
  MkdirAll name fs = (None, fs') ->
  exists es, find [] (resolve name) (Dir (root fs')) = Ok (Dir es).
Proof.
  intros H. apply mutate_None in H as [M _]. eapply mkdir_all_find. exact M.
Qed.

Lemma WriteFile_written (name data : string) (fs fs' : Fs) :
  WriteFile name data fs = (None, fs') ->
  file_at (resolve name) (Dir (root fs')) = Some data.
Proof.
  intros H. apply WriteFile_None in H as [_ [_ F]].
  apply (file_at_find _ []). exact F.
Qed.

(** A relation between filesystems that every step of
    [CreateEnvironment] respects, whatever the step returns, holds
    between the filesystem before and after [CreateEnvironment], whatever
    it returns. *)
Lemma CreateEnvironment_chain (P : Fs -> Fs -> Prop) (m : manager)
    (name uri : string) (spec : ClusterSpec)
    (extensionsLibData k8sLibData : string) (fs : Fs) :
  let envPath := appendToAbsPath (environmentsDir m) [name] in
  (forall a b c, P a b -> P b c -> P a c) ->
  (forall r a b, MkdirAll envPath a = (r, b) -> P a b) ->
  (forall file data r a b, In file artifacts ->
     WriteFile (appendToAbsPath envPath [file]) data a = (r, b) -> P a b) ->
  P fs (snd (CreateEnvironment m name uri spec extensionsLibData k8sLibData
               fs)).
Proof.
  intros envPath T M W. unfold CreateEnvironment. fold envPath.
  destruct (MkdirAll envPath fs) as [r1 fs1] eqn:E1.
  pose proof (M _ _ _ E1) as P1.
  destruct r1 as [e1|]; [exact P1|].
  destruct (data spec) as [specData|e]; [|exact P1].
  destruct (WriteFile (appendToAbsPath envPath [schemaFilename]) specData fs1)
    as [r2 fs2] eqn:E2.
  assert (P2 : P fs fs2).
  { eapply T; [exact P1|]. eapply W; [|exact E2]. cbn. tauto. }
  destruct r2 as [e2|]; [exact P2|].
  destruct (WriteFile (appendToAbsPath envPath [k8sLibFilename]) k8sLibData fs2)
    as [r3 fs3] eqn:E3.
  assert (P3 : P fs fs3).
  { eapply T; [exact P2|]. eapply W; [|exact E3]. cbn. tauto. }
  destruct r3 as [e3|]; [exact P3|].
  destruct (WriteFile (appendToAbsPath envPath [extensionsLibFilename])
              extensionsLibData fs3) as [r4 fs4] eqn:E4.
  assert (P4 : P fs fs4).
  { eapply T; [exact P3|]. eapply W; [|exact E4]. cbn. tauto. }
  destruct r4 as [e4|]; [exact P4|].
  destruct (generateSpecData uri) as [envSpecData|e]; [|exact P4].
  destruct (WriteFile (appendToAbsPath envPath [specFilename]) envSpecData fs4)
    as [r5 fs5] eqn:E5.
  eapply T; [exact P4|]. eapply W; [|exact E5]. cbn. tauto.
Qed.

(** X8: whatever it returns, [CreateEnvironment] changes no file other
    than the four it writes: a file at any other path holds the bytes it
    held, and where there was no file there is none. *)
Theorem CreateEnvironment_changes_only_its_files (m : manager)
    (name uri : string) (spec : ClusterSpec)
    (extensionsLibData k8sLibData : string) (fs : Fs) (q : list string) :
  (forall file, In file artifacts ->
     q <> resolve (appendToAbsPath
                     (appendToAbsPath (environmentsDir m) [name]) [file])) ->
  file_at q (Dir (root (snd (CreateEnvironment m name uri spec
                               extensionsLibData k8sLibData fs))))
  = file_at q (Dir (root fs)).
Proof.
  intros N.
  apply (CreateEnvironment_chain
           (fun a b => file_at q (Dir (root b)) = file_at q (Dir (root a)))).
  - intros a b c A B. congruence.
  - intros r a b H. eapply MkdirAll_file_at. exact H.
  - intros file data r a b I H. eapply WriteFile_file_at; [exact H|].
    apply N, I.
Qed.

Lemma CreateEnvironment_changes_only_its_files_witness :
  file_at ["app"; "environments"; "dev"; "spec.json"]
    (Dir (root (snd (CreateEnvironment Samples.m0 "prod" "https://p:6443"
                       Samples.spec0 "LIBA" "LIBB" Samples.fs_dev))))
  = file_at ["app"; "environments"; "dev"; "spec.json"]
      (Dir (root Samples.fs_dev)).
Proof.
  apply (CreateEnvironment_changes_only_its_files Samples.m0 "prod").
  intros file [<-|[<-|[<-|[<-|[]]]]]; vm_compute; discriminate.
Defined.

(** X9: whatever it returns, [CreateEnvironment] removes nothing: every
    path that led to a directory still leads to a directory, and every
    path that led to a file still leads to a file. *)
Theorem CreateEnvironment_removes_nothing (m : manager)
    (name uri : string) (spec : ClusterSpec)
    (extensionsLibData k8sLibData : string) (fs : Fs) :
  keeps fs (snd (CreateEnvironment m name uri spec extensionsLibData
                   k8sLibData fs)).
Proof.
  apply (CreateEnvironment_chain keeps).
  - apply keeps_trans.
  - intros r a b H. eapply MkdirAll_keeps. exact H.
  - intros file data r a b _ H. eapply WriteFile_keeps. exact H.
Qed.

Lemma CreateEnvironment_removes_nothing_witness :
  exists x',
    find [] ["app"; "environments"]
      (Dir (root (snd (CreateEnvironment Samples.m0 "dev"
                         "https://10.0.0.1:6443" Samples.spec0 "LIBA" "LIBB"
                         Samples.fs_empty)))) = Ok x'
    /\ is_dir x' = is_dir (Dir []).
Proof.
  apply (CreateEnvironment_removes_nothing Samples.m0 "dev"
           "https://10.0.0.1:6443" Samples.spec0 "LIBA" "LIBB"
           Samples.fs_empty ["app"; "environments"] (Dir [])).
  reflexivity.
Defined.

(** The paths of the four files are the directory of the environment
    and the name of the file, and differ from one another. *)
Lemma artifact_path (m : manager) (name file : string) :
  path.rooted (environmentsDir m) = true -> In file artifacts ->
  resolve (appendToAbsPath (appendToAbsPath (environmentsDir m) [name])
             [file])
  = (resolve (appendToAbsPath (environmentsDir m) [name]) ++ [file])%list.
Proof.
  intros R I. unfold appendToAbsPath at 1.
  apply resolve_Join_rooted_element; [apply Join_rooted; exact R|].
  destruct I as [<-|[<-|[<-|[<-|[]]]]]; reflexivity.
Qed.

Lemma artifact_path_inj (m : manager) (name file file' : string) :
  path.rooted (environmentsDir m) = true ->
  In file artifacts -> In file' artifacts ->
  resolve (appendToAbsPath (appendToAbsPath (environmentsDir m) [name])
             [file])
  = resolve (appendToAbsPath (appendToAbsPath (environmentsDir m) [name])
               [file']) ->
  file = file'.
Proof.
  intros R I I' E. rewrite !artifact_path in E by assumption.
  apply app_inv_head in E. inversion E. reflexivity.
Qed.

(** X10: when [CreateEnvironment] returns nil, the four files of the
    environment are on disk with the bytes it was given: [swagger.json]
    holds what [spec.data()] returned, [k8s.libsonnet] holds
    [k8sLibData], [k.libsonnet] holds [extensionsLibData], and
    [spec.json] holds the descriptor of [uri]; whatever was at these
    paths before is overwritten. *)
Theorem CreateEnvironment_writes_its_files (m : manager)
    (name uri : string) (spec : ClusterSpec)
    (extensionsLibData k8sLibData : string) (fs fs' : Fs) :
  path.rooted (environmentsDir m) = true ->
  CreateEnvironment m name uri spec extensionsLibData k8sLibData fs
    = (None, fs') ->
  exists specData specFile,
    data spec = Ok specData
    /\ generateSpecData uri = Ok specFile
    /\ artifact m name schemaFilename fs' = Some specData
    /\ artifact m name k8sLibFilename fs' = Some k8sLibData
    /\ artifact m name extensionsLibFilename fs' = Some extensionsLibData
    /\ artifact m name specFilename fs' = Some specFile.
Proof.
  intros Rt H.
  pose proof (CreateEnvironment_run m name uri spec extensionsLibData
                k8sLibData fs) as R.
  rewrite H in R. inversion R as [|specData envSpecData fs1 fs2 fs3 fs4 envPath
                                   H1 HD H2 H3 H4 HG C E]; subst.
  assert (D : forall file file', In file artifacts -> In file' artifacts ->
              file <> file' ->
              resolve (appendToAbsPath envPath [file])
              <> resolve (appendToAbsPath envPath [file'])).
  { intros file file' I I' N Eq. apply N.
    eapply artifact_path_inj; eassumption. }
  exists specData, envSpecData. split; [exact HD|]. split; [exact HG|].
  unfold artifact. fold envPath.
  apply WriteFile_written in H2.
  pose proof (WriteFile_written _ _ _ _ H3) as H3'.
  pose proof (WriteFile_written _ _ _ _ H4) as H4'.
  pose proof (WriteFile_written _ _ _ _ E) as E'.
  repeat split.
  - rewrite (WriteFile_file_at _ _ _ _ _ E),
      (WriteFile_file_at _ _ _ _ _ H4), (WriteFile_file_at _ _ _ _ _ H3);
      [exact H2|..]; apply D; cbn; try tauto; discriminate.
  - rewrite (WriteFile_file_at _ _ _ _ _ E),
      (WriteFile_file_at _ _ _ _ _ H4);
      [exact H3'|..]; apply D; cbn; try tauto; discriminate.
  - rewrite (WriteFile_file_at _ _ _ _ _ E);
      [exact H4'|..]; apply D; cbn; try tauto; discriminate.
  - exact E'.
Qed.

Lemma CreateEnvironment_writes_its_files_witness :
  exists specData specFile,
    data Samples.spec0 = Ok specData
    /\ generateSpecData "https://10.0.0.1:6443" = Ok specFile
    /\ artifact Samples.m0 "dev" schemaFilename Samples.fs_dev = Some specData
    /\ artifact Samples.m0 "dev" k8sLibFilename Samples.fs_dev = Some "LIBB"
    /\ artifact Samples.m0 "dev" extensionsLibFilename Samples.fs_dev
       = Some "LIBA"
    /\ artifact Samples.m0 "dev" specFilename Samples.fs_dev = Some specFile.
Proof.
  apply (CreateEnvironment_writes_its_files Samples.m0 "dev"
           "https://10.0.0.1:6443" Samples.spec0 "LIBA" "LIBB"
           Samples.fs_empty Samples.fs_dev); reflexivity.
Defined.

Lemma keeps_dir (a b : Fs) (q : list string) (es : list (string * node)) :
  keeps a b -> find [] q (Dir (root a)) = Ok (Dir es) ->
  exists es', find [] q (Dir (root b)) = Ok (Dir es').
Proof.
  intros K F. destruct (K q _ F) as [[d|es'] [F' D]]; [discriminate D|].
  exists es'. exact F'.
Qed.

(** The log of a run tells how many calls it made. *)
Lemma create_calls_take (m : manager) (name : string)
    (l : list (op * list string)) (n k : nat) :
  n <= 5 -> k <= 5 ->
  (l ++ take n (create_calls m name))%list
  = (l ++ take k (create_calls m name))%list ->
  n = k.
Proof.
  intros Hn Hk E. apply app_inv_head in E.
  apply (f_equal length) in E. rewrite !length_take in E.
  cbn [create_calls length] in E. lia.
Qed.

(** X11: a failing [CreateEnvironment] undoes nothing. When it returns
    an error after [n] calls to the filesystem, the directory of the
    environment exists if [n >= 2], [swagger.json] holds the data of
    the cluster specification if [n >= 3], [k8s.libsonnet] holds
    [k8sLibData] if [n >= 4], and [k.libsonnet] holds
    [extensionsLibData] if [n = 5]. *)
Theorem CreateEnvironment_no_rollback (m : manager)
    (name uri : string) (spec : ClusterSpec)
    (extensionsLibData k8sLibData : string) (fs fs' : Fs) (err : error)
    (n : nat) :
  path.rooted (environmentsDir m) = true ->
  CreateEnvironment m name uri spec extensionsLibData k8sLibData fs
    = (Some err, fs') ->
  n <= 5 ->
  calls fs' = (calls fs ++ take n (create_calls m name))%list ->
  (2 <= n ->
   exists es,
     find [] (resolve (appendToAbsPath (environmentsDir m) [name]))
       (Dir (root fs')) = Ok (Dir es))
  /\ (3 <= n ->
      exists specData,
        data spec = Ok specData
        /\ artifact m name schemaFilename fs' = Some specData)
  /\ (4 <= n -> artifact m name k8sLibFilename fs' = Some k8sLibData)
  /\ (n = 5 ->
      artifact m name extensionsLibFilename fs' = Some extensionsLibData).
Proof.
  intros Rt H Hn C. unfold artifact. revert H. unfold CreateEnvironment.
  set (envPath := appendToAbsPath (environmentsDir m) [name]).
  assert (D : forall file file', In file artifacts -> In file' artifacts ->
              file <> file' ->
              resolve (appendToAbsPath envPath [file])
              <> resolve (appendToAbsPath envPath [file'])).
  { intros file file' I I' N Eq. apply N.
    eapply artifact_path_inj; eassumption. }
  destruct (MkdirAll envPath fs) as [[e|] fs1] eqn:E1;
    pose proof (MkdirAll_calls _ _ _ _ E1) as C1.
  { intros H. inversion H; subst. rewrite C in C1.
    apply (create_calls_take m name _ n 1) in C1; [|lia|lia]. lia. }
  destruct (MkdirAll_dir _ _ _ E1) as [es1 D1].
  destruct (data spec) as [specData|e] eqn:ED.
  2:{ intros H. inversion H; subst. rewrite C in C1.
      apply (create_calls_take m name _ n 1) in C1; [|lia|lia]. lia. }
  destruct (WriteFile (appendToAbsPath envPath [schemaFilename]) specData fs1)
    as [r2 fs2] eqn:E2; pose proof (WriteFile_calls _ _ _ _ _ E2) as C2;
    rewrite C1, <- app_assoc in C2.
  destruct (keeps_dir _ _ _ _ (WriteFile_keeps _ _ _ _ _ E2) D1) as [es2 D2].
  destruct r2 as [e|].
  { intros H. inversion H; subst. rewrite C in C2.
    apply (create_calls_take m name _ n 2) in C2; [|lia|lia].
    repeat split; intros; first [lia|eauto]. }
  pose proof (WriteFile_written _ _ _ _ E2) as S2.
  destruct (WriteFile (appendToAbsPath envPath [k8sLibFilename]) k8sLibData fs2)
    as [r3 fs3] eqn:E3; pose proof (WriteFile_calls _ _ _ _ _ E3) as C3;
    rewrite C2, <- app_assoc in C3.
  destruct (keeps_dir _ _ _ _ (WriteFile_keeps _ _ _ _ _ E3) D2) as [es3 D3].
  assert (S3 : file_at (resolve (appendToAbsPath envPath [schemaFilename]))
                 (Dir (root fs3)) = Some specData).
  { rewrite (WriteFile_file_at _ _ _ _ _ E3); [exact S2|].
    apply D; cbn; try tauto; discriminate. }
  destruct r3 as [e|].
  { intros H. inversion H; subst. rewrite C in C3.
    apply (create_calls_take m name _ n 3) in C3; [|lia|lia].
    repeat split; intros; first [lia|eauto]. }
  pose proof (WriteFile_written _ _ _ _ E3) as K3.
  destruct (WriteFile (appendToAbsPath envPath [extensionsLibFilename])
              extensionsLibData fs3)
    as [r4 fs4] eqn:E4; pose proof (WriteFile_calls _ _ _ _ _ E4) as C4;
    rewrite C3, <- app_assoc in C4.
  destruct (keeps_dir _ _ _ _ (WriteFile_keeps _ _ _ _ _ E4) D3) as [es4 D4].
  assert (S4 : file_at (resolve (appendToAbsPath envPath [schemaFilename]))
                 (Dir (root fs4)) = Some specData).
  { rewrite (WriteFile_file_at _ _ _ _ _ E4); [exact S3|].
    apply D; cbn; try tauto; discriminate. }
  assert (K4 : file_at (resolve (appendToAbsPath envPath [k8sLibFilename]))
                 (Dir (root fs4)) = Some k8sLibData).
  { rewrite (WriteFile_file_at _ _ _ _ _ E4); [exact K3|].
    apply D; cbn; try tauto; discriminate. }
  destruct r4 as [e|].
  { intros H. inversion H; subst. rewrite C in C4.
    apply (create_calls_take m name _ n 4) in C4; [|lia|lia].
    repeat split; intros; first [lia|eauto]. }
  pose proof (WriteFile_written _ _ _ _ E4) as X4.
  destruct (generateSpecData uri) as [envSpecData|e] eqn:EG.
  2:{ intros H. inversion H; subst. rewrite C in C4.
      apply (create_calls_take m name _ n 4) in C4; [|lia|lia].
      repeat split; intros; first [lia|eauto]. }
  intros H. pose proof (mutate_Some _ _ _ _ _ _ H) as R5. rewrite R5.
  repeat split; intros; eauto.
Qed.

Lemma CreateEnvironment_no_rollback_witness :
  exists specData,
    data Samples.spec0 = Ok specData
    /\ artifact Samples.m0 "dev" schemaFilename
         (snd (CreateEnvironment Samples.m0 "dev" "https://10.0.0.1:6443"
                 Samples.spec0 "LIBA" "LIBB" Samples.fs_k_fails))
       = Some specData.
Proof.
  eapply (CreateEnvironment_no_rollback Samples.m0 "dev"
            "https://10.0.0.1:6443" Samples.spec0 "LIBA" "LIBB"
            Samples.fs_k_fails _ _ 4);
    [reflexivity|vm_compute; reflexivity|lia|vm_compute; reflexivity|lia].
Defined.

(** A call that returns nil was not set to fail. *)
Lemma mutate_None_not_faulty (o : op) (name : string)
    (f : list string -> node -> result node) (fs fs' : Fs) :
  mutate o name f fs = (None, fs') -> (o, resolve name) ∉ faults fs.
Proof.
  unfold mutate, faulty. intros H I.
  rewrite bool_decide_eq_true_2 in H by exact I. discriminate H.
Qed.

(** A call that is not set to fail and whose operation leaves the tree
    as it is returns nil and only adds to the log. *)
Lemma mutate_same (o : op) (name : string)
    (f : list string -> node -> result node) (fs : Fs) :
  (o, resolve name) ∉ faults fs ->
  f (resolve name) (Dir (root fs)) = Ok (Dir (root fs)) ->
  mutate o name f fs = (None, logged fs o name).
Proof.
  intros N H. unfold mutate, faulty.
  rewrite bool_decide_eq_false_2 by exact N. rewrite H. reflexivity.
Qed.

(** What a [CreateEnvironment] that returns nil has done. *)
Lemma CreateEnvironment_success (m : manager)
    (name uri : string) (spec : ClusterSpec)
    (extensionsLibData k8sLibData : string) (fs fs' : Fs) :
  path.rooted (environmentsDir m) = true ->
  CreateEnvironment m name uri spec extensionsLibData k8sLibData fs
    = (None, fs') ->
  exists specData specFile es,
    data spec = Ok specData
    /\ generateSpecData uri = Ok specFile
    /\ find [] (resolve (appendToAbsPath (environmentsDir m) [name]))
         (Dir (root fs')) = Ok (Dir es)
    /\ artifact m name schemaFilename fs' = Some specData
    /\ artifact m name k8sLibFilename fs' = Some k8sLibData
    /\ artifact m name extensionsLibFilename fs' = Some extensionsLibData
    /\ artifact m name specFilename fs' = Some specFile
    /\ faults fs' = faults fs
    /\ Forall (fun c => c ∉ faults fs) (create_calls m name).
Proof.
  intros Rt H.
  pose proof (CreateEnvironment_run m name uri spec extensionsLibData
                k8sLibData fs) as R.
  rewrite H in R. inversion R as [|specData envSpecData fs1 fs2 fs3 fs4 envPath
                                   H1 HD H2 H3 H4 HG C E]; subst.
  assert (D : forall file file', In file artifacts -> In file' artifacts ->
              file <> file' ->
              resolve (appendToAbsPath envPath [file])
              <> resolve (appendToAbsPath envPath [file'])).
  { intros file file' I I' N Eq. apply N.
    eapply artifact_path_inj; eassumption. }
  destruct (MkdirAll_dir _ _ _ H1) as [es1 D1].
  destruct (keeps_dir _ _ _ _ (WriteFile_keeps _ _ _ _ _ H2) D1) as [es2 D2].
  destruct (keeps_dir _ _ _ _ (WriteFile_keeps _ _ _ _ _ H3) D2) as [es3 D3].
  destruct (keeps_dir _ _ _ _ (WriteFile_keeps _ _ _ _ _ H4) D3) as [es4 D4].
  destruct (keeps_dir _ _ _ _ (WriteFile_keeps _ _ _ _ _ E) D4) as [es5 D5].
  exists specData, envSpecData, es5.
  split; [exact HD|]. split; [exact HG|]. split; [exact D5|].
  unfold artifact. fold envPath.
  pose proof (WriteFile_written _ _ _ _ H2) as S2.
  pose proof (WriteFile_written _ _ _ _ H3) as S3.
  pose proof (WriteFile_written _ _ _ _ H4) as S4.
  pose proof (WriteFile_written _ _ _ _ E) as S5.
  pose proof (mutate_None_not_faulty _ _ _ _ _ H1) as N1.
  pose proof (mutate_None_not_faulty _ _ _ _ _ H2) as N2.
  pose proof (mutate_None_not_faulty _ _ _ _ _ H3) as N3.
  pose proof (mutate_None_not_faulty _ _ _ _ _ H4) as N4.
  pose proof (mutate_None_not_faulty _ _ _ _ _ E) as N5.
  apply MkdirAll_None in H1 as [_ F1].
  pose proof (proj1 (proj2 (WriteFile_None _ _ _ _ H2))) as F2.
  pose proof (proj1 (proj2 (WriteFile_None _ _ _ _ H3))) as F3.
  pose proof (proj1 (proj2 (WriteFile_None _ _ _ _ H4))) as F4.
  pose proof (proj1 (proj2 (WriteFile_None _ _ _ _ E))) as F5.
  rewrite F1 in N2. rewrite F2, F1 in N3. rewrite F3, F2, F1 in N4.
  rewrite F4, F3, F2, F1 in N5.
  repeat split.
  - rewrite (WriteFile_file_at _ _ _ _ _ E),
      (WriteFile_file_at _ _ _ _ _ H4), (WriteFile_file_at _ _ _ _ _ H3);
      [exact S2|..]; apply D; cbn; try tauto; discriminate.
  - rewrite (WriteFile_file_at _ _ _ _ _ E),
      (WriteFile_file_at _ _ _ _ _ H4);
      [exact S3|..]; apply D; cbn; try tauto; discriminate.
  - rewrite (WriteFile_file_at _ _ _ _ _ E);
      [exact S4|..]; apply D; cbn; try tauto; discriminate.
  - exact S5.
  - congruence.
  - unfold create_calls. fold envPath.
    repeat (apply List.Forall_cons; [assumption|]). apply List.Forall_nil.
Qed.

(** X12: [CreateEnvironment] can be repeated: after a call that returned
    nil, the same call returns nil again and leaves every file and
    directory as it is. *)
Theorem CreateEnvironment_idempotent (m : manager)
    (name uri : string) (spec : ClusterSpec)
    (extensionsLibData k8sLibData : string) (fs fs1 : Fs) :
  path.rooted (environmentsDir m) = true ->
  CreateEnvironment m name uri spec extensionsLibData k8sLibData fs
    = (None, fs1) ->
  exists fs2,
    CreateEnvironment m name uri spec extensionsLibData k8sLibData fs1
      = (None, fs2)
    /\ root fs2 = root fs1 /\ faults fs2 = faults fs1.
Proof.
  intros Rt H.
  destruct (CreateEnvironment_success _ _ _ _ _ _ _ _ Rt H)
    as [specData [specFile [es [HD [HG [D [A1 [A2 [A3 [A4 [F N]]]]]]]]]]].
  unfold artifact in *. unfold create_calls in N.
  rewrite <- F in N.
  apply Forall_cons in N as [N1 N]. apply Forall_cons in N as [N2 N].
  apply Forall_cons in N as [N3 N]. apply Forall_cons in N as [N4 N].
  apply Forall_cons in N as [N5 _].
  unfold CreateEnvironment.
  set (envPath := appendToAbsPath (environmentsDir m) [name]) in *.
  unfold MkdirAll, WriteFile.
  rewrite (mutate_same OpMkdirAll envPath) by
    (first [exact N1|eapply mkdir_all_idem; exact D]).
  rewrite HD.
  rewrite (mutate_same OpWriteFile (appendToAbsPath envPath [schemaFilename]))
    by (first [exact N2|apply write_file_idem; exact A1]).
  rewrite (mutate_same OpWriteFile (appendToAbsPath envPath [k8sLibFilename]))
    by (first [exact N3|apply write_file_idem; exact A2]).
  rewrite (mutate_same OpWriteFile
             (appendToAbsPath envPath [extensionsLibFilename]))
    by (first [exact N4|apply write_file_idem; exact A3]).
  rewrite HG.
  rewrite (mutate_same OpWriteFile (appendToAbsPath envPath [specFilename]))
    by (first [exact N5|apply write_file_idem; exact A4]).
  eexists. split; [reflexivity|]. split; reflexivity.
Qed.

Lemma CreateEnvironment_idempotent_witness :
  exists fs2,
    CreateEnvironment Samples.m0 "dev" "https://10.0.0.1:6443" Samples.spec0
      "LIBA" "LIBB" Samples.fs_dev = (None, fs2)
    /\ root fs2 = root Samples.fs_dev /\ faults fs2 = faults Samples.fs_dev.
Proof.
  apply (CreateEnvironment_idempotent Samples.m0 "dev"
           "https://10.0.0.1:6443" Samples.spec0 "LIBA" "LIBB"
           Samples.fs_empty Samples.fs_dev); reflexivity.
Defined.

(** ** [CreateEnvironment] and the other environments *)

(** The path [path.Join] gives below an absolute path is the path of
    its elements. *)
Lemma Join_resolved (p x : string) :
  path.rooted p = true ->
  path.Join [p; x] = abs_path (resolve (path.Join [p; x])).
Proof.
  intros R. pose proof (rooted_not_empty p R) as Np.
  assert (J : exists s, path.rooted s = true /\ path.Join [p; x] = path.Clean s).
  { unfold path.Join. rewrite filter_cons_True by assumption.
    destruct (decide (x = "")) as [E|N].
    - subst x. rewrite filter_cons_False by (intros H; apply H; reflexivity).
      exists p. split; [exact R|reflexivity].
    - rewrite filter_cons_True by assumption.
      exists (p ++ String "/" x). split; [apply rooted_app; exact R|reflexivity]. }
  destruct J as [s [Rs J]]. rewrite J, Clean_rooted by exact Rs.
  rewrite resolve_abs_path by apply resolve_elements. reflexivity.
Qed.

Lemma find_snoc_inv (segs : list string) (x : string) (n c : node) :
  find [] (segs ++ [x]) n = Ok c ->
  exists es, find [] segs n = Ok (Dir es) /\ lookup_entry x es = Some c.
Proof.
  intros F. apply find_app_Ok in F as [y [Fy F]].
  destruct y as [d|es]; [discriminate F|]. cbn [find] in F.
  exists es. split; [exact Fy|].
  destruct (lookup_entry x es); [|discriminate F]. congruence.
Qed.

Lemma mutate_faults (o : op) (name : string)
    (f : list string -> node -> result node) (fs fs' : Fs)
    (r : option error) :
  mutate o name f fs = (r, fs') -> faults fs' = faults fs.
Proof.
  destruct r as [e|]; [|intros H; apply mutate_None in H; apply H].
  unfold mutate. destruct (faulty fs o name).
  - intros H. inversion H; subst. reflexivity.
  - destruct (f (resolve name) (Dir (root fs))) as [[d|es]|e'];
      intros H; inversion H; subst; reflexivity.
Qed.

(** Whatever it returns, [CreateEnvironment] leaves a well-formed tree
    well-formed and the faults as they are. *)
Lemma CreateEnvironment_wf (m : manager)
    (name uri : string) (spec : ClusterSpec)
    (extensionsLibData k8sLibData : string) (fs : Fs) :
  (wf_fs fs = true ->
   wf_fs (snd (CreateEnvironment m name uri spec extensionsLibData
                 k8sLibData fs)) = true)
  /\ faults (snd (CreateEnvironment m name uri spec extensionsLibData
                    k8sLibData fs)) = faults fs.
Proof.
  apply (CreateEnvironment_chain
           (fun a b => (wf_fs a = true -> wf_fs b = true)
                       /\ faults b = faults a)).
  - intros a b c [W1 F1] [W2 F2]. split; [auto|congruence].
  - intros r a b H. split; [|eapply mutate_faults; exact H].
    destruct r as [e|].
    + apply mutate_Some in H. unfold wf_fs. rewrite H. auto.
    + apply MkdirAll_None in H. apply H.
  - intros file data r a b _ H. split; [|eapply mutate_faults; exact H].
    destruct r as [e|].
    + apply mutate_Some in H. unfold wf_fs. rewrite H. auto.
    + apply WriteFile_None in H. apply H.
Qed.

(** X13: [CreateEnvironment] does not disturb the other environments:
    on a healthy filesystem, whatever it returns, every environment that
    [GetEnvironments] returned before, other than the one at the
    directory of [name], is returned afterwards with the same path, name
    and URI, when [GetEnvironments] returns a slice. *)
Theorem CreateEnvironment_keeps_other_environments (m : manager)
    (name uri : string) (spec : ClusterSpec)
    (extensionsLibData k8sLibData : string) (fs : Fs)
    (envs envs' : list Environment) :
  fault_free fs = true -> wf_fs fs = true -> valid_root m = true ->
  GetEnvironments m fs = (Some envs, None) ->
  GetEnvironments m
    (snd (CreateEnvironment m name uri spec extensionsLibData k8sLibData fs))
    = (Some envs', None) ->
  forall e, In e envs ->
  Path e <> appendToAbsPath (environmentsDir m) [name] ->
  In e envs'.
Proof.
  intros FF WF VR L L' e He Ne.
  set (fs' := snd (CreateEnvironment m name uri spec extensionsLibData
                     k8sLibData fs)) in *.
  pose proof VR as VR'.
  unfold valid_root in VR'. apply andb_true_iff in VR' as [VR' _].
  apply andb_true_iff in VR' as [R _].
  destruct (CreateEnvironment_wf m name uri spec extensionsLibData
              k8sLibData fs) as [WF' F']. fold fs' in WF', F'.
  assert (FF' : fault_free fs' = true)
    by (unfold fault_free in *; rewrite F'; exact FF).
  destruct (listed_sound m fs envs FF WF VR L e He)
    as [sub [es [d [D [Lk [U [P [N El]]]]]]]].
  set (q := ((resolve (environmentsDir m) ++ sub) ++ [specFilename])%list).
  assert (Q : file_at q (Dir (root fs)) = Some d).
  { apply (file_at_find _ []). unfold q.
    rewrite (find_snoc _ _ _ _ _ D), Lk. reflexivity. }
  assert (Q' : file_at q (Dir (root fs')) = Some d).
  { rewrite <- Q. unfold fs'.
    apply (CreateEnvironment_chain
             (fun a b => file_at q (Dir (root b)) = file_at q (Dir (root a)))).
    - intros a b c A B. congruence.
    - intros r a b H. eapply MkdirAll_file_at. exact H.
    - intros file data r a b I H. eapply WriteFile_file_at; [exact H|].
      intros E. rewrite artifact_path in E by assumption.
      unfold q in E. apply app_inj_tail in E as [E _].
      apply Ne. rewrite P, E. symmetry. apply Join_resolved, R. }
  apply (file_at_find _ []) in Q'. unfold q in Q'.
  apply find_snoc_inv in Q' as [es' [D' Lk']].
  destruct (listed_complete m fs' envs' FF' (WF' WF) VR L' sub es' D')
    as [d' [uri' [Ld [Ud I]]]].
  { unfold has_descriptor. rewrite Lk'. discriminate. }
  rewrite Lk' in Ld. inversion Ld; subst d'.
  rewrite U in Ud. inversion Ud; subst uri'.
  rewrite <- P, <- N in I. destruct e. exact I.
Qed.

Lemma CreateEnvironment_keeps_other_environments_witness :
  In (mkEnvironment "/app/environments/dev" "dev" "https://10.0.0.1:6443")
     [mkEnvironment "/app/environments/dev" "dev" "https://10.0.0.1:6443";
      mkEnvironment "/app/environments/prod" "prod" "https://p:6443"].
Proof.
  apply (CreateEnvironment_keeps_other_environments Samples.m0 "prod"
           "https://p:6443" Samples.spec0 "LIBA" "LIBB" Samples.fs_dev
           [mkEnvironment "/app/environments/dev" "dev"
              "https://10.0.0.1:6443"]);
    try (vm_compute; reflexivity).
  - left. reflexivity.
  - vm_compute. discriminate.
Defined.

(** ** Descriptors of addresses that are not UTF-8 *)

Lemma coerce_loop_S (n : nat) (c : ascii) (s1 : string) :
  coerce_loop (S n) (String c s1) =
    let '(r, size) := utf8.DecodeRune (String c s1) in
    if (r =? utf8.RuneError)%N && (size =? 1)%nat then
      utf8.EncodeRune utf8.RuneError ++ coerce_loop n s1
    else strings.take size (String c s1)
           ++ coerce_loop n (strings.drop size (String c s1)).
Proof. reflexivity. Qed.

(** The escape written for a byte that is not UTF-8. *)
Lemma replacement_chunk :
  scans (String json.backslash "ufffd")
  /\ unquotes (String json.backslash "ufffd")
       (utf8.EncodeRune utf8.RuneError).
Proof.
  split.
  - intros x lit rest Hx. apply scan_escape_u;
      [eexists; reflexivity|eexists; reflexivity|eexists; reflexivity
      |eexists; reflexivity|exact Hx].
  - intros fuel x. reflexivity.
Qed.

(** One round of the encoder's loop on any string: what it writes for
    the first rune or stray byte is scanned and unquoted to what
    [coerce] puts there. *)
Lemma quote_step_any (n : nat) (c : ascii) (s1 : string) :
  String.length s1 <= n ->
  exists enc dec rest0,
    String.length rest0 <= n
    /\ dec <> ""
    /\ json.quote_loop (S n) (String c s1) = enc ++ json.quote_loop n rest0
    /\ coerce_loop (S n) (String c s1) = dec ++ coerce_loop n rest0
    /\ scans enc /\ unquotes enc dec.
Proof.
  intros L. rewrite coerce_loop_S, quote_loop_S.
  destruct (utf8.byte c <? 0x80)%N eqn:A.
  - assert (D : utf8.DecodeRune (String c s1) = (utf8.byte c, 1))
      by (unfold utf8.DecodeRune; rewrite A; reflexivity).
    rewrite D.
    assert (T : (utf8.byte c =? utf8.RuneError)%N = false).
    { apply N.eqb_neq. apply N.ltb_lt in A. unfold utf8.RuneError. lia. }
    rewrite T. cbn [andb].
    change (strings.drop 1 (String c s1)) with s1.
    change (strings.take 1 (String c s1)) with (String c "").
    destruct (ascii_chunk c A) as [Sc Un].
    eexists _, (String c ""), s1. repeat split; try eassumption.
    discriminate.
  - destruct (utf8.DecodeRune (String c s1)) as [r size] eqn:D.
    destruct ((r =? utf8.RuneError)%N && (size =? 1)%nat) eqn:T.
    + destruct replacement_chunk as [Sc Un].
      eexists _, _, s1. repeat split; try eassumption.
      vm_compute. discriminate.
    + destruct (DecodeRune_spec (String c s1) r size ltac:(discriminate) D T)
        as [chunk [rest0 [E [Len [Pos [Enc [Dt Hh]]]]]]].
      assert (Hc : all_high chunk = true)
        by (apply (Hh c s1 eq_refl); apply N.ltb_ge in A; exact A).
      assert (Nc : chunk <> "")
        by (intros Z; rewrite Z in Len; cbn in Len; lia).
      assert (Lr : String.length rest0 <= n).
      { apply (f_equal String.length) in E.
        rewrite length_app_string in E. cbn [String.length] in E. lia. }
      rewrite E. subst size. rewrite drop_app, take_app.
      destruct ((r =? 0x2028)%N || (r =? 0x2029)%N) eqn:Sep.
      * assert (Hr : (r = 0x2028 \/ r = 0x2029)%N).
        { apply orb_true_iff in Sep as [S|S]; apply N.eqb_eq in S; auto. }
        destruct (separator_chunk r Hr) as [Sc Un]. rewrite Enc in Un.
        eexists _, chunk, rest0. repeat split; try eassumption.
      * exists chunk, chunk, rest0. repeat split; try assumption.
        -- apply high_chunk_scans. exact Hc.
        -- apply (rune_chunk_unquotes chunk r); assumption.
Qed.

Lemma quote_loop_coerce (n : nat) :
  forall uri, String.length uri <= n ->
  scans (json.quote_loop n uri)
  /\ exists k, k <= String.length (json.quote_loop n uri)
       /\ forall fuel, k <= fuel ->
            json.unquote_loop fuel (json.quote_loop n uri)
            = Some (coerce_loop n uri).
Proof.
  induction n as [|n IH]; intros uri L.
  - destruct uri as [|c s1]; [|cbn in L; lia]. split.
    + intros x lit rest Hx. exact Hx.
    + exists 0. split; [apply Nat.le_0_l|].
      intros fuel _. destruct fuel; reflexivity.
  - destruct uri as [|c s1].
    + split.
      * intros x lit rest Hx. exact Hx.
      * exists 0. split; [apply Nat.le_0_l|].
        intros fuel _. destruct fuel; reflexivity.
    + cbn [String.length] in L.
      destruct (quote_step_any n c s1 ltac:(lia))
        as [enc [dec [rest0 [Lr [Nd [Q [Co [Sc Un]]]]]]]].
      destruct (IH rest0 Lr) as [Sc' [k [Hk Un']]].
      rewrite Q, Co. split.
      * intros x lit rest Hx. rewrite !string_app_assoc.
        apply Sc. apply Sc'. exact Hx.
      * exists (S k). split.
        { rewrite length_app_string.
          pose proof (unquotes_nonempty enc dec Un Nd). lia. }
        intros fuel Hf. destruct fuel as [|fuel]; [lia|].
        rewrite Un, Un' by lia. reflexivity.
Qed.

Lemma string_literal_coerce (uri rest : string) :
  json.string_literal
    (json.quote_loop (String.length uri) uri ++ String json.dquote rest)
  = Some (coerce uri, rest).
Proof.
  destruct (quote_loop_coerce (String.length uri) uri (le_n _))
    as [Sc [k [Hk U]]].
  assert (Uq : json.unquote (json.quote_loop (String.length uri) uri)
               = Some (coerce uri)).
  { unfold json.unquote. destruct (json.plain _ _) eqn:P.
    - apply plain_unquote_loop in P. rewrite (U _ Hk) in P. symmetry. exact P.
    - apply U. exact Hk. }
  unfold json.string_literal.
  rewrite (Sc (String json.dquote rest) "" rest) by reflexivity.
  rewrite string_app_nil_r, Uq. reflexivity.
Qed.

Lemma take_drop_string (n : nat) :
  forall s, strings.take n s ++ strings.drop n s = s.
Proof.
  induction n as [|n IH]; intros [|c s]; try reflexivity.
  change (String c (strings.take n s ++ strings.drop n s) = String c s).
  rewrite IH. reflexivity.
Qed.

(** Valid UTF-8 is left as it is. *)
Lemma coerce_valid (n : nat) :
  forall s, utf8.valid_loop n s = true -> coerce_loop n s = s.
Proof.
  induction n as [|n IH]; intros [|c s1] V; try reflexivity;
    try discriminate V.
  rewrite valid_loop_S in V. rewrite coerce_loop_S.
  destruct (utf8.DecodeRune (String c s1)) as [r size].
  destruct ((r =? utf8.RuneError)%N && (size =? 1)%nat); [discriminate V|].
  rewrite (IH _ V). apply take_drop_string.
Qed.

(** What [MarshalIndent] writes for a struct with the one string field
    [name] and any bytes as its value, [Unmarshal] reads back as the
    value coerced to UTF-8. *)
Lemma Unmarshal_MarshalIndent_coerce (name value cur : string) :
  utf8.ValidString name = true ->
  json.selects name name = true ->
  exists data,
    json.MarshalIndent name value "  " = Ok data
    /\ json.parse data
       = Some (json.JObject [(name, json.JString (coerce value))])
    /\ json.Unmarshal data name cur = Ok (coerce value).
Proof.
  intros Vn Sel. eexists. split; [reflexivity|].
  set (lit_k := json.quote_loop (String.length name) name).
  set (lit_v := json.quote_loop (String.length value) value).
  assert (E : "{" ++ String json.LF
                ("  " ++ json.quote name ++ ": " ++ json.quote value
                   ++ String json.LF "}")
              = String "{" (String json.LF (String " " (String " "
                  (String json.dquote
                     (lit_k ++ String json.dquote (String ":" (String " "
                        (String json.dquote
                           (lit_v ++ String json.dquote
                              (String json.LF "}"))))))))))).
  { unfold json.quote. fold lit_k. fold lit_v.
    change ("{" ++ String json.LF
              ("  " ++ String json.dquote (lit_k ++ String json.dquote "")
                 ++ ": " ++ String json.dquote (lit_v ++ String json.dquote "")
                 ++ String json.LF "}"))
      with (String "{" (String json.LF (String " " (String " "
              (String json.dquote
                 ((lit_k ++ String json.dquote "")
                    ++ String ":" (String " "
                         (String json.dquote
                            ((lit_v ++ String json.dquote "")
                               ++ String json.LF "}"))))))))).
    rewrite !string_app_assoc. reflexivity. }
  rewrite E. clear E.
  assert (P : json.parse
                (String "{" (String json.LF (String " " (String " "
                   (String json.dquote
                      (lit_k ++ String json.dquote (String ":" (String " "
                         (String json.dquote
                            (lit_v ++ String json.dquote
                               (String json.LF "}")))))))))))
              = Some (json.JObject [(name, json.JString (coerce value))])).
  { unfold json.parse.
    change (json.skip_ws (String "{" ?x)) with (String "{" x).
    cbn [String.length].
    rewrite (parse_one_member name (coerce value) lit_k lit_v).
    - reflexivity.
    - intros rest. apply string_literal_quote. exact Vn.
    - intros rest. apply string_literal_coerce. }
  split; [exact P|]. unfold json.Unmarshal. rewrite P.
  cbn [json.object]. rewrite Sel. reflexivity.
Qed.

(** X14: the descriptor of any address can be read back. For every
    string [uri], [generateSpecData] returns a document without an
    error, and decoding it as [GetEnvironments] does gives, without an
    error, [uri] with every byte that is not UTF-8 replaced by U+FFFD;
    that is [uri] itself when [uri] is valid UTF-8. *)
Theorem descriptor_of_any_bytes (uri : string) :
  exists specFile,
    generateSpecData uri = Ok specFile
    /\ json.parse specFile
       = Some (json.JObject [("uri", json.JString (coerce uri))])
    /\ unmarshalEnvironmentSpec specFile
       = Ok (mkEnvironmentSpec (coerce uri))
    /\ (utf8.ValidString uri = true -> coerce uri = uri).
Proof.
  destruct (Unmarshal_MarshalIndent_coerce EnvironmentSpec_URI_tag uri ""
              eq_refl eq_refl) as [data [M [P U]]].
  exists data. split; [exact M|]. split; [exact P|]. split.
  - unfold unmarshalEnvironmentSpec. cbn [spec_URI]. rewrite U. reflexivity.
  - apply coerce_valid.
Qed.

Lemma descriptor_of_any_bytes_witness :
  coerce Samples.uri_unicode = Samples.uri_unicode.
Proof.
  destruct (descriptor_of_any_bytes Samples.uri_unicode) as [d [_ [_ [_ H]]]].
  apply H. vm_compute. reflexivity.
Defined.

(** ** A cluster specification that cannot be read *)

(** [mkdir_all] makes an empty directory where there was nothing. *)
Lemma mkdir_all_new (p : list string) :
  forall pre n n', mkdir_all pre p n = Ok n' ->
  (forall x, find [] p n <> Ok x) ->
  find [] p n' = Ok (Dir []).
Proof.
  induction p as [|s p IH]; intros pre n n' H N.
  - exfalso. apply (N n). reflexivity.
  - destruct n as [d|es]; [discriminate H|]. cbn [mkdir_all] in H.
    destruct (mkdir_all (s :: pre) p
                match lookup_entry s es with Some c => c | None => Dir [] end)
      as [c'|e] eqn:M; [|discriminate H].
    cbn [rbind] in H. inversion H; subst n'. clear H.
    cbn [find]. rewrite lookup_put_entry_eq.
    apply (find_pre_irrelevant _ []).
    destruct (lookup_entry s es) as [c|] eqn:L.
    + apply (IH _ _ _ M). intros x F. apply (N x). cbn [find]. rewrite L.
      eapply find_pre_irrelevant. exact F.
    + destruct p as [|t p].
      * cbn in M. inversion M; subst. reflexivity.
      * apply (IH _ _ _ M). intros x F. discriminate F.
Qed.

(** X15: the directory of the environment is made before the cluster
    specification is read: when [spec.data()] fails after [MkdirAll]
    succeeded, [CreateEnvironment] returns the error of [data()] as it
    is, has made one call to the filesystem and changed no file, and
    the directory of the environment exists; where there was nothing
    at its path before, an empty directory is left behind. *)
Theorem CreateEnvironment_data_error (m : manager)
    (name uri : string) (spec : ClusterSpec)
    (extensionsLibData k8sLibData : string) (fs fs1 : Fs) (err : error) :
  let envPath := appendToAbsPath (environmentsDir m) [name] in
  data spec = Err err ->
  MkdirAll envPath fs = (None, fs1) ->
  CreateEnvironment m name uri spec extensionsLibData k8sLibData fs
    = (Some err, fs1)
  /\ calls fs1 = (calls fs ++ [(OpMkdirAll, resolve envPath)])%list
  /\ (forall q, file_at q (Dir (root fs1)) = file_at q (Dir (root fs)))
  /\ (exists es, find [] (resolve envPath) (Dir (root fs1)) = Ok (Dir es))
  /\ ((forall x, find [] (resolve envPath) (Dir (root fs)) <> Ok x) ->
      find [] (resolve envPath) (Dir (root fs1)) = Ok (Dir [])).
Proof.
  intros envPath D M. split; [|split; [|split; [|split]]].
  - unfold CreateEnvironment. fold envPath. rewrite M, D. reflexivity.
  - eapply MkdirAll_calls. exact M.
  - eapply MkdirAll_file_at. exact M.
  - eapply MkdirAll_dir. exact M.
  - intros N. apply mutate_None in M as [M _].
    eapply mkdir_all_new; eassumption.
Qed.

Lemma CreateEnvironment_data_error_witness :
  CreateEnvironment Samples.m0 "dev" "https://10.0.0.1:6443"
    (mkClusterSpec (Err (errorString "no route to host")) "url:x")
    "LIBA" "LIBB" Samples.fs_empty
  = (Some (errorString "no route to host"),
     mkFs [("app", Dir [("environments", Dir [("dev", Dir [])])])] []
       [(OpMkdirAll, ["app"; "environments"; "dev"])]).
Proof.
  apply (CreateEnvironment_data_error Samples.m0 "dev"
           "https://10.0.0.1:6443"
           (mkClusterSpec (Err (errorString "no route to host")) "url:x")
           "LIBA" "LIBB" Samples.fs_empty); reflexivity.
Defined.

(** ** [GenerateKsonnetLibData] *)

Lemma upto_last_slash_no_slash (x : string) :
  no_slash x = true -> filepath.upto_last_slash x = "".
Proof.
  induction x as [|c x IH]; [reflexivity|]. cbn [no_slash].
  intros H. apply andb_true_iff in H as [Hc Hx].
  cbn [filepath.upto_last_slash]. rewrite (IH Hx).
  apply negb_true_iff in Hc. rewrite Hc. reflexivity.
Qed.

Lemma upto_last_slash_app (a x : string) :
  no_slash x = true ->
  filepath.upto_last_slash (a ++ String "/" x) = a ++ "/".
Proof.
  intros H. induction a as [|c a IH].
  - change (filepath.upto_last_slash (String "/" x) = "/").
    cbn [filepath.upto_last_slash].
    rewrite upto_last_slash_no_slash by exact H. reflexivity.
  - change (filepath.upto_last_slash (String c (a ++ String "/" x))
            = String c (a ++ "/")).
    cbn [filepath.upto_last_slash]. rewrite IH.
    assert (N : String.eqb (a ++ "/") "" = false)
      by (destruct a; reflexivity).
    rewrite N, orb_true_r. reflexivity.
Qed.

(** The directory of a path below the environments directory. *)
Lemma Dir_below_root (m : manager) (x : string) :
  valid_root m = true -> element x = true ->
  filepath.Dir (appendToAbsPath (environmentsDir m) [x]) = environmentsDir m.
Proof.
  intros VR Hx. pose proof VR as VR'.
  unfold valid_root in VR'. apply andb_true_iff in VR' as [VR' _].
  apply andb_true_iff in VR' as [R _].
  destruct (valid_root_path m VR) as [E NR].
  assert (V : valid_name x = true).
  { unfold valid_name.
    rewrite Split_no_slash by (apply element_no_slash; exact Hx).
    cbn. rewrite Hx. reflexivity. }
  rewrite env_path_string by assumption. unfold filepath.Dir.
  change (environmentsDir m ++ "/" ++ x)
    with (environmentsDir m ++ String "/" x).
  rewrite upto_last_slash_app by (apply element_no_slash; exact Hx).
  rewrite Clean_rooted by (apply rooted_app; exact R).
  rewrite E at 2. f_equal.
  unfold resolve. rewrite Split_app_sep, fold_left_app. reflexivity.
Qed.

(** X16: [GenerateKsonnetLibData] returns the error of [spec.data()] or
    of the decoder with two nil slices, and otherwise what the emitter
    returns for the decoded specification with [Text] set to the data as
    read and [FilePath] set to the environments directory itself (the
    directory of the [default] environment's directory), whether or not
    that environment exists. *)
Theorem GenerateKsonnetLibData_emits (R : Type)
    (unmarshal : string -> result (APISpec R))
    (Emit : APISpec R -> option string * option string * option error)
    (m : manager) (spec : ClusterSpec) :
  valid_root m = true ->
  GenerateKsonnetLibData unmarshal Emit m spec =
    match data spec with
    | Err err => (None, None, Some err)
    | Ok text =>
        match unmarshal text with
        | Err err => (None, None, Some err)
        | Ok s => Emit (mkAPISpec (decoded s) (environmentsDir m) text)
        end
    end.
Proof.
  intros VR. unfold GenerateKsonnetLibData.
  destruct (data spec) as [text|e]; [|reflexivity].
  destruct (unmarshal text) as [s|e]; [|reflexivity].
  cbv zeta. cbn [decoded FilePath Text].
  rewrite Dir_below_root by (exact VR || reflexivity). reflexivity.
Qed.

Lemma GenerateKsonnetLibData_emits_witness :
  GenerateKsonnetLibData
    (fun text => Ok (mkAPISpec (String.length text) "" ""))
    (fun s => (Some (FilePath s), Some (Text s), None))
    Samples.m0 Samples.spec0
  = (Some "/app/environments", Some "{}", None).
Proof.
  apply (GenerateKsonnetLibData_emits nat
           (fun text => Ok (mkAPISpec (String.length text) "" ""))
           (fun s => (Some (FilePath s), Some (Text s), None))
           Samples.m0 Samples.spec0).
  reflexivity.
Defined.

(** ** The pruning loop of [DeleteEnvironment] *)

Lemma lookup_del_entry_eq (s : string) (es : list (string * node)) :
  lookup_entry s (del_entry s es) = None.
Proof.
  induction es as [|[k y] es IH]; [reflexivity|]. cbn [del_entry].
  destruct (String.eqb k s) eqn:E; [exact IH|].
  cbn [lookup_entry]. rewrite E. exact IH.
Qed.

Lemma lookup_del_entry_ne (t s : string) (es : list (string * node)) :
  t <> s -> lookup_entry t (del_entry s es) = lookup_entry t es.
Proof.
  intros N. induction es as [|[k y] es IH]; [reflexivity|]. cbn [del_entry].
  destruct (String.eqb_spec k s) as [E|E]; cbn [lookup_entry].
  - subst k. destruct (String.eqb_spec s t); [congruence|exact IH].
  - destruct (String.eqb k t); [reflexivity|exact IH].
Qed.

(** [remove_all] adds nothing: what is found afterwards was there. *)
Lemma remove_all_found (p : list string) :
  forall pre n n', remove_all pre p n = Ok n' ->
  forall q pre' x, find pre' q n' = Ok x -> exists x', find pre' q n = Ok x'.
Proof.
  induction p as [|s p IH]; intros pre n n' H q pre' x F.
  - destruct n as [d|es]; [discriminate H|]. cbn in H. inversion H; subst.
    destruct q as [|t q]; [eexists; reflexivity|discriminate F].
  - destruct n as [d|es]; [discriminate H|]. cbn [remove_all] in H.
    destruct q as [|t q]; [eexists; reflexivity|].
    destruct p as [|s' p].
    + inversion H; subst n'. clear H. cbn [find] in F |- *.
      destruct (String.eqb_spec t s) as [E|E].
      * subst t. rewrite lookup_del_entry_eq in F. discriminate F.
      * rewrite lookup_del_entry_ne in F by exact E.
        destruct (lookup_entry t es); [|discriminate F]. eauto.
    + destruct (lookup_entry s es) as [c|] eqn:L.
      * destruct (remove_all (s :: pre) (s' :: p) c) as [c'|e] eqn:R;
          [|discriminate H].
        cbn [rbind] in H. inversion H; subst n'. clear H.
        cbn [find] in F |- *.
        destruct (String.eqb_spec t s) as [E|E].
        -- subst t. rewrite lookup_put_entry_eq in F. rewrite L.
           eapply IH; eassumption.
        -- rewrite lookup_put_entry_ne in F by exact E.
           destruct (lookup_entry t es); [|discriminate F]. eauto.
      * inversion H; subst n'. eauto.
Qed.

(** After [remove_all] nothing is at the path, whether it returns an
    error or not. *)
Lemma remove_all_gone (p : list string) :
  p <> [] ->
  forall pre es x,
  find [] p match remove_all pre p (Dir es) with
            | Ok n' => n'
            | Err _ => Dir es
            end <> Ok x.
Proof.
  induction p as [|s p IH]; intros Np pre es x; [congruence|].
  cbn [remove_all]. destruct p as [|s' p].
  - cbn [find]. rewrite lookup_del_entry_eq. discriminate.
  - destruct (lookup_entry s es) as [c|] eqn:L.
    + destruct c as [d|es'].
      * cbn [remove_all rbind find]. rewrite L. discriminate.
      * specialize (IH ltac:(discriminate) (s :: pre) es' x).
        destruct (remove_all (s :: pre) (s' :: p) (Dir es')) as [c'|e];
          cbn [rbind].
        -- cbn [find]. rewrite lookup_put_entry_eq. intros F. apply IH.
           eapply find_pre_irrelevant. exact F.
        -- cbn [find]. rewrite L. intros F. apply IH.
           eapply find_pre_irrelevant. exact F.
    + cbn [find]. rewrite L. discriminate.
Qed.

(** Nothing is found at [q]. *)
Lemma RemoveAll_found (name : string) (fs : Fs) (q : list string) :
  (forall x, find [] q (Dir (root fs)) <> Ok x) ->
  forall x, find [] q (Dir (root (snd (RemoveAll name fs)))) <> Ok x.
Proof.
  intros A x. destruct (RemoveAll name fs) as [r fs'] eqn:H. cbn [snd].
  apply mutate_root in H as [E|[_ M]]; [rewrite E; apply A|].
  intros F. destruct (remove_all_found _ _ _ _ M _ _ _ F) as [x' F'].
  exact (A x' F').
Qed.

Lemma remove_all_dir (p pre : list string) (es : list (string * node))
    (d : string) :
  remove_all pre p (Dir es) <> Ok (File d).
Proof.
  destruct p as [|s [|s' p]]; cbn [remove_all]; try discriminate.
  destruct (lookup_entry s es) as [c|]; [|discriminate].
  match goal with
  | |- rbind ?r _ <> _ => destruct r as [c'|e]
  end; cbn [rbind]; discriminate.
Qed.

Lemma RemoveAll_gone (name : string) (fs : Fs) :
  fault_free fs = true -> resolve name <> [] ->
  forall x,
  find [] (resolve name) (Dir (root (snd (RemoveAll name fs)))) <> Ok x.
Proof.
  intros FF N x. unfold RemoveAll, mutate.
  rewrite faulty_fault_free by exact FF.
  pose proof (remove_all_gone (resolve name) N [] (root fs) x) as G.
  pose proof (remove_all_dir (resolve name) [] (root fs)) as D.
  destruct (remove_all [] (resolve name) (Dir (root fs))) as [[d|es]|e];
    cbn [snd root logged]; [exfalso; exact (D d eq_refl)|exact G|exact G].
Qed.

Lemma TrimSuffix_app (a b : string) : strings.TrimSuffix (a ++ b) b = a.
Proof.
  unfold strings.TrimSuffix, strings.HasSuffix.
  rewrite length_app_string.
  replace (String.length a + String.length b - String.length b)
    with (String.length a) by lia.
  rewrite drop_app, String.eqb_refl. apply take_app.
Qed.

(** The rounds of the pruning loop add nothing. *)
Lemma prune_found (m : manager) (name : string)
    (envs : option (list Environment)) (q : list string)
    (dirs : list string) :
  forall fs,
  (forall x, find [] q (Dir (root fs)) <> Ok x) ->
  forall x,
  find [] q
    (Dir (root (fold_left (fun fs dir => prune_step m name envs dir fs)
                  dirs fs))) <> Ok x.
Proof.
  induction dirs as [|d dirs IH]; intros fs A; [exact A|].
  cbn [fold_left]. apply IH. unfold prune_step. apply RemoveAll_found, A.
Qed.

(** X17: the pruning loop of [DeleteEnvironment] removes the parent
    directory of the environment with all it holds, whatever
    environments there are: for a valid name of two or more elements on
    a filesystem without faults, nothing is left at the path of the
    name without its last element. (The loop is never reached:
    [DeleteEnvironment] does not get past the nil map.) *)
Theorem prune_removes_parent (m : manager) (name : string)
    (envs : option (list Environment)) (fs : Fs)
    (init : list string) (last : string) :
  fault_free fs = true -> valid_root m = true -> valid_name name = true ->
  strings.Split name "/" = (init ++ [last])%list -> init <> [] ->
  forall x,
  find [] (resolve (environmentsDir m) ++ init)
    (Dir (root (prune m name envs (strings.Split name "/") fs))) <> Ok x.
Proof.
  intros FF VR VN S Ni.
  destruct (valid_name_elements name VN) as [El _]. rewrite S in El.
  apply Forall_app in El as [Ei El].
  assert (Nm : name = strings.Join init "/" ++ String "/" last).
  { rewrite <- (Join_Split name), S.
    rewrite Join_app by (assumption || discriminate). reflexivity. }
  assert (Si : strings.Split (strings.Join init "/") "/" = init).
  { apply Split_Join; [exact Ni|].
    eapply Forall_impl; [exact Ei|]. intros a. apply element_no_slash. }
  assert (Vi : valid_name (strings.Join init "/") = true).
  { unfold valid_name. rewrite Si. apply List.forallb_forall.
    apply List.Forall_forall. exact Ei. }
  assert (P : resolve (appendToAbsPath (environmentsDir m)
                         [strings.Join init "/"])
              = (resolve (environmentsDir m) ++ init)%list).
  { rewrite env_path, Si by assumption. apply resolve_abs_path.
    apply Forall_app. split; [apply resolve_elements|exact Ei]. }
  unfold prune. rewrite S, rev_app_distr. cbn [rev app fold_left].
  apply prune_found. unfold prune_step.
  assert (T : strings.TrimSuffix name ("/" ++ last) = strings.Join init "/").
  { change ("/" ++ last) with (String "/" last).
    rewrite Nm. apply TrimSuffix_app. }
  cbv zeta. rewrite T, <- P.
  apply RemoveAll_gone; [exact FF|]. rewrite P.
  destruct (valid_root_path m VR) as [_ NR].
  destruct (resolve (environmentsDir m)); [congruence|discriminate].
Qed.

Lemma prune_removes_parent_witness :
  ~ exists x,
      find [] ["app"; "environments"; "a"]
        (Dir (root (prune Samples.m0 "a/b"
                      (fst (GetEnvironments Samples.m0 Samples.fs_ab_ac))
                      (strings.Split "a/b" "/")
                      (snd (RemoveAll "/app/environments/a/b"
                              Samples.fs_ab_ac)))))
      = Ok x.
Proof.
  intros [x F]. revert F.
  apply (prune_removes_parent Samples.m0 "a/b"
           (fst (GetEnvironments Samples.m0 Samples.fs_ab_ac))
           (snd (RemoveAll "/app/environments/a/b" Samples.fs_ab_ac))
           ["a"] "b"); try reflexivity.
  discriminate.
Defined.

(** ** Creating, then listing, any address *)

(** X18: what is created is what is listed, for every address. On a
    well-formed filesystem without faults, after [CreateEnvironment]
    returned nil for a valid name, a [GetEnvironments] that returns a
    slice holds the environment of that name with the path
    [appendToAbsPath] gives it and with [uri] coerced to UTF-8 as its
    URI ([uri] itself when it is valid UTF-8), and every environment of
    that name in the slice is this one. *)
Theorem CreateEnvironment_listed_coerced (m : manager)
    (name uri : string) (spec : ClusterSpec)
    (extensionsLibData k8sLibData : string) (fs fs' : Fs)
    (envs : list Environment) :
  valid_root m = true -> valid_name name = true ->
  fault_free fs = true -> wf_fs fs = true ->
  CreateEnvironment m name uri spec extensionsLibData k8sLibData fs
    = (None, fs') ->
  GetEnvironments m fs' = (Some envs, None) ->
  let created :=
    mkEnvironment (appendToAbsPath (environmentsDir m) [name]) name
      (coerce uri) in
  In created envs
  /\ (forall e, In e envs -> Name e = name -> e = created)
  /\ (utf8.ValidString uri = true -> URI created = uri).
Proof.
  intros VR VN FF WF HC HL created.
  destruct (CreateEnvironment_None _ _ _ _ _ _ _ _ HC)
    as [WF' [F' [specFile [G Fd]]]].
  specialize (WF' WF).
  assert (FF' : fault_free fs' = true)
    by (unfold fault_free in *; rewrite F'; exact FF).
  destruct (valid_name_elements name VN) as [Hs Nn].
  rewrite resolve_env_path in Fd by assumption.
  apply find_snoc_inv in Fd as [es [D Le]].
  assert (HD : has_descriptor es)
    by (unfold has_descriptor; rewrite Le; discriminate).
  assert (Dec : unmarshalEnvironmentSpec specFile
                = Ok (mkEnvironmentSpec (coerce uri))).
  { destruct (Unmarshal_MarshalIndent_coerce "uri" uri "" eq_refl eq_refl)
      as [data [M [_ U']]].
    unfold generateSpecData in G. cbn [spec_URI] in G.
    unfold EnvironmentSpec_URI_tag in G. rewrite M in G.
    inversion G; subst data.
    unfold unmarshalEnvironmentSpec. cbn [spec_URI].
    unfold EnvironmentSpec_URI_tag. rewrite U'. reflexivity. }
  assert (Nm : nameFor m (abs_path (resolve (environmentsDir m)
                                      ++ strings.Split name "/")) = name).
  { rewrite nameFor_below by assumption. apply Join_Split. }
  unfold created. rewrite env_path by assumption.
  split; [|split].
  - destruct (listed_complete m fs' envs FF' WF' VR HL _ es D HD)
      as [d [u [Ld [U Hin]]]].
    rewrite Le in Ld. inversion Ld; subst d.
    rewrite Dec in U. inversion U; subst u.
    rewrite Nm in Hin. exact Hin.
  - intros e He Ne.
    destruct (listed_sound m fs' envs FF' WF' VR HL e He)
      as [sub [es' [d' [D' [L' [U' [Pe [Ns Hsub]]]]]]]].
    destruct (listed_shape m fs' envs FF' WF' VR HL e He)
      as [sub2 [El2 [P2 [N0 N1]]]].
    assert (Es : sub2 = sub).
    { apply (app_inv_head (resolve (environmentsDir m))).
      apply abs_path_inj;
        [apply Forall_app; split; [apply resolve_elements|exact El2]
        |apply Forall_app; split; [apply resolve_elements|exact Hsub]
        |congruence]. }
    subst sub2.
    assert (S : sub = strings.Split name "/").
    { destruct sub as [|s sub].
      - exfalso. specialize (N0 eq_refl).
        pose proof (valid_name_not_rooted name VN) as NR.
        rewrite <- Ne, N0 in NR.
        unfold valid_root in VR. apply andb_true_iff in VR as [VR _].
        apply andb_true_iff in VR as [VR _]. congruence.
      - specialize (N1 ltac:(discriminate)). rewrite Ne in N1.
        apply (f_equal (fun x => strings.Split x "/")) in N1.
        rewrite Split_Join in N1;
          [symmetry; exact N1|discriminate
          |eapply Forall_impl; [exact Hsub|intros a; apply element_no_slash]]. }
    subst sub.
    assert (Ee : es' = es).
    { unfold directory_at in D'. rewrite D in D'. congruence. }
    subst es'. rewrite Le in L'. inversion L'; subst d'.
    rewrite Dec in U'. inversion U' as [Eu].
    destruct e as [p n u]. cbn [Path Name URI] in *. subst. reflexivity.
  - cbn [URI]. apply coerce_valid.
Qed.

Lemma CreateEnvironment_listed_coerced_witness :
  In (mkEnvironment (appendToAbsPath "/app/environments" ["dev"]) "dev"
        (coerce Samples.uri_not_utf8))
     [mkEnvironment "/app/environments/dev" "dev"
        (utf8.EncodeRune utf8.RuneError)].
Proof.
  apply (CreateEnvironment_listed_coerced Samples.m0 "dev"
           Samples.uri_not_utf8 Samples.spec0 "LIBA" "LIBB" Samples.fs_empty
           (snd (CreateEnvironment Samples.m0 "dev" Samples.uri_not_utf8
                   Samples.spec0 "LIBA" "LIBB" Samples.fs_empty)));
    vm_compute; reflexivity.
Defined.
